(** * RDP client of mcp-server-zotero-dev: framing, correlation, session cache

    A shallow embedding of [packages/mcp-server/src/rdp/client.ts] (with the
    helpers of [actors.ts]) and the properties its design document states
    about it.

    - [JS]: the fragment of the JavaScript runtime the client relies on
      (strings as sequences of UTF-16 code units, [indexOf], [slice],
      [parseInt], number printing, UTF-8 encoding, values, [JSON.stringify]).
    - [Rdp]: the client itself.  Synchronous methods are state transformers
      on the record [client]; [async] methods are resumptions that run until
      their next [await] and hand back a continuation.
    - [Obs]: observations on clients and runs that the statements use.
    - [Sample]: concrete sessions and frames.
    The properties follow, one section for each. *)

From Stdlib Require Import List ZArith NArith Lia Bool String Ascii FunctionalExtensionality.
Import ListNotations.
Open Scope Z_scope.
Set Warnings "-register-all".

Module JS.

(** ** Strings *)

(** A JavaScript string is a sequence of UTF-16 code units; [s.length]
    counts code units. *)
Definition code_unit := N.
Definition jsstring := list code_unit.

(** ASCII literals. *)
Definition js (s : string) : jsstring := map N_of_ascii (list_ascii_of_string s).

Definition len (s : jsstring) : Z := Z.of_nat (List.length s).

Definition jsstring_eqb (a b : jsstring) : bool :=
  if list_eq_dec N.eq_dec a b then true else false.

(** [s.startsWith(p)] *)
Fixpoint startsWith (s p : jsstring) {struct p} : bool :=
  match p, s with
  | [], _ => true
  | _ :: _, [] => false
  | a :: p', b :: s' => N.eqb a b && startsWith s' p'
  end.

(** [s.indexOf(p)]: the least index at which [p] occurs, or -1. *)
Fixpoint indexOf_at (s p : jsstring) (i : Z) : Z :=
  if startsWith s p then i
  else match s with
       | [] => -1
       | _ :: s' => indexOf_at s' p (i + 1)
       end.

Definition indexOf (s p : jsstring) : Z := indexOf_at s p 0.

(** [s.includes(p)] *)
Definition includes (s p : jsstring) : bool := negb (indexOf s p =? -1).

(** [s.slice(start, end)]: a negative index counts from the end, every index
    is clamped to [0, s.length], and an empty range gives the empty string. *)
Definition clamp_index (n i : Z) : Z :=
  if i <? 0 then Z.max (n + i) 0 else Z.min i n.

Definition slice (s : jsstring) (start end_ : Z) : jsstring :=
  let from := clamp_index (len s) start in
  let to := clamp_index (len s) end_ in
  firstn (Z.to_nat (to - from)) (skipn (Z.to_nat from) s).

(** [s.slice(start)] *)
Definition slice_from (s : jsstring) (start : Z) : jsstring :=
  slice s start (len s).

(** ** parseInt(s, 10)

    Leading white space is skipped, one sign is accepted, then the longest
    run of decimal digits is read; [None] stands for NaN (no digit read).
    The result is a mathematical integer: the client compares it with string
    lengths only, where the rounding of a double beyond 2^53 cannot change
    the outcome. *)

(** WhiteSpace and LineTerminator code units (ECMA-262, TrimString). *)
Definition isWhiteSpace (c : code_unit) : bool :=
  existsb (N.eqb c)
    [0x09; 0x0A; 0x0B; 0x0C; 0x0D; 0x20; 0xA0; 0x1680; 0x2000; 0x2001; 0x2002;
     0x2003; 0x2004; 0x2005; 0x2006; 0x2007; 0x2008; 0x2009; 0x200A; 0x2028;
     0x2029; 0x202F; 0x205F; 0x3000; 0xFEFF]%N.

Fixpoint trimStart (s : jsstring) : jsstring :=
  match s with
  | c :: r => if isWhiteSpace c then trimStart r else s
  | [] => []
  end.

Definition digit_of (c : code_unit) : option Z :=
  if (48 <=? c)%N && (c <=? 57)%N then Some (Z.of_N (c - 48)) else None.

Fixpoint parse_digits (s : jsstring) (acc : Z) (seen : bool) : option Z :=
  match s with
  | c :: r =>
      match digit_of c with
      | Some d => parse_digits r (10 * acc + d) true
      | None => if seen then Some acc else None
      end
  | [] => if seen then Some acc else None
  end.

Definition parseInt (s : jsstring) : option Z :=
  match trimStart s with
  | c :: r =>
      if (c =? 45)%N then option_map Z.opp (parse_digits r 0 false)
      else if (c =? 43)%N then parse_digits r 0 false
      else parse_digits (c :: r) 0 false
  | [] => None
  end.

(** ** Number to string, for integers *)

Fixpoint digits (fuel : nat) (n : N) : jsstring :=
  match fuel with
  | O => []
  | S f => if (n <? 10)%N then [48 + n]%N
           else digits f (n / 10)%N ++ [48 + n mod 10]%N
  end.

Definition decimal (n : N) : jsstring := digits (S (N.to_nat (N.log2 n))) n.

(** [String(n)] for an integer [n] (below 10^21 in absolute value, where
    JavaScript prints all digits). *)
Definition Number_toString (n : Z) : jsstring :=
  if n <? 0 then 45%N :: decimal (Z.to_N (- n)) else decimal (Z.to_N n).

(** ** Number::toString, for the numbers of a message

    A number is a double, and its text is the shortest decimal that reads
    back as that double (ECMA-262, Number::toString): all digits up to
    2^53, rounded digits above, exponent form from 10^21, [Infinity] beyond
    the largest double. *)

(** The double nearest to the integer [x >= 0], ties to the even
    significand; [None] is Infinity. *)
Definition double_of (x : Z) : option Z :=
  let e := Z.log2 x in
  if e <=? 52 then Some x
  else
    let t := e - 52 in
    let q := x / 2 ^ t in
    let r := x mod 2 ^ t in
    let half := 2 ^ (t - 1) in
    let q' := if (half <? r) || ((r =? half) && Z.odd q) then q + 1 else q in
    let d := q' * 2 ^ t in
    if d <? 2 ^ 1024 then Some d else None.

(** Whether the integer [v] reads back as the double [d >= 2^53]: it lies
    within half the gap to either neighbour of [d], the two bounds included
    when the significand of [d] is even.  The gap above is [2^t]; below a
    power of two it is [2^(t-1)]; all sides are multiplied by 4. *)
Definition rounds_to (d v : Z) : bool :=
  let t := Z.log2 d - 52 in
  let q := d / 2 ^ t in
  let below := if q =? 2 ^ 52 then 2 ^ t else 2 ^ (t + 1) in
  let above := 2 ^ (t + 1) in
  if Z.even q then (4 * d - below <=? 4 * v) && (4 * v <=? 4 * d + above)
  else (4 * d - below <? 4 * v) && (4 * v <? 4 * d + above).

(** The decimal with the fewest significant digits that reads back as [d]:
    with [p] the power of ten of the last digit kept, the candidates are [d]
    cut and [d] cut plus one; of two that fit the nearer is taken, the even
    one if they are as near; with none, one more digit is kept. *)
Fixpoint shortest (fuel : nat) (p d : Z) : Z :=
  match fuel with
  | O => d
  | S fuel' =>
      let a := d / p * p in
      let b := a + p in
      match rounds_to d a, rounds_to d b with
      | true, true => if d - a <? b - d then a
                      else if b - d <? d - a then b
                      else if Z.even (d / p) then a else b
      | true, false => a
      | false, true => b
      | false, false => shortest fuel' (p / 10) d
      end
  end.

Fixpoint strip_zeros (reversed : jsstring) : jsstring :=
  match reversed with
  | c :: r => if (c =? 48)%N then strip_zeros r else reversed
  | [] => []
  end.

(** [d.ddde+x], for [v >= 10^21]. *)
Definition exponent_form (v : Z) : jsstring :=
  let all := decimal (Z.to_N v) in
  let e := [101; 43]%N ++ decimal (N.of_nat (List.length all - 1)) in
  match rev (strip_zeros (rev all)) with
  | [] => all
  | [a] => a :: e
  | a :: r => a :: 46%N :: r ++ e
  end.

Definition double_toString (d : Z) : jsstring :=
  let all := decimal (Z.to_N d) in
  let v := if d <? 2 ^ 53 then d
           else shortest (List.length all) (10 ^ (Z.of_nat (List.length all) - 1)) d in
  if v <? 10 ^ 21 then decimal (Z.to_N v) else exponent_form v.

(** The text of the number [n]. *)
Definition Number_prototype_toString (n : Z) : jsstring :=
  let text := match double_of (Z.abs n) with
              | Some d => double_toString d
              | None => [73; 110; 102; 105; 110; 105; 116; 121]%N
              end in
  if n <? 0 then 45%N :: text else text.

(** ** UTF-8, the encoding [socket.write(string)] puts on the wire *)

Definition isHighSurrogate (c : code_unit) : bool := (0xD800 <=? c)%N && (c <=? 0xDBFF)%N.
Definition isLowSurrogate (c : code_unit) : bool := (0xDC00 <=? c)%N && (c <=? 0xDFFF)%N.

Definition utf8_3 (c : N) : list N :=
  [0xE0 + c / 4096; 0x80 + (c / 64) mod 64; 0x80 + c mod 64]%N.

Definition utf8_4 (cp : N) : list N :=
  [0xF0 + cp / 262144; 0x80 + (cp / 4096) mod 64; 0x80 + (cp / 64) mod 64; 0x80 + cp mod 64]%N.

Definition REPLACEMENT : list N := [0xEF; 0xBF; 0xBD]%N.

Fixpoint utf8_encode (s : jsstring) : list N :=
  match s with
  | [] => []
  | c :: r =>
      if (c <? 0x80)%N then c :: utf8_encode r
      else if (c <? 0x800)%N then (0xC0 + c / 64)%N :: (0x80 + c mod 64)%N :: utf8_encode r
      else if isHighSurrogate c then
        match r with
        | d :: r' =>
            if isLowSurrogate d
            then utf8_4 (0x10000 + (c - 0xD800) * 0x400 + (d - 0xDC00))%N ++ utf8_encode r'
            else REPLACEMENT ++ utf8_encode r
        | [] => REPLACEMENT
        end
      else if isLowSurrogate c then REPLACEMENT ++ utf8_encode r
      else utf8_3 c ++ utf8_encode r
  end.

Definition byteLength (s : jsstring) : Z := Z.of_nat (List.length (utf8_encode s)).

(** ** Values *)

(** JavaScript values as far as the client meets them: what [JSON.parse]
    produces, [undefined] (an absent property), and symbols (made by the grip
    decoder).  [VNum] holds integers, read as the double nearest to them
    where their text is taken; an object is the list of its own properties
    in iteration order. *)
Inductive value : Type :=
| VUndefined
| VNull
| VBool (b : bool)
| VNum (n : Z)
| VStr (s : jsstring)
| VArr (items : list value)
| VObj (fields : list (jsstring * value))
| VSymbol (name : jsstring).

Definition record := list (jsstring * value).

(** Truthiness ([if (v)], [v || w], [!v]). *)
Definition truthy (v : value) : bool :=
  match v with
  | VUndefined | VNull => false
  | VBool b => b
  | VNum n => negb (n =? 0)
  | VStr s => match s with [] => false | _ => true end
  | VArr _ | VObj _ | VSymbol _ => true
  end.

(** [a || b] *)
Definition or_else (a b : value) : value := if truthy a then a else b.

Fixpoint lookup (k : jsstring) (fields : record) : option value :=
  match fields with
  | [] => None
  | (k', v) :: r => if jsstring_eqb k k' then Some v else lookup k r
  end.

Definition has_field (k : jsstring) (fields : record) : bool :=
  match lookup k fields with Some _ => true | None => false end.

(** [v.k] on a value other than [null] and [undefined].  Strings and arrays
    answer [length]; inherited methods are not values of this model. *)
Definition get (v : value) (k : jsstring) : value :=
  match v with
  | VObj fields => match lookup k fields with Some x => x | None => VUndefined end
  | VArr items => if jsstring_eqb k (js "length") then VNum (Z.of_nat (List.length items)) else VUndefined
  | VStr s => if jsstring_eqb k (js "length") then VNum (len s) else VUndefined
  | _ => VUndefined
  end.

(** [v.k] in general: reading a property of [null] or [undefined] throws
    (here [None]). *)
Definition prop (v : value) (k : jsstring) : option value :=
  match v with
  | VUndefined | VNull => None
  | _ => Some (get v k)
  end.

(** [v?.k] *)
Definition opt_prop (v : value) (k : jsstring) : value :=
  match v with
  | VUndefined | VNull => VUndefined
  | _ => get v k
  end.

(** [k in v], for the property names the client asks about (none of them is
    inherited from a prototype); [in] throws on a primitive (here [None]). *)
Definition has_property (k : jsstring) (v : value) : option bool :=
  match v with
  | VObj fields => Some (has_field k fields)
  | VArr _ => Some (jsstring_eqb k (js "length"))
  | _ => None
  end.

(** [Object.keys(v).length] *)
Definition Object_keys (fields : record) : list jsstring :=
  nodup (list_eq_dec N.eq_dec) (map fst fields).

Definition Object_keys_length (v : value) : Z :=
  match v with
  | VObj fields => Z.of_nat (List.length (Object_keys fields))
  | VArr items => Z.of_nat (List.length items)
  | VStr s => len s
  | _ => 0
  end.

(** [v === "literal"] *)
Definition is_string (v : value) (s : jsstring) : bool :=
  match v with VStr t => jsstring_eqb t s | _ => false end.

(** [typeof v === "object"] ([null] included, as in JavaScript). *)
Definition typeof_object (v : value) : bool :=
  match v with VNull | VArr _ | VObj _ => true | _ => false end.

Fixpoint join (sep : jsstring) (l : list jsstring) : jsstring :=
  match l with
  | [] => []
  | [a] => a
  | a :: r => a ++ sep ++ join sep r
  end.

(** ToString: what a template literal or [new Error(v)] makes of a value;
    [None] is the TypeError of a value that cannot be converted.  That is a
    symbol, and an object with an own [toString] property: no value here is
    callable, so the property hides [Object.prototype.toString], and
    [valueOf], own or inherited, gives no primitive either.  An array joins
    the texts of its elements ([Array.prototype.join]), and is converted
    only if they all are. *)
Fixpoint ToString (v : value) : option jsstring :=
  match v with
  | VUndefined => Some (js "undefined")
  | VNull => Some (js "null")
  | VBool true => Some (js "true")
  | VBool false => Some (js "false")
  | VNum n => Some (Number_prototype_toString n)
  | VStr s => Some s
  | VArr items =>
      option_map (join (js ","))
        ((fix each (l : list value) : option (list jsstring) :=
            match l with
            | [] => Some []
            | x :: r =>
                match (match x with VUndefined | VNull => Some [] | _ => ToString x end), each r with
                | Some a, Some b => Some (a :: b)
                | _, _ => None
                end
            end) items)
  | VObj fields =>
      if has_field (js "toString") fields then None else Some (js "[object Object]")
  | VSymbol _ => None
  end.

(** ** JSON.stringify *)

Definition hexdigit (n : N) : code_unit := (if n <? 10 then 48 + n else 87 + n)%N.

Definition u_escape (c : code_unit) : jsstring :=
  [92; 117; hexdigit (c / 4096); hexdigit ((c / 256) mod 16);
   hexdigit ((c / 16) mod 16); hexdigit (c mod 16)]%N.

(** QuoteJSONString: the two-character escapes, [\u00xx] for the other
    control characters and for lone surrogates; everything else, non-ASCII
    included, is copied. *)
Fixpoint quote_units (s : jsstring) : jsstring :=
  match s with
  | [] => []
  | c :: r =>
      if (c =? 8)%N then [92; 98]%N ++ quote_units r
      else if (c =? 9)%N then [92; 116]%N ++ quote_units r
      else if (c =? 10)%N then [92; 110]%N ++ quote_units r
      else if (c =? 12)%N then [92; 102]%N ++ quote_units r
      else if (c =? 13)%N then [92; 114]%N ++ quote_units r
      else if (c =? 34)%N then [92; 34]%N ++ quote_units r
      else if (c =? 92)%N then [92; 92]%N ++ quote_units r
      else if (c <? 32)%N then u_escape c ++ quote_units r
      else if isHighSurrogate c then
        match r with
        | d :: r' => if isLowSurrogate d then c :: d :: quote_units r'
                     else u_escape c ++ quote_units r
        | [] => u_escape c
        end
      else if isLowSurrogate c then u_escape c ++ quote_units r
      else c :: quote_units r
  end.

Definition QuoteJSONString (s : jsstring) : jsstring := 34%N :: quote_units s ++ [34%N].

(** SerializeJSONProperty: [None] is [undefined] (the property is left out
    of an object, and printed as [null] in an array); a number that is not
    finite is printed as [null]. *)
Fixpoint SerializeJSONProperty (v : value) : option jsstring :=
  match v with
  | VUndefined | VSymbol _ => None
  | VNull => Some (js "null")
  | VBool true => Some (js "true")
  | VBool false => Some (js "false")
  | VNum n => Some (match double_of (Z.abs n) with
                     | Some _ => Number_prototype_toString n
                     | None => js "null"
                     end)
  | VStr s => Some (QuoteJSONString s)
  | VArr items =>
      Some (js "[" ++ join (js ",")
              (map (fun x => match SerializeJSONProperty x with
                             | Some s => s
                             | None => js "null"
                             end) items) ++ js "]")
  | VObj fields =>
      Some (js "{" ++ join (js ",")
              (flat_map (fun kv => match SerializeJSONProperty (snd kv) with
                                   | Some s => [QuoteJSONString (fst kv) ++ js ":" ++ s]
                                   | None => []
                                   end) fields) ++ js "}")
  end.

(** [JSON.stringify(message)] for an object: always a string. *)
Definition JSON_stringify (message : record) : jsstring :=
  match SerializeJSONProperty (VObj message) with
  | Some s => s
  | None => []
  end.

(** ** A JSON reader

    [JSON.parse] itself stays a parameter of the framing code below.  This
    reader is an instance to run examples with: it reads JSON texts whose
    numbers are integers and whose objects repeat no key and have no
    array-index keys (which [JSON.parse] would move to the front). *)

Fixpoint skip_ws (s : jsstring) : jsstring :=
  match s with
  | c :: r => if existsb (N.eqb c) [32; 9; 10; 13]%N then skip_ws r else s
  | [] => []
  end.

Definition hexval (c : code_unit) : option N :=
  if (48 <=? c)%N && (c <=? 57)%N then Some (c - 48)%N
  else if (97 <=? c)%N && (c <=? 102)%N then Some (c - 87)%N
  else if (65 <=? c)%N && (c <=? 70)%N then Some (c - 55)%N
  else None.

Definition unescape (e : code_unit) : option code_unit :=
  if (e =? 34)%N then Some 34%N else if (e =? 92)%N then Some 92%N
  else if (e =? 47)%N then Some 47%N else if (e =? 98)%N then Some 8%N
  else if (e =? 102)%N then Some 12%N else if (e =? 110)%N then Some 10%N
  else if (e =? 114)%N then Some 13%N else if (e =? 116)%N then Some 9%N
  else None.

(** The text after an opening quote, up to the closing one. *)
Fixpoint read_string (s : jsstring) (acc : jsstring) : option (jsstring * jsstring) :=
  match s with
  | [] => None
  | c :: r =>
      if (c =? 34)%N then Some (rev acc, r)
      else if (c =? 92)%N then
        match r with
        | e :: r1 =>
            if (e =? 117)%N then
              match r1 with
              | h1 :: h2 :: h3 :: h4 :: r2 =>
                  match hexval h1, hexval h2, hexval h3, hexval h4 with
                  | Some a, Some b, Some c', Some d =>
                      read_string r2 ((a * 4096 + b * 256 + c' * 16 + d)%N :: acc)
                  | _, _, _, _ => None
                  end
              | _ => None
              end
            else match unescape e with
                 | Some ch => read_string r1 (ch :: acc)
                 | None => None
                 end
        | [] => None
        end
      else if (c <? 32)%N then None
      else read_string r (c :: acc)
  end.

Fixpoint read_digits (s : jsstring) (acc : Z) (seen : bool) : option (Z * jsstring) :=
  match s with
  | c :: r =>
      match digit_of c with
      | Some d => read_digits r (10 * acc + d) true
      | None => if seen && negb (existsb (N.eqb c) [46; 101; 69]%N) then Some (acc, s) else None
      end
  | [] => if seen then Some (acc, []) else None
  end.

Fixpoint read_value (fuel : nat) (s : jsstring) : option (value * jsstring) :=
  match fuel with
  | O => None
  | S f =>
      match skip_ws s with
      | 110%N :: 117%N :: 108%N :: 108%N :: r => Some (VNull, r)
      | 116%N :: 114%N :: 117%N :: 101%N :: r => Some (VBool true, r)
      | 102%N :: 97%N :: 108%N :: 115%N :: 101%N :: r => Some (VBool false, r)
      | 34%N :: r => option_map (fun p => (VStr (fst p), snd p)) (read_string r [])
      | 45%N :: r => option_map (fun p => (VNum (- fst p), snd p)) (read_digits r 0 false)
      | 91%N :: r =>
          match skip_ws r with
          | 93%N :: r' => Some (VArr [], r')
          | _ =>
              option_map (fun p => (VArr (fst p), snd p))
                ((fix elems (n : nat) (s : jsstring) : option (list value * jsstring) :=
                    match n with
                    | O => None
                    | S n' =>
                        match read_value f s with
                        | Some (v, r1) =>
                            match skip_ws r1 with
                            | 44%N :: r2 =>
                                option_map (fun p => (v :: fst p, snd p)) (elems n' r2)
                            | 93%N :: r2 => Some ([v], r2)
                            | _ => None
                            end
                        | None => None
                        end
                    end) f r)
          end
      | 123%N :: r =>
          match skip_ws r with
          | 125%N :: r' => Some (VObj [], r')
          | _ =>
              option_map (fun p => (VObj (fst p), snd p))
                ((fix members (n : nat) (s : jsstring) : option (record * jsstring) :=
                    match n with
                    | O => None
                    | S n' =>
                        match skip_ws s with
                        | 34%N :: r0 =>
                            match read_string r0 [] with
                            | Some (k, r1) =>
                                match skip_ws r1 with
                                | 58%N :: r2 =>
                                    match read_value f r2 with
                                    | Some (v, r3) =>
                                        match skip_ws r3 with
                                        | 44%N :: r4 =>
                                            option_map (fun p => ((k, v) :: fst p, snd p))
                                              (members n' r4)
                                        | 125%N :: r4 => Some ([(k, v)], r4)
                                        | _ => None
                                        end
                                    | None => None
                                    end
                                | _ => None
                                end
                            | None => None
                            end
                        | _ => None
                        end
                    end) f r)
          end
      | r => option_map (fun p => (VNum (fst p), snd p)) (read_digits r 0 false)
      end
  end.

Definition read_json (s : jsstring) : option value :=
  match read_value (S (List.length s)) s with
  | Some (v, r) => match skip_ws r with [] => Some v | _ => None end
  | None => None
  end.

End JS.

Module Rdp.
Import JS.

(** ** Data *)

(** An [Error] is identified with its message. *)
Definition jserror := jsstring.

Record RDPClientOptions := {
  host : jsstring;
  port : Z;
  reconnectDelay : Z;
  maxReconnectAttempts : Z;
  timeout : Z
}.

Definition DEFAULT_OPTIONS : RDPClientOptions :=
  {| host := js "127.0.0.1"; port := 6100; reconnectDelay := 1000;
     maxReconnectAttempts := 3; timeout := 30000 |}.

Definition ACTOR_CACHE_TTL_MS : Z := 30000.
Definition HEALTH_CHECK_THRESHOLD_MS : Z := 10000.
Definition KEEPALIVE_INTERVAL_MS : Z := 30000.

(** actors.ts *)
Record RootActor := { applicationType : value; traits : value }.

Record TabActor := { actorID : value; title : value; url : value; outerWindowID : value }.

Record ConnectionState := {
  connected : bool;
  root : option RootActor;
  currentTab : option TabActor;
  consoleActor : value;
  inspectorActor : value
}.

Definition createConnectionState : ConnectionState :=
  {| connected := false; root := None; currentTab := None;
     consoleActor := VUndefined; inspectorActor := VUndefined |}.

(** The socket handle with the two stream flags [isConnected] reads. *)
Record Socket := { sock_id : nat; destroyed : bool; writable : bool }.

(** An entry of [pendingRequests].  Its [resolve]/[reject] pair settles the
    promise of the request with the entry's key; its timer is armed as long
    as the entry is in the map; [request] is the message the timer's closure
    reports when it fires. *)
Record PendingRequest := { request : record }.

(** What the client does to the outside: events it emits, promises it
    settles, socket and timer operations, in program order. *)
Inductive effect : Type :=
| Emit (event : jsstring) (args : list value)
| EmitError (e : jserror)
| ResolveRequest (id : nat) (response : value)
| RejectRequest (id : nat) (e : jserror)
| ResolveConnect (p : nat)
| RejectConnect (p : nat) (e : jserror)
| CreateConnection (sock : nat) (h : jsstring) (pt : Z)
| SocketWrite (sock : nat) (packet : jsstring)
| SocketDestroy (sock : nat)
| SetTimeout (id : nat) (ms : Z)
| ClearTimeout (id : nat)
| SetInterval (ms : Z)
| ClearInterval
| ScheduleReconnect (ms : Z).

(** The fields of [RDPClient], followed by what the class closes over: the
    [handleIntro] listeners registered on "message" (one per [connect] in
    flight, named by the promise it resolves), whether an "error" listener
    is attached, the clock read by [Date.now()], a supply of fresh names for
    sockets and connect promises, and the effects so far. *)
Record client := {
  options : RDPClientOptions;
  socket : option Socket;
  state : ConnectionState;
  pendingRequests : list (nat * PendingRequest);
  messageIdCounter : nat;
  buffer : jsstring;
  reconnectAttempts : Z;
  lastSuccessfulOperation : Z;
  consoleActorCachedAt : Z;
  consecutiveFailures : nat;
  keepaliveTimer : bool;
  isKeepaliveEnabled : bool;
  introListeners : list nat;
  errorListener : bool;
  now : Z;
  fresh : nat;
  trace : list effect
}.

(** The constructor. *)
Definition new_client (o : RDPClientOptions) : client :=
  {| options := o; socket := None; state := createConnectionState;
     pendingRequests := []; messageIdCounter := 0; buffer := [];
     reconnectAttempts := 0; lastSuccessfulOperation := 0;
     consoleActorCachedAt := 0; consecutiveFailures := 0;
     keepaliveTimer := false; isKeepaliveEnabled := true;
     introListeners := []; errorListener := false; now := 0; fresh := 0;
     trace := [] |}.

(** Field updates. *)
Definition set_socket (x : option Socket) (c : client) : client :=
  {| options := options c; socket := x; state := state c;
     pendingRequests := pendingRequests c; messageIdCounter := messageIdCounter c;
     buffer := buffer c; reconnectAttempts := reconnectAttempts c;
     lastSuccessfulOperation := lastSuccessfulOperation c;
     consoleActorCachedAt := consoleActorCachedAt c;
     consecutiveFailures := consecutiveFailures c; keepaliveTimer := keepaliveTimer c;
     isKeepaliveEnabled := isKeepaliveEnabled c; introListeners := introListeners c;
     errorListener := errorListener c; now := now c; fresh := fresh c; trace := trace c |}.

Definition set_state (x : ConnectionState) (c : client) : client :=
  {| options := options c; socket := socket c; state := x;
     pendingRequests := pendingRequests c; messageIdCounter := messageIdCounter c;
     buffer := buffer c; reconnectAttempts := reconnectAttempts c;
     lastSuccessfulOperation := lastSuccessfulOperation c;
     consoleActorCachedAt := consoleActorCachedAt c;
     consecutiveFailures := consecutiveFailures c; keepaliveTimer := keepaliveTimer c;
     isKeepaliveEnabled := isKeepaliveEnabled c; introListeners := introListeners c;
     errorListener := errorListener c; now := now c; fresh := fresh c; trace := trace c |}.

Definition set_pendingRequests (x : list (nat * PendingRequest)) (c : client) : client :=
  {| options := options c; socket := socket c; state := state c;
     pendingRequests := x; messageIdCounter := messageIdCounter c;
     buffer := buffer c; reconnectAttempts := reconnectAttempts c;
     lastSuccessfulOperation := lastSuccessfulOperation c;
     consoleActorCachedAt := consoleActorCachedAt c;
     consecutiveFailures := consecutiveFailures c; keepaliveTimer := keepaliveTimer c;
     isKeepaliveEnabled := isKeepaliveEnabled c; introListeners := introListeners c;
     errorListener := errorListener c; now := now c; fresh := fresh c; trace := trace c |}.

Definition set_messageIdCounter (x : nat) (c : client) : client :=
  {| options := options c; socket := socket c; state := state c;
     pendingRequests := pendingRequests c; messageIdCounter := x;
     buffer := buffer c; reconnectAttempts := reconnectAttempts c;
     lastSuccessfulOperation := lastSuccessfulOperation c;
     consoleActorCachedAt := consoleActorCachedAt c;
     consecutiveFailures := consecutiveFailures c; keepaliveTimer := keepaliveTimer c;
     isKeepaliveEnabled := isKeepaliveEnabled c; introListeners := introListeners c;
     errorListener := errorListener c; now := now c; fresh := fresh c; trace := trace c |}.

Definition set_buffer (x : jsstring) (c : client) : client :=
  {| options := options c; socket := socket c; state := state c;
     pendingRequests := pendingRequests c; messageIdCounter := messageIdCounter c;
     buffer := x; reconnectAttempts := reconnectAttempts c;
     lastSuccessfulOperation := lastSuccessfulOperation c;
     consoleActorCachedAt := consoleActorCachedAt c;
     consecutiveFailures := consecutiveFailures c; keepaliveTimer := keepaliveTimer c;
     isKeepaliveEnabled := isKeepaliveEnabled c; introListeners := introListeners c;
     errorListener := errorListener c; now := now c; fresh := fresh c; trace := trace c |}.

Definition set_reconnectAttempts (x : Z) (c : client) : client :=
  {| options := options c; socket := socket c; state := state c;
     pendingRequests := pendingRequests c; messageIdCounter := messageIdCounter c;
     buffer := buffer c; reconnectAttempts := x;
     lastSuccessfulOperation := lastSuccessfulOperation c;
     consoleActorCachedAt := consoleActorCachedAt c;
     consecutiveFailures := consecutiveFailures c; keepaliveTimer := keepaliveTimer c;
     isKeepaliveEnabled := isKeepaliveEnabled c; introListeners := introListeners c;
     errorListener := errorListener c; now := now c; fresh := fresh c; trace := trace c |}.

Definition set_lastSuccessfulOperation (x : Z) (c : client) : client :=
  {| options := options c; socket := socket c; state := state c;
     pendingRequests := pendingRequests c; messageIdCounter := messageIdCounter c;
     buffer := buffer c; reconnectAttempts := reconnectAttempts c;
     lastSuccessfulOperation := x;
     consoleActorCachedAt := consoleActorCachedAt c;
     consecutiveFailures := consecutiveFailures c; keepaliveTimer := keepaliveTimer c;
     isKeepaliveEnabled := isKeepaliveEnabled c; introListeners := introListeners c;
     errorListener := errorListener c; now := now c; fresh := fresh c; trace := trace c |}.

Definition set_consoleActorCachedAt (x : Z) (c : client) : client :=
  {| options := options c; socket := socket c; state := state c;
     pendingRequests := pendingRequests c; messageIdCounter := messageIdCounter c;
     buffer := buffer c; reconnectAttempts := reconnectAttempts c;
     lastSuccessfulOperation := lastSuccessfulOperation c;
     consoleActorCachedAt := x;
     consecutiveFailures := consecutiveFailures c; keepaliveTimer := keepaliveTimer c;
     isKeepaliveEnabled := isKeepaliveEnabled c; introListeners := introListeners c;
     errorListener := errorListener c; now := now c; fresh := fresh c; trace := trace c |}.

Definition set_consecutiveFailures (x : nat) (c : client) : client :=
  {| options := options c; socket := socket c; state := state c;
     pendingRequests := pendingRequests c; messageIdCounter := messageIdCounter c;
     buffer := buffer c; reconnectAttempts := reconnectAttempts c;
     lastSuccessfulOperation := lastSuccessfulOperation c;
     consoleActorCachedAt := consoleActorCachedAt c;
     consecutiveFailures := x; keepaliveTimer := keepaliveTimer c;
     isKeepaliveEnabled := isKeepaliveEnabled c; introListeners := introListeners c;
     errorListener := errorListener c; now := now c; fresh := fresh c; trace := trace c |}.

Definition set_keepaliveTimer (x : bool) (c : client) : client :=
  {| options := options c; socket := socket c; state := state c;
     pendingRequests := pendingRequests c; messageIdCounter := messageIdCounter c;
     buffer := buffer c; reconnectAttempts := reconnectAttempts c;
     lastSuccessfulOperation := lastSuccessfulOperation c;
     consoleActorCachedAt := consoleActorCachedAt c;
     consecutiveFailures := consecutiveFailures c; keepaliveTimer := x;
     isKeepaliveEnabled := isKeepaliveEnabled c; introListeners := introListeners c;
     errorListener := errorListener c; now := now c; fresh := fresh c; trace := trace c |}.

Definition set_isKeepaliveEnabled (x : bool) (c : client) : client :=
  {| options := options c; socket := socket c; state := state c;
     pendingRequests := pendingRequests c; messageIdCounter := messageIdCounter c;
     buffer := buffer c; reconnectAttempts := reconnectAttempts c;
     lastSuccessfulOperation := lastSuccessfulOperation c;
     consoleActorCachedAt := consoleActorCachedAt c;
     consecutiveFailures := consecutiveFailures c; keepaliveTimer := keepaliveTimer c;
     isKeepaliveEnabled := x; introListeners := introListeners c;
     errorListener := errorListener c; now := now c; fresh := fresh c; trace := trace c |}.

Definition set_introListeners (x : list nat) (c : client) : client :=
  {| options := options c; socket := socket c; state := state c;
     pendingRequests := pendingRequests c; messageIdCounter := messageIdCounter c;
     buffer := buffer c; reconnectAttempts := reconnectAttempts c;
     lastSuccessfulOperation := lastSuccessfulOperation c;
     consoleActorCachedAt := consoleActorCachedAt c;
     consecutiveFailures := consecutiveFailures c; keepaliveTimer := keepaliveTimer c;
     isKeepaliveEnabled := isKeepaliveEnabled c; introListeners := x;
     errorListener := errorListener c; now := now c; fresh := fresh c; trace := trace c |}.

Definition set_fresh (x : nat) (c : client) : client :=
  {| options := options c; socket := socket c; state := state c;
     pendingRequests := pendingRequests c; messageIdCounter := messageIdCounter c;
     buffer := buffer c; reconnectAttempts := reconnectAttempts c;
     lastSuccessfulOperation := lastSuccessfulOperation c;
     consoleActorCachedAt := consoleActorCachedAt c;
     consecutiveFailures := consecutiveFailures c; keepaliveTimer := keepaliveTimer c;
     isKeepaliveEnabled := isKeepaliveEnabled c; introListeners := introListeners c;
     errorListener := errorListener c; now := now c; fresh := x; trace := trace c |}.

Definition set_now (x : Z) (c : client) : client :=
  {| options := options c; socket := socket c; state := state c;
     pendingRequests := pendingRequests c; messageIdCounter := messageIdCounter c;
     buffer := buffer c; reconnectAttempts := reconnectAttempts c;
     lastSuccessfulOperation := lastSuccessfulOperation c;
     consoleActorCachedAt := consoleActorCachedAt c;
     consecutiveFailures := consecutiveFailures c; keepaliveTimer := keepaliveTimer c;
     isKeepaliveEnabled := isKeepaliveEnabled c; introListeners := introListeners c;
     errorListener := errorListener c; now := x; fresh := fresh c; trace := trace c |}.

Definition set_trace (x : list effect) (c : client) : client :=
  {| options := options c; socket := socket c; state := state c;
     pendingRequests := pendingRequests c; messageIdCounter := messageIdCounter c;
     buffer := buffer c; reconnectAttempts := reconnectAttempts c;
     lastSuccessfulOperation := lastSuccessfulOperation c;
     consoleActorCachedAt := consoleActorCachedAt c;
     consecutiveFailures := consecutiveFailures c; keepaliveTimer := keepaliveTimer c;
     isKeepaliveEnabled := isKeepaliveEnabled c; introListeners := introListeners c;
     errorListener := errorListener c; now := now c; fresh := fresh c; trace := x |}.

Definition set_connected (x : bool) (c : client) : client :=
  set_state {| connected := x; root := root (state c); currentTab := currentTab (state c);
               consoleActor := consoleActor (state c);
               inspectorActor := inspectorActor (state c) |} c.

Definition set_root (x : option RootActor) (c : client) : client :=
  set_state {| connected := connected (state c); root := x; currentTab := currentTab (state c);
               consoleActor := consoleActor (state c);
               inspectorActor := inspectorActor (state c) |} c.

Definition set_currentTab (x : option TabActor) (c : client) : client :=
  set_state {| connected := connected (state c); root := root (state c); currentTab := x;
               consoleActor := consoleActor (state c);
               inspectorActor := inspectorActor (state c) |} c.

Definition set_consoleActor (x : value) (c : client) : client :=
  set_state {| connected := connected (state c); root := root (state c);
               currentTab := currentTab (state c); consoleActor := x;
               inspectorActor := inspectorActor (state c) |} c.

(** Append one effect to the trace. *)
Definition log (e : effect) (c : client) : client := set_trace (trace c ++ [e]) c.

(** ** Synchronous methods *)

(** The result of a call that may throw. *)
Inductive outcome (A : Type) : Type :=
| Return (a : A)
| Throw (e : jserror).
Arguments Return {A} a.
Arguments Throw {A} e.

Definition TypeError : jserror := Eval cbv in js "TypeError".

Definition NEWLINE : jsstring := [10%N].

(** The text thrown by [sendMessage], [evaluateJS] and [withRetry] when the
    client is not connected. *)
Definition not_connected_message (c : client) : jserror :=
  js "Not connected to Zotero. Ensure:" ++ NEWLINE ++
  js "1. Zotero is running" ++ NEWLINE ++
  js "2. MCP Bridge for Zotero plugin is installed" ++ NEWLINE ++
  js "3. Port " ++ Number_toString (port (options c)) ++ js " is not blocked".

Definition CONNECTION_CLOSED : jserror := Eval cbv in js "Connection closed".

(** [Map.prototype.set] and [delete] on [pendingRequests]: iteration follows
    insertion order, a new key goes last. *)
Fixpoint Map_set {V} (k : nat) (v : V) (m : list (nat * V)) : list (nat * V) :=
  match m with
  | [] => [(k, v)]
  | (k', v') :: r => if Nat.eqb k k' then (k, v) :: r else (k', v') :: Map_set k v r
  end.

Definition Map_delete {V} (k : nat) (m : list (nat * V)) : list (nat * V) :=
  filter (fun e => negb (Nat.eqb k (fst e))) m.

Definition stopKeepalive (c : client) : client :=
  if keepaliveTimer c then set_keepaliveTimer false (log ClearInterval c) else c.

Definition disconnect (c : client) : client :=
  let c1 := stopKeepalive c in
  let c2 := match socket c1 with
            | Some s => set_socket None (log (SocketDestroy (sock_id s)) c1)
            | None => c1
            end in
  let c3 := set_state createConnectionState c2 in
  let c4 := fold_left
              (fun acc req => log (RejectRequest (fst req) CONNECTION_CLOSED)
                                (log (ClearTimeout (fst req)) acc))
              (pendingRequests c3) c3 in
  set_pendingRequests [] c4.

Definition isConnected (c : client) : bool * client :=
  match socket c with
  | None => (false, c)
  | Some s =>
      if negb (connected (state c)) then (false, c)
      else if destroyed s then (false, set_connected false c)
      else if negb (writable s) then (false, set_connected false c)
      else (true, c)
  end.

Definition isActorCacheFresh (c : client) : bool :=
  if negb (truthy (consoleActor (state c))) then false
  else
    let age := now c - consoleActorCachedAt c in
    age <? ACTOR_CACHE_TTL_MS.

Definition shouldCheckHealth (c : client) : bool :=
  let timeSinceLastSuccess := now c - lastSuccessfulOperation c in
  timeSinceLastSuccess >? HEALTH_CHECK_THRESHOLD_MS.

Definition invalidateActorCache (c : client) : client :=
  set_consoleActorCachedAt 0 (set_currentTab None (set_consoleActor VUndefined c)).

Definition startKeepalive (c : client) : client :=
  if keepaliveTimer c || negb (isKeepaliveEnabled c) || (KEEPALIVE_INTERVAL_MS <=? 0) then c
  else set_keepaliveTimer true (log (SetInterval KEEPALIVE_INTERVAL_MS) c).

Definition setKeepaliveEnabled (enabled : bool) (c : client) : client :=
  let c1 := set_isKeepaliveEnabled enabled c in
  if negb enabled then stopKeepalive c1
  else let (up, c2) := isConnected c1 in
       if up then startKeepalive c2 else c2.

(** [this.emit("error", e)]: an EventEmitter with no "error" listener throws
    the error instead. *)
Definition emit_error (e : jserror) (c : client) : outcome unit * client :=
  if errorListener c then (Return tt, log (EmitError e) c) else (Throw e, c).

(** The listener [connect] registers on "message" until the intro packet
    comes; [p] names the promise its [resolve] settles. *)
Definition handleIntro (p : nat) (message : value) (c : client) : outcome unit * client :=
  match has_property (js "applicationType") message with
  | None => (Throw TypeError, c)
  | Some false => (Return tt, c)
  | Some true =>
      let c1 := set_root (Some {| applicationType := get message (js "applicationType");
                                  traits := or_else (get message (js "traits")) (VObj []) |}) c in
      let c2 := set_introListeners
                  (filter (fun q => negb (Nat.eqb p q)) (introListeners c1)) c1 in
      (Return tt, log (ResolveConnect p) c2)
  end.

(** [this.emit("message", message)]: the event goes out, and the
    [handleIntro] listeners registered at that moment run in order. *)
Definition emit_message (message : value) (c : client) : outcome unit * client :=
  fold_left
    (fun acc p => match acc with
                  | (Return _, c') => handleIntro p message c'
                  | thrown => thrown
                  end)
    (introListeners c)
    (Return tt, log (Emit (js "message") [message]) c).

Definition EVENT_TYPES : list jsstring := Eval cbv in
  map js ["frameUpdate"; "tabNavigated"; "newSource"; "tabDetached";
          "workerListChanged"; "documentEvent"; "pageError"; "consoleAPICall";
          "reflowActivity"; "styleSheetsAdded"; "styleSheetsRemoved"]%string.

Definition ACTOR_INVALIDATING_EVENTS : list jsstring := Eval cbv in
  map js ["tabNavigated"; "tabDetached"; "frameUpdate"; "workerListChanged"]%string.

(** [Set.prototype.has]: only a string can be a member of a set of strings. *)
Definition Set_has (s : list jsstring) (v : value) : bool :=
  match v with
  | VStr x => existsb (jsstring_eqb x) s
  | _ => false
  end.

(** [new Error(v)]: the message is the empty string for [undefined], else
    ToString of [v]. *)
Definition Error_new (v : value) : option jserror :=
  match v with
  | VUndefined => Some []
  | _ => ToString v
  end.

Definition K_type : jsstring := Eval cbv in js "type".
Definition K_resultID : jsstring := Eval cbv in js "resultID".
Definition K_result : jsstring := Eval cbv in js "result".
Definition K_error : jsstring := Eval cbv in js "error".
Definition K_message : jsstring := Eval cbv in js "message".
Definition K_from : jsstring := Eval cbv in js "from".

(** The test for an [evaluateJSAsync] acknowledgment; [None] when the [in]
    operator throws. *)
Definition is_acknowledgment (message : value) : option bool :=
  match has_property K_resultID message,
        has_property K_type message,
        has_property K_result message with
  | Some r, Some t, Some res =>
      Some (r && negb t && negb res && (Object_keys_length message <=? 2))
  | _, _, _ => None
  end.

Definition handleMessage (message : value) (c : client) : outcome unit * client :=
  match prop message K_type with
  | None => (Throw TypeError, c)
  | Some messageType =>
      if truthy messageType && Set_has EVENT_TYPES messageType then
        let c1 := if Set_has ACTOR_INVALIDATING_EVENTS messageType
                  then log (Emit (js "actorsInvalidated") [messageType])
                         (invalidateActorCache c)
                  else c in
        emit_message message c1
      else
        match is_acknowledgment message with
        | None => (Throw TypeError, c)
        | Some true => (Return tt, c)
        | Some false =>
            match pendingRequests c with
            | (messageId, pending) :: _ =>
                let c1 := set_pendingRequests (Map_delete messageId (pendingRequests c))
                            (log (ClearTimeout messageId) c) in
                match has_property K_error message with
                | Some true =>
                    match Error_new (or_else (get message K_message) (get message K_error)) with
                    | Some e => (Return tt, log (RejectRequest messageId e) c1)
                    | None => (Throw TypeError, c1)
                    end
                | _ => (Return tt, log (ResolveRequest messageId message) c1)
                end
            | [] => emit_message message c
            end
        end
  end.

(** *** Framing: [handleData] and [processBuffer] *)

(** The [catch] clause of [processBuffer]: whatever was thrown while
    parsing or dispatching, an "error" event is emitted for the frame. *)
Definition catch_frame (messageStr : jsstring) (tried : outcome unit * client)
  : outcome unit * client :=
  match tried with
  | (Return _, c) => (Return tt, c)
  | (Throw _, c) => emit_error (js "Failed to parse RDP message: " ++ messageStr) c
  end.

(** [JSON.parse] is the runtime's, a parameter here; [None] is its
    SyntaxError.  The [while (true)] loop takes fuel: [None] means the fuel
    ran out with the loop still running. *)
Section Framing.

Variable JSON_parse : jsstring -> option value.

Definition COLON : jsstring := [58%N].

(** The [try { JSON.parse; handleMessage } catch { emit("error") }] around
    one extracted frame. *)
Definition dispatch_frame (messageStr : jsstring) (c : client) : outcome unit * client :=
  let tried := match JSON_parse messageStr with
               | Some message => handleMessage message c
               | None => (Throw (js "SyntaxError"), c)
               end in
  catch_frame messageStr tried.

Fixpoint processBuffer (fuel : nat) (c : client) : option (outcome unit * client) :=
  match fuel with
  | O => None
  | S fuel' =>
      let colonIndex := indexOf (buffer c) COLON in
      if colonIndex =? -1 then Some (Return tt, c)
      else
        let lengthStr := slice (buffer c) 0 colonIndex in
        match parseInt lengthStr with
        | None => processBuffer fuel' (set_buffer (slice_from (buffer c) 1) c)
        | Some length =>
            let messageStart := colonIndex + 1 in
            let messageEnd := messageStart + length in
            if len (buffer c) <? messageEnd then Some (Return tt, c)
            else
              let messageStr := slice (buffer c) messageStart messageEnd in
              let c1 := set_buffer (slice_from (buffer c) messageEnd) c in
              match dispatch_frame messageStr c1 with
              | (Return _, c2) => processBuffer fuel' c2
              | (Throw e, c2) => Some (Throw e, c2)
              end
        end
  end.

Definition handleData (fuel : nat) (data : jsstring) (c : client)
  : option (outcome unit * client) :=
  processBuffer fuel (set_buffer (buffer c ++ data) c).

End Framing.

(** *** Socket and timer callbacks *)

(** The callback given to [createConnection]. *)
Definition onConnect (c : client) : client :=
  let c1 := set_connected true c in
  let c2 := set_reconnectAttempts 0 c1 in
  let c3 := set_consecutiveFailures 0 c2 in
  let c4 := set_lastSuccessfulOperation (now c3) c3 in
  let c5 := startKeepalive c4 in
  log (Emit (js "connected") []) c5.

Definition handleError (error : jserror) (initialReject : option nat) (c : client)
  : outcome unit * client :=
  let c1 := set_connected false c in
  match initialReject with
  | Some p =>
      (Return tt,
       log (RejectConnect p
              (js "Cannot connect to Zotero RDP at " ++ host (options c) ++ js ":" ++
               Number_toString (port (options c)) ++
               js ". Ensure Zotero is running with the MCP Bridge for Zotero plugin installed." ++
               NEWLINE ++ js "Original error: " ++ error)) c1)
  | None => emit_error error c1
  end.

(** The socket's "error" listener set up by the [connect] call of promise [p]. *)
Definition onSocketError (p : nat) (err : jserror) (c : client) : outcome unit * client :=
  handleError err (Some p)
    (set_introListeners (filter (fun q => negb (Nat.eqb p q)) (introListeners c)) c).

Definition handleClose (c : client) : client :=
  let wasConnected := connected (state c) in
  let c1 := set_socket None (set_connected false c) in
  if wasConnected then
    let c2 := log (Emit (js "disconnected") []) c1 in
    if reconnectAttempts c2 <? maxReconnectAttempts (options c2) then
      log (ScheduleReconnect (reconnectDelay (options c2)))
        (set_reconnectAttempts (reconnectAttempts c2 + 1) c2)
    else c2
  else c1.

Definition handleTimeout (c : client) : client :=
  disconnect (log (Emit (js "timeout") []) c).

(** The request timer of [sendMessage] firing for the entry [messageId]. *)
Definition onRequestTimeout (messageId : nat) (message : record) (c : client)
  : outcome unit * client :=
  let c1 := set_pendingRequests (Map_delete messageId (pendingRequests c)) c in
  match ToString (get (VObj message) K_type), ToString (get (VObj message) (js "to")) with
  | Some ty, Some to =>
      (Return tt, log (RejectRequest messageId
                         (js "Request timeout for " ++ ty ++ js " to " ++ to)) c1)
  | _, _ => (Throw TypeError, c1)
  end.

(** The callback of [socket.write] reporting a failed write. *)
Definition onWriteError (messageId : nat) (err : jserror) (c : client) : client :=
  log (RejectRequest messageId err)
    (log (ClearTimeout messageId)
       (set_pendingRequests (Map_delete messageId (pendingRequests c)) c)).

(** ** Asynchronous methods

    An [async] method runs on the client until it returns, throws, or
    reaches an [await] on a promise that is not settled yet.  There it
    yields: [Wait w c k] says which promise it waits for, the client as it
    leaves it, and how it resumes once the promise is settled, on the client
    as it is by then (other callbacks may have run in between). *)

Inductive settled : Type :=
| Fulfilled (v : value)
| Rejected (e : jserror).

Inductive awaited : Type :=
| AwaitRequest (id : nat)      (* the promise made by [sendMessage] for msg-id *)
| AwaitDelay (ms : Z)          (* [delay(ms)] *)
| AwaitConnect (p : nat).      (* the promise made by [connect] *)

Inductive step (A : Type) : Type :=
| Done (r : outcome A) (c : client)
| Wait (w : awaited) (c : client) (k : settled -> client -> step A).
Arguments Done {A} r c.
Arguments Wait {A} w c k.

Definition async (A : Type) : Type := client -> step A.

Definition ret {A} (a : A) : async A := fun c => Done (Return a) c.
Definition throw {A} (e : jserror) : async A := fun c => Done (Throw e) c.

Fixpoint bind_step {A B} (s : step A) (f : A -> async B) : step B :=
  match s with
  | Done (Return a) c => f a c
  | Done (Throw e) c => Done (Throw e) c
  | Wait w c k => Wait w c (fun r c' => bind_step (k r c') f)
  end.

Definition bind {A B} (m : async A) (f : A -> async B) : async B :=
  fun c => bind_step (m c) f.

(** [try { m } catch (e) { h e }] *)
Fixpoint catch_step {A} (s : step A) (h : jserror -> async A) : step A :=
  match s with
  | Done (Return a) c => Done (Return a) c
  | Done (Throw e) c => h e c
  | Wait w c k => Wait w c (fun r c' => catch_step (k r c') h)
  end.

Definition try_catch {A} (m : async A) (h : jserror -> async A) : async A :=
  fun c => catch_step (m c) h.

Declare Scope async_scope.
Delimit Scope async_scope with async.
Notation "x <- m ;; k" := (bind m (fun x => k))
  (at level 61, m at next level, right associativity) : async_scope.
Notation "m ;; k" := (bind m (fun _ => k))
  (at level 61, right associativity) : async_scope.
Open Scope async_scope.

Definition modify (f : client -> client) : async unit := fun c => Done (Return tt) (f c).
Definition gets {A} (f : client -> A) : async A := fun c => Done (Return (f c)) c.
Definition call {A} (f : client -> A * client) : async A :=
  fun c => let (a, c') := f c in Done (Return a) c'.

(** A synchronous step that may throw (a property read on [undefined], a
    method call on something that has no such method). *)
Definition of_option {A} (o : option A) : async A :=
  match o with
  | Some a => ret a
  | None => throw TypeError
  end.

(** [await p] on a promise that settles with a value. *)
Definition await (w : awaited) : async value :=
  fun c => Wait w c (fun r c' => match r with
                                 | Fulfilled v => Done (Return v) c'
                                 | Rejected e => Done (Throw e) c'
                                 end).

Definition delay (ms : Z) : async unit := await (AwaitDelay ms) ;; ret tt.

(** *** connect *)

Definition has_socket (c : client) : bool :=
  match socket c with Some _ => true | None => false end.

Definition connect : async unit := fun c =>
  if connected (state c) && has_socket c then Done (Return tt) c
  else
    let p := fresh c in
    let sock := S (fresh c) in
    let c1 := set_fresh (S (S (fresh c))) c in
    let c2 := set_introListeners (introListeners c1 ++ [p]) c1 in
    let c3 := log (CreateConnection sock (host (options c2)) (port (options c2))) c2 in
    let c4 := set_socket (Some {| sock_id := sock; destroyed := false; writable := true |}) c3 in
    (await (AwaitConnect p) ;; ret tt) c4.

(** The timer set by [handleClose] firing: one automatic reconnection
    attempt, whose failure is swallowed. *)
Definition onReconnectTimer : async unit :=
  modify (fun c => log (Emit (js "reconnecting") [VNum (reconnectAttempts c)]) c) ;;
  try_catch connect (fun _ => ret tt).

(** *** sendMessage *)

(** [`${json.length}:${json}`] *)
Definition packet_of (json : jsstring) : jsstring :=
  Number_toString (len json) ++ COLON ++ json.

Definition sendMessage (message : record) : async value := fun c =>
  match socket c with
  | Some sock =>
      if negb (connected (state c)) then Done (Throw (not_connected_message c)) c
      else
        let messageId := S (messageIdCounter c) in
        let c1 := set_messageIdCounter messageId c in
        let c2 := log (SetTimeout messageId (timeout (options c1))) c1 in
        let c3 := set_pendingRequests
                    (Map_set messageId {| request := message |} (pendingRequests c2)) c2 in
        let json := JSON_stringify message in
        let packet := packet_of json in
        let c4 := log (SocketWrite (sock_id sock) packet) c3 in
        await (AwaitRequest messageId) c4
  | None => Done (Throw (not_connected_message c)) c
  end.

Definition K_to : jsstring := Eval cbv in js "to".
Definition ROOT : value := VStr (js "root").

Definition getRoot : async unit :=
  response <- sendMessage [(K_to, ROOT); (K_type, VStr (js "getRoot"))] ;;
  inResponse <- of_option (has_property (js "applicationType") response) ;;
  if inResponse : bool then
    modify (set_root (Some {| applicationType := get response (js "applicationType");
                              traits := or_else (get response (js "traits")) (VObj []) |}))
  else ret tt.

Definition listTabs : async value :=
  response <- sendMessage [(K_to, ROOT); (K_type, VStr (js "listTabs"))] ;;
  tabs <- of_option (prop response (js "tabs")) ;;
  ret (or_else tabs (VArr [])).

Definition listProcesses : async value :=
  response <- sendMessage [(K_to, ROOT); (K_type, VStr (js "listProcesses"))] ;;
  processes <- of_option (prop response (js "processes")) ;;
  ret (or_else processes (VArr [])).

Definition attachToTab (tabActor : value) : async value :=
  sendMessage [(K_to, tabActor); (K_type, VStr (js "attach"))].

Definition K_consoleActor : jsstring := Eval cbv in js "consoleActor".
Definition K_actor : jsstring := Eval cbv in js "actor".

Definition getTarget (actorId : value) : async value :=
  response <- sendMessage [(K_to, actorId); (K_type, VStr (js "getTarget"))] ;;
  frame <- of_option (prop response (js "frame")) ;;
  (if truthy (opt_prop frame K_consoleActor)
   then modify (set_consoleActor (get frame K_consoleActor))
   else ret tt) ;;
  process <- of_option (prop response (js "process")) ;;
  (if truthy (opt_prop process K_consoleActor)
   then modify (fun c =>
          set_currentTab (Some {| actorID := get process K_actor;
                                  title := get process (js "title");
                                  url := get process (js "url");
                                  outerWindowID := get process (js "outerWindowID") |})
            (set_consoleActor (get process K_consoleActor) c))
   else ret tt) ;;
  ret response.

(** *** checkHealth, reconnect *)

Definition checkHealth : async bool :=
  up <- call isConnected ;;
  if negb up then ret false
  else
    try_catch
      (getRoot ;;
       modify (fun c => set_consecutiveFailures 0 (set_lastSuccessfulOperation (now c) c)) ;;
       ret true)
      (fun _ =>
         modify (fun c => set_consecutiveFailures (S (consecutiveFailures c)) c) ;;
         ret false).

Definition reconnect : async unit :=
  modify invalidateActorCache ;;
  modify (set_root None) ;;
  modify (set_consoleActorCachedAt 0) ;;
  modify disconnect ;;
  delay 100 ;;
  connect ;;
  modify (fun c => set_lastSuccessfulOperation (now c) c).

(** *** Resolving the console actor *)

(** [arr.find(pred)]; [None] when [arr] has no [find] or [pred] throws. *)
Fixpoint find_first (pred : value -> option bool) (items : list value) : option value :=
  match items with
  | [] => Some VUndefined
  | x :: r =>
      match pred x with
      | None => None
      | Some true => Some x
      | Some false => find_first pred r
      end
  end.

Definition Array_find (pred : value -> option bool) (arr : value) : option value :=
  match arr with
  | VArr items => find_first pred items
  | _ => None
  end.

Definition ZOTERO_PANE : jsstring :=
  Eval cbv in js "chrome://zotero/content/zoteroPane.xhtml".
Definition ZOTERO : jsstring := Eval cbv in js "Zotero".

(** actors.ts, [findMainWindow] *)
Definition findMainWindow (tabs : value) : option value :=
  match Array_find (fun t => match prop t (js "url") with
                             | Some (VStr u) => Some (startsWith u ZOTERO_PANE)
                             | _ => None
                             end) tabs with
  | None => None
  | Some byUrl =>
      if truthy byUrl then Some byUrl
      else
        match Array_find (fun t => match prop t (js "title") with
                                   | Some (VStr s) => Some (includes s ZOTERO)
                                   | Some (VArr l) => Some (existsb (fun x => is_string x ZOTERO) l)
                                   | _ => None
                                   end) tabs with
        | None => None
        | Some byTitle =>
            if truthy byTitle then Some byTitle
            else Some (match tabs with VArr (first :: _) => first | _ => VUndefined end)
        end
  end.

Definition COULD_NOT_FIND : jserror :=
  js "Could not find Zotero console actor. Ensure:" ++ NEWLINE ++
  js "1. Zotero is running" ++ NEWLINE ++
  js "2. MCP Bridge for Zotero plugin is installed" ++ NEWLINE ++
  js "3. Try restarting Zotero".

(** The two [try] blocks and the last resort of [ensureConsoleActor]; each
    answers whether the method has returned from inside it. *)
Definition viaProcesses : async bool :=
  try_catch
    (processes <- listProcesses ;;
     parentProcess <- of_option
       (Array_find (fun p => option_map truthy (prop p (js "isParent"))) processes) ;;
     if truthy parentProcess then
       target <- getTarget (get parentProcess K_actor) ;;
       process <- of_option (prop target (js "process")) ;;
       if truthy (opt_prop process K_consoleActor) then
         modify (set_consoleActor (get process K_consoleActor)) ;; ret true
       else
         frame <- of_option (prop target (js "frame")) ;;
         if truthy (opt_prop frame K_consoleActor) then
           modify (set_consoleActor (get frame K_consoleActor)) ;; ret true
         else ret false
     else ret false)
    (fun _ => ret false).

Definition viaGetTarget (mainWindow : value) : async bool :=
  try_catch
    (target <- getTarget (get mainWindow K_actor) ;;
     frame <- of_option (prop target (js "frame")) ;;
     process <- of_option (prop target (js "process")) ;;
     ret (truthy (opt_prop frame K_consoleActor) || truthy (opt_prop process K_consoleActor)))
    (fun _ => ret false).

Definition viaAttach (mainWindow : value) : async bool :=
  try_catch
    (attached <- attachToTab (get mainWindow K_actor) ;;
     found <- of_option (has_property K_consoleActor attached) ;;
     if found : bool then
       modify (set_consoleActor (get attached K_consoleActor)) ;; ret true
     else ret false)
    (fun _ => ret false).

Definition ensureConsoleActor : async unit :=
  noRoot <- gets (fun c => match root (state c) with Some _ => false | None => true end) ;;
  (if noRoot : bool then getRoot else ret tt) ;;
  found <- viaProcesses ;;
  if found : bool then ret tt
  else
    tabs <- listTabs ;;
    mainWindow <- of_option (findMainWindow tabs) ;;
    found <- (if truthy mainWindow then
                modify (set_currentTab
                          (Some {| actorID := get mainWindow K_actor;
                                   title := get mainWindow (js "title");
                                   url := get mainWindow (js "url");
                                   outerWindowID := get mainWindow (js "outerWindowID") |})) ;;
                found <- viaGetTarget mainWindow ;;
                if found : bool then ret true else viaAttach mainWindow
              else ret false) ;;
    if found : bool then ret tt
    else
      actor <- gets (fun c => consoleActor (state c)) ;;
      if negb (truthy actor) then throw COULD_NOT_FIND else ret tt.

(** *** evaluateJS *)

Definition maxRetries : nat := 2.

Definition isActorError (errorMessage : jserror) : bool :=
  includes errorMessage (js "No such actor").

Definition isConnectionError (errorMessage : jserror) : bool :=
  includes errorMessage (js "Not connected") ||
  includes errorMessage (js "Connection closed") ||
  includes errorMessage (js "ECONNRESET") ||
  includes errorMessage (js "EPIPE") ||
  includes errorMessage (js "ETIMEDOUT").

(** [Math.min(1000 * Math.pow(2, consecutiveFailures - 1), 5000)], at a
    counter that has just been incremented. *)
Definition backoffMs (consecutiveFailures : nat) : Z :=
  Z.min (1000 * 2 ^ (Z.of_nat consecutiveFailures - 1)) 5000.

Definition evaluate_request (actor : value) (code : jsstring) : record :=
  [(K_to, actor); (K_type, VStr (js "evaluateJSAsync")); (js "text", VStr code);
   (js "mapped", VObj [(js "await", VBool true)])].

(** The [catch] block of [evaluateJS]; [self] is the recursive call
    [this.evaluateJS(code, retryCount + 1)]. *)
Definition evaluateJS_catch (self : async value) (retryCount : nat) (errorMessage : jserror)
  : async value :=
  modify (fun c => set_consecutiveFailures (S (consecutiveFailures c)) c) ;;
  if isActorError errorMessage && (retryCount <? maxRetries)%nat then
    modify invalidateActorCache ;;
    delay (100 * (Z.of_nat retryCount + 1)) ;;
    self
  else if isConnectionError errorMessage && (retryCount <? maxRetries)%nat then
    failures <- gets consecutiveFailures ;;
    delay (backoffMs failures) ;;
    reconnect ;;
    self
  else throw errorMessage.

(** [evaluateJS] from its freshness check on: the cache is cleared when it
    is stale, the console actor resolved when there is none, and the
    evaluation request sent. *)
Definition evaluateJS_cached (self : async value) (code : jsstring) (retryCount : nat)
  : async value :=
  isFresh <- gets isActorCacheFresh ;;
  (if negb isFresh then modify invalidateActorCache else ret tt) ;;
  actor <- gets (fun c => consoleActor (state c)) ;;
  (if negb (truthy actor) then
     ensureConsoleActor ;;
     modify (fun c => set_consoleActorCachedAt (now c) c)
   else ret tt) ;;
  actor <- gets (fun c => consoleActor (state c)) ;;
  if negb (truthy actor) then
    throw (js "No console actor available. Cannot execute JavaScript.")
  else
    try_catch
      (response <- sendMessage (evaluate_request actor code) ;;
       modify (fun c => set_consecutiveFailures 0
                          (set_lastSuccessfulOperation (now c) c)) ;;
       ret response)
      (evaluateJS_catch self retryCount).

(** The body of [evaluateJS(code, retryCount)]: the connection check and
    the health check, then the rest. *)
Definition evaluateJS_body (self : async value) (code : jsstring) (retryCount : nat)
  : async value :=
  up <- call isConnected ;;
  if negb up then
    if (retryCount <? maxRetries)%nat then reconnect ;; self
    else fun c => Done (Throw (not_connected_message c)) c
  else
    stale <- gets shouldCheckHealth ;;
    early <- (if (retryCount =? 0)%nat && stale then
                healthy <- checkHealth ;;
                if negb healthy then reconnect ;; r <- self ;; ret (Some r)
                else ret None
              else ret None) ;;
    match early with
    | Some r => ret r
    | None => evaluateJS_cached self code retryCount
    end.

(** The recursion is on the retries left: a call with [retryCount =
    maxRetries] makes no further call, so the placeholder below it is never
    run (lemma [evaluateJS_last_attempt]). *)
Fixpoint evaluateJS_from (left : nat) (code : jsstring) (retryCount : nat) : async value :=
  evaluateJS_body
    (match left with
     | O => throw (js "unreachable")
     | S left' => evaluateJS_from left' code (S retryCount)
     end) code retryCount.

Definition evaluateJS (code : jsstring) (retryCount : nat) : async value :=
  evaluateJS_from (maxRetries - retryCount) code retryCount.

Definition getCachedMessages (types : value) : async value :=
  actor <- gets (fun c => consoleActor (state c)) ;;
  (if negb (truthy actor) then ensureConsoleActor else ret tt) ;;
  actor <- gets (fun c => consoleActor (state c)) ;;
  if negb (truthy actor) then throw (js "No console actor available")
  else sendMessage [(K_to, actor); (K_type, VStr (js "getCachedMessages"));
                    (js "messageTypes", types)].

(** The interval callback installed by [startKeepalive]. *)
Definition keepaliveTick : async unit :=
  up <- call isConnected ;;
  if negb up then ret tt
  else
    due <- gets shouldCheckHealth ;;
    if negb due then ret tt
    else
      healthy <- checkHealth ;;
      if negb healthy then
        modify (log (Emit (js "keepaliveFailed") [])) ;;
        try_catch
          (reconnect ;; modify (log (Emit (js "keepaliveReconnected") [])))
          (fun _ => ret tt)
      else ret tt.

(** *** withRetry *)

Section WithRetry.

Context {T : Type}.
Variable operation : async T.
Variable maxRetries_ : Z.
Variable shouldInvalidateActors : bool.
Variable operationName : jsstring.

(** [throw lastError || new Error(...)] *)
Definition throw_last (lastError : option jserror) : async T :=
  match lastError with
  | Some e => throw e
  | None => throw (operationName ++ js " failed after " ++
                   Number_toString (maxRetries_ + 1) ++ js " attempts")
  end.

(** The [for] loop from [attempt] on; [n] bounds the iterations left. *)
Fixpoint withRetry_loop (n : nat) (attempt : Z) (lastError : option jserror) : async T :=
  match n with
  | O => throw_last lastError
  | S n' =>
      if attempt <=? maxRetries_ then
        tried <- try_catch
                   (up <- call isConnected ;;
                    (if negb up then
                       if attempt <? maxRetries_ then reconnect
                       else fun c => Done (Throw (not_connected_message c)) c
                     else ret tt) ;;
                    result <- operation ;;
                    modify (fun c => set_consecutiveFailures 0
                                       (set_lastSuccessfulOperation (now c) c)) ;;
                    ret (inl result))
                   (fun error => ret (inr error)) ;;
        match tried with
        | inl result => ret result
        | inr errorMessage =>
            modify (fun c => set_consecutiveFailures (S (consecutiveFailures c)) c) ;;
            if attempt >=? maxRetries_ then throw_last (Some errorMessage)
            else if isActorError errorMessage || shouldInvalidateActors then
              modify invalidateActorCache ;;
              delay (100 * (attempt + 1)) ;;
              withRetry_loop n' (attempt + 1) (Some errorMessage)
            else if isConnectionError errorMessage then
              failures <- gets consecutiveFailures ;;
              delay (backoffMs failures) ;;
              reconnect ;;
              withRetry_loop n' (attempt + 1) (Some errorMessage)
            else throw_last (Some errorMessage)
        end
      else throw_last lastError
  end.

Definition withRetry : async T :=
  withRetry_loop (Z.to_nat (maxRetries_ + 1)) 0 None.

End WithRetry.

(** ** Grips *)

(** [a >= b] where it needs no string-to-number conversion: numbers, [null]
    and booleans compare as numbers, [undefined] compares false with
    everything, a symbol throws.  [None]: the comparison converts a string,
    an array or an object, which this development gives no meaning to. *)
Definition as_number (v : value) : option Z :=
  match v with
  | VNum n => Some n
  | VNull => Some 0
  | VBool b => Some (if b then 1 else 0)
  | _ => None
  end.

Definition is_symbol (v : value) : bool :=
  match v with VSymbol _ => true | _ => false end.

Definition is_undefined (v : value) : bool :=
  match v with VUndefined => true | _ => false end.

Definition js_ge (a b : value) : option (outcome bool) :=
  match as_number a, as_number b with
  | Some x, Some y => Some (Return (x >=? y))
  | _, _ =>
      if is_symbol a || is_symbol b then Some (Throw TypeError)
      else if is_undefined a || is_undefined b then Some (Return false)
      else None
  end.

(** Sequencing for results that may also be undefined by the model. *)
Definition and_then {A B} (r : option (outcome A)) (f : A -> option (outcome B))
  : option (outcome B) :=
  match r with
  | None => None
  | Some (Throw e) => Some (Throw e)
  | Some (Return x) => f x
  end.

Definition returns {A} (x : A) : option (outcome A) := Some (Return x).
Definition raises {A} (e : jserror) : option (outcome A) := Some (Throw e).

(** [Object.entries(v)] *)
Definition index_entries (l : list value) : record :=
  combine (map (fun i => Number_toString (Z.of_nat i)) (seq 0 (List.length l))) l.

Definition Object_entries (v : value) : record :=
  match v with
  | VObj fields => fields
  | VArr items => index_entries items
  | VStr s => index_entries (map (fun ch => VStr [ch]) s)
  | _ => []
  end.

Definition PROTO : jsstring := Eval cbv in js "__proto__".

(** Nesting depth, the measure [gripToValue] recurses on. *)
Fixpoint depth (v : value) : nat :=
  match v with
  | VArr items => S (fold_right (fun x d => Nat.max (depth x) d) O items)
  | VObj fields => S (fold_right (fun kv d => Nat.max (depth (snd kv)) d) O fields)
  | _ => O
  end.

(** [RDPClient.gripToValue].  The outer [option] is [None] when a comparison
    leaves the modelled fragment ([js_ge]); the fuel only has to cover the
    nesting of the grip, whose parts are all the recursion visits. *)
Fixpoint gripToValue_at (fuel : nat) (grip : value) : option (outcome value) :=
  match fuel with
  | O => None
  | S fuel' =>
      match grip with
      | VUndefined | VNull => returns grip
      | VBool _ | VNum _ | VStr _ | VSymbol _ => returns grip
      | VArr _ => returns grip
      | VObj fields =>
          if has_field K_type fields && is_string (get grip K_type) (js "longString") then
            let initial := get grip (js "initial") in
            if truthy initial then
              and_then (js_ge (get initial (js "length")) (get grip (js "length")))
                (fun covers => if covers : bool then returns initial else returns grip)
            else returns grip
          else if has_field K_type fields && is_string (get grip K_type) (js "object") then
            let preview := get grip (js "preview") in
            let items := opt_prop preview (js "items") in
            let placeholder :=
              match ToString (get grip (js "class")) with
              | Some cls => returns (VStr (js "[" ++ cls ++ js "]"))
              | None => raises TypeError
              end in
            if is_string (get grip (js "class")) (js "Array") && truthy items then
              match items with
              | VArr l =>
                  and_then
                    ((fix each (l : list value) : option (outcome (list value)) :=
                        match l with
                        | [] => returns []
                        | item :: r =>
                            and_then (gripToValue_at fuel' item) (fun x =>
                            and_then (each r) (fun xs => returns (x :: xs)))
                        end) l)
                    (fun xs => returns (VArr xs))
              | _ => raises TypeError
              end
            else if truthy preview then
              match has_property (js "ownProperties") preview with
              | None => raises TypeError
              | Some false => placeholder
              | Some true =>
                  let ownProperties := get preview (js "ownProperties") in
                  if truthy ownProperties then
                    and_then
                      ((fix each (l : record) : option (outcome record) :=
                          match l with
                          | [] => returns []
                          | (key, prop_) :: r =>
                              match prop prop_ (js "value") with
                              | None => raises TypeError
                              | Some v =>
                                  and_then (gripToValue_at fuel' v) (fun x =>
                                  and_then (each r) (fun xs =>
                                  returns (if jsstring_eqb key PROTO then xs
                                           else (key, x) :: xs)))
                              end
                          end) (Object_entries ownProperties))
                      (fun xs => returns (VObj xs))
                  else placeholder
              end
            else placeholder
          else if has_field K_type fields && is_string (get grip K_type) (js "symbol") then
            match ToString (get grip (js "name")) with
            | Some name => returns (VSymbol name)
            | None => raises TypeError
            end
          else returns grip
      end
  end.

Definition gripToValue (grip : value) : option (outcome value) :=
  gripToValue_at (S (depth grip)) grip.

Definition isLongString (v : value) : bool :=
  match v with
  | VObj fields =>
      has_field K_type fields && is_string (get v K_type) (js "longString") &&
      has_field K_actor fields
  | _ => false
  end.

Definition fetchLongString (actor length : value) : async value :=
  response <- sendMessage [(K_to, actor); (K_type, VStr (js "substring"));
                           (js "start", VNum 0); (js "end", length)] ;;
  of_option (prop response (js "substring")).

Definition gripToValueAsync (grip : value) : option (async value) :=
  match gripToValue grip with
  | None => None
  | Some (Throw e) => Some (throw e)
  | Some (Return syncValue) =>
      Some (if isLongString syncValue
            then fetchLongString (get syncValue K_actor) (get syncValue (js "length"))
            else ret syncValue)
  end.

(** ** Making and sharing the client *)

(** [Partial<RDPClientOptions>]: each property is absent ([None]) or holds
    a value of its declared type. *)
Record PartialOptions := {
  host_opt : option jsstring;
  port_opt : option Z;
  reconnectDelay_opt : option Z;
  maxReconnectAttempts_opt : option Z;
  timeout_opt : option Z
}.

Definition no_options : PartialOptions :=
  {| host_opt := None; port_opt := None; reconnectDelay_opt := None;
     maxReconnectAttempts_opt := None; timeout_opt := None |}.

(** [a || b] for a string that may be undefined, and for a number that may
    be undefined or NaN. *)
Definition string_or (a : option jsstring) (b : jsstring) : jsstring :=
  match a with
  | Some (ch :: s) => ch :: s
  | _ => b
  end.

Definition number_or (a : option Z) (b : Z) : Z :=
  match a with
  | Some n => if n =? 0 then b else n
  | None => b
  end.

(** [{ ...a, ...b }]: a property present in [b] replaces the one of [a]. *)
Definition later_wins {X} (x y : option X) : option X :=
  match y with
  | Some _ => y
  | None => x
  end.

Definition spread (a b : PartialOptions) : PartialOptions :=
  {| host_opt := later_wins (host_opt a) (host_opt b);
     port_opt := later_wins (port_opt a) (port_opt b);
     reconnectDelay_opt := later_wins (reconnectDelay_opt a) (reconnectDelay_opt b);
     maxReconnectAttempts_opt :=
       later_wins (maxReconnectAttempts_opt a) (maxReconnectAttempts_opt b);
     timeout_opt := later_wins (timeout_opt a) (timeout_opt b) |}.

(** The constructor, from partial options: [{ ...DEFAULT_OPTIONS, ...options }]. *)
Definition over_default {X} (d : X) (y : option X) : X :=
  match y with
  | Some v => v
  | None => d
  end.

Definition RDPClient_new (o : PartialOptions) : client :=
  new_client
    {| host := over_default (host DEFAULT_OPTIONS) (host_opt o);
       port := over_default (port DEFAULT_OPTIONS) (port_opt o);
       reconnectDelay := over_default (reconnectDelay DEFAULT_OPTIONS) (reconnectDelay_opt o);
       maxReconnectAttempts :=
         over_default (maxReconnectAttempts DEFAULT_OPTIONS) (maxReconnectAttempts_opt o);
       timeout := over_default (timeout DEFAULT_OPTIONS) (timeout_opt o) |}.

(** [createClient(options)]; [env_host] and [env_port] are the environment
    variables ZOTERO_RDP_HOST and ZOTERO_RDP_PORT. *)
Definition createClient (env_host env_port : option jsstring) (options : option PartialOptions)
  : client :=
  let given := match options with Some o => o | None => no_options end in
  RDPClient_new
    (spread
       {| host_opt := Some (string_or env_host
                              (string_or (host_opt given) (host DEFAULT_OPTIONS)));
          port_opt := Some (number_or (parseInt (string_or env_port []))
                              (number_or (port_opt given) (port DEFAULT_OPTIONS)));
          reconnectDelay_opt := None; maxReconnectAttempts_opt := None;
          timeout_opt := None |}
       given).

(** index.ts, [getRdpClient]: the shared client is made on first use from
    the loaded configuration, and connected when [isConnected()] says it is
    not.  The step ends on the shared client. *)
Definition getRdpClient (env_host env_port : option jsstring) (config_host : jsstring)
           (config_port : Z) (rdpClient : option client) : step unit :=
  let c := match rdpClient with
           | Some c => c
           | None => createClient env_host env_port
                       (Some {| host_opt := Some config_host; port_opt := Some config_port;
                                reconnectDelay_opt := None;
                                maxReconnectAttempts_opt := None; timeout_opt := None |})
           end in
  (up <- call isConnected ;; if negb up then connect else ret tt) c.

(** tools/execute.ts, [hasTruncatedValues] *)
Definition QUOTED_ARRAY : jsstring := Eval cbv in 34%N :: js "[Array]" ++ [34%N].
Definition QUOTED_OBJECT : jsstring := Eval cbv in 34%N :: js "[Object]" ++ [34%N].

Fixpoint hasTruncatedValues (v : value) : bool :=
  match v with
  | VStr s =>
      jsstring_eqb s (js "[Array]") || jsstring_eqb s (js "[Object]") ||
      includes s QUOTED_ARRAY || includes s QUOTED_OBJECT
  | VArr items => existsb hasTruncatedValues items
  | VObj fields => existsb (fun kv => hasTruncatedValues (snd kv)) fields
  | _ => false
  end.

End Rdp.


(** * Observations on sessions, used to state the theorems below *)

Module Obs.
Import JS Rdp.

(** The client an [async] call leaves behind when it yields or finishes. *)
Definition after {A} (s : step A) : client :=
  match s with
  | Done _ c => c
  | Wait _ c _ => c
  end.

(** What it waits for, if it has yielded. *)
Definition awaiting {A} (s : step A) : option awaited :=
  match s with
  | Done _ _ => None
  | Wait w _ _ => Some w
  end.

(** The effects of [disconnect()]: the keepalive interval is cleared, the
    socket destroyed, and every pending request, oldest first, has its timer
    cleared and its promise rejected with "Connection closed". *)
Definition teardown_effects (c : client) : list effect :=
  (if keepaliveTimer c then [ClearInterval] else []) ++
  match socket c with Some s => [SocketDestroy (sock_id s)] | None => [] end ++
  flat_map (fun req => [ClearTimeout (fst req); RejectRequest (fst req) CONNECTION_CLOSED])
    (pendingRequests c).

(** The requests an effect list rejects, with the error. *)
Definition rejections (t : list effect) : list (nat * jserror) :=
  flat_map (fun e => match e with RejectRequest id err => [(id, err)] | _ => [] end) t.

Definition opens_socket (e : effect) : bool :=
  match e with CreateConnection _ _ _ => true | _ => false end.

(** The client right after the synchronous part of [sendMessage(message)]
    on a connected client with socket [sock]: the counter is advanced, the
    timer armed, the entry appended to [pendingRequests], the packet
    written. *)
Definition sent (message : record) (sock : Socket) (c : client) : client :=
  let messageId := S (messageIdCounter c) in
  log (SocketWrite (sock_id sock) (packet_of (JSON_stringify message)))
    (set_pendingRequests
       (Map_set messageId {| request := message |} (pendingRequests c))
       (log (SetTimeout messageId (timeout (options c)))
          (set_messageIdCounter messageId c))).

(** A message of the event vocabulary. *)
Definition is_event (m : value) : bool :=
  truthy (get m K_type) && Set_has EVENT_TYPES (get m K_type).

(** Values [JSON.parse] can produce: no [undefined], no symbol. *)
Fixpoint is_json (v : value) : bool :=
  match v with
  | VUndefined | VSymbol _ => false
  | VNull | VBool _ | VNum _ | VStr _ => true
  | VArr items => forallb is_json items
  | VObj fields => forallb (fun kv => is_json (snd kv)) fields
  end.

(** A frame that dispatch treats as a response: a parsed JSON object that
    is neither an event nor an acknowledgment. *)
Definition response_frame (m : value) : Prop :=
  (exists fields, m = VObj fields) /\ is_json m = true /\
  is_event m = false /\ is_acknowledgment m = Some false.

(** The text of the error a response with an [error] field rejects with:
    [new Error(message.message || message.error)]; [None] when the
    constructor throws, its argument having no string conversion. *)
Definition error_text (m : value) : option jserror :=
  Error_new (or_else (get m K_message) (get m K_error)).

(** How a response settles the request it is attributed to; [None] when
    the error cannot be built, and the request is settled by nothing. *)
Definition settlement (id : nat) (m : value) : option effect :=
  match has_property K_error m with
  | Some true => option_map (RejectRequest id) (error_text m)
  | _ => Some (ResolveRequest id m)
  end.

(** The end of a dispatch that has taken request [id] off the map ([c1]):
    the request is settled, or the TypeError of the error constructor
    leaves [handleMessage]. *)
Definition respond (id : nat) (m : value) (c1 : client) : outcome unit * client :=
  match settlement id m with
  | Some e => (Return tt, log e c1)
  | None => (Throw TypeError, c1)
  end.

(** The delays the specification lists for 1, 2, 3 and 4 consecutive
    failures, and the cap from there on. *)
Definition backoff_table (failures : nat) : Z :=
  match failures with
  | 1%nat => 1000
  | 2%nat => 2000
  | 3%nat => 4000
  | _ => 5000
  end.

(** The settling effect of a response, if it has one. *)
Definition settled_by (id : nat) (m : value) : list effect :=
  match settlement id m with
  | Some e => [e]
  | None => []
  end.

(** The value a run of decimal digits accumulates to, one digit at a time. *)
Definition digit_step (a : Z) (ch : code_unit) : Z := 10 * a + Z.of_N (ch - 48).

(** The root query, sent by [getRoot]. *)
Definition getRoot_request : record := [(K_to, ROOT); (K_type, VStr (js "getRoot"))].

(** The first request of [ensureConsoleActor]: [getRoot] when the root is
    not known, else the process listing. *)
Definition discovery_request (c : client) : record :=
  match root (state c) with
  | None => getRoot_request
  | Some _ => [(K_to, ROOT); (K_type, VStr (js "listProcesses"))]
  end.



(** A long-string grip: tagged [longString], with a string [initial] and a
    numeric [length]. *)
Definition is_long_string (fields : record) (initial : jsstring) (length : Z) : Prop :=
  lookup K_type fields = Some (VStr (js "longString")) /\
  lookup (js "initial") fields = Some (VStr initial) /\
  lookup (js "length") fields = Some (VNum length).

(** The request [fetchLongString] sends. *)
Definition substring_request (actor length : value) : record :=
  [(K_to, actor); (K_type, VStr (js "substring")); (js "start", VNum 0); (js "end", length)].

(** Whether an effect settles the promise an [async] call waits for. *)
Definition settles (w : awaited) (e : effect) : option settled :=
  match w, e with
  | AwaitRequest id, ResolveRequest i v => if Nat.eqb i id then Some (Fulfilled v) else None
  | AwaitRequest id, RejectRequest i err => if Nat.eqb i id then Some (Rejected err) else None
  | AwaitConnect p, ResolveConnect q => if Nat.eqb q p then Some (Fulfilled VUndefined) else None
  | AwaitConnect p, RejectConnect q err => if Nat.eqb q p then Some (Rejected err) else None
  | _, _ => None
  end.

(** A promise is settled by the first effect that settles it. *)
Fixpoint first_settlement (w : awaited) (t : list effect) : option settled :=
  match t with
  | [] => None
  | e :: r => match settles w e with
              | Some x => Some x
              | None => first_settlement w r
              end
  end.

(** A callback [f] of the client runs while an [async] call waits: the call
    resumes if the callback has settled the promise it waits for. *)
Definition react {A} (f : client -> client) (s : step A) : step A :=
  match s with
  | Wait w c k =>
      let c' := f c in
      match first_settlement w (skipn (List.length (trace c)) (trace c')) with
      | Some r => k r c'
      | None => Wait w c' k
      end
  | Done r c => Done r (f c)
  end.

(** A frame arrives and is dispatched. *)
Definition deliver {A} (frame : value) (s : step A) : step A :=
  react (fun c => snd (handleMessage frame c)) s.

(** The timer of a [delay] fires, the clock having advanced by its length. *)
Definition elapse {A} (s : step A) : step A :=
  match s with
  | Wait (AwaitDelay ms) c k => k (Fulfilled VUndefined) (set_now (now c + ms) c)
  | _ => s
  end.

(** The value an [async] call has returned, if it has. *)
Definition returned {A} (s : step A) : option A :=
  match s with
  | Done (Return a) _ => Some a
  | _ => None
  end.

(** A code unit that cannot begin a length prefix nor end one: no white
    space, no sign, no digit, not the colon. *)
Definition junk (ch : code_unit) : bool :=
  negb (isWhiteSpace ch) && negb (ch =? 45)%N && negb (ch =? 43)%N &&
  negb ((48 <=? ch)%N && (ch <=? 57)%N) && negb (ch =? 58)%N.

(** The text of the "error" event for a frame that could not be handled. *)
Definition parse_failure (messageStr : jsstring) : jserror :=
  js "Failed to parse RDP message: " ++ messageStr.

(** The keys of [pendingRequests] in iteration order. *)
Definition pending_ids (c : client) : list nat := map fst (pendingRequests c).

(** Strictly increasing, above [lo]. *)
Fixpoint increasing_from (lo : nat) (ids : list nat) : bool :=
  match ids with
  | [] => true
  | i :: r => (lo <? i)%nat && increasing_from i r
  end.

(** The pending requests are in the order of their ids, none of which is
    beyond the counter. *)
Definition pending_in_order (c : client) : Prop :=
  increasing_from 0 (pending_ids c) = true /\
  Forall (fun i => (i <= messageIdCounter c)%nat) (pending_ids c).

(** The keepalive intervals armed and not cleared, counted on the effects. *)
Fixpoint armed (t : list effect) : Z :=
  match t with
  | [] => 0
  | SetInterval _ :: r => armed r + 1
  | ClearInterval :: r => armed r - 1
  | _ :: r => armed r
  end.

(** The interval counted by the client's own flag. *)
Definition keepalive_count (c : client) : Z := if keepaliveTimer c then 1 else 0.

(** Effects that settle a request. *)
Definition settles_request (e : effect) : bool :=
  match e with
  | ResolveRequest _ _ | RejectRequest _ _ => true
  | _ => false
  end.

(** The text [connect()] rejects with when the socket reports [err]. *)
Definition cannot_connect (c : client) (err : jserror) : jserror :=
  js "Cannot connect to Zotero RDP at " ++ host (options c) ++ js ":" ++
  Number_toString (port (options c)) ++
  js ". Ensure Zotero is running with the MCP Bridge for Zotero plugin installed." ++
  NEWLINE ++ js "Original error: " ++ err.

(** The text of a request timeout. *)
Definition request_timeout (ty to : jsstring) : jserror :=
  js "Request timeout for " ++ ty ++ js " to " ++ to.

(** A live connection: flag set, socket present, neither destroyed nor
    closed for writing. *)
Definition live (c : client) (sock : Socket) : Prop :=
  socket c = Some sock /\ connected (state c) = true /\
  destroyed sock = false /\ writable sock = true.

(** Decoding every element of a list, left to right, stopping at the first
    that throws. *)
Fixpoint decode_all (decode : value -> option (outcome value)) (l : list value)
  : option (outcome (list value)) :=
  match l with
  | [] => returns []
  | item :: r =>
      and_then (decode item) (fun x =>
      and_then (decode_all decode r) (fun xs => returns (x :: xs)))
  end.

(** A grip of type [object] and the given class. *)
Definition is_object_grip (fields : record) (cls : jsstring) : Prop :=
  lookup K_type fields = Some (VStr (js "object")) /\
  lookup (js "class") fields = Some (VStr cls).

(** A tab descriptor as the server sends it: an object whose [url] and
    [title] are strings. *)
Definition is_tab (t : value) : bool :=
  match t with
  | VObj fields =>
      match lookup (js "url") fields, lookup (js "title") fields with
      | Some (VStr _), Some (VStr _) => true
      | _, _ => false
      end
  | _ => false
  end.

Definition tab_url (t : value) : jsstring :=
  match get t (js "url") with VStr u => u | _ => [] end.

Definition tab_title (t : value) : jsstring :=
  match get t (js "title") with VStr s => s | _ => [] end.

Definition is_pane (t : value) : bool := startsWith (tab_url t) ZOTERO_PANE.
Definition is_titled (t : value) : bool := includes (tab_title t) ZOTERO.

(** The choice [findMainWindow] documents: the first tab on the pane URL,
    else the first whose title mentions Zotero, else the first tab. *)
Definition preferred_tab (tabs : list value) : value :=
  match find is_pane tabs with
  | Some t => t
  | None =>
      match find is_titled tabs with
      | Some t => t
      | None => match tabs with t :: _ => t | [] => VUndefined end
      end
  end.

(** The connection side of a client: options, socket, flag, pending
    requests, counters and clock. *)
Definition same_connection (c c' : client) : Prop :=
  options c' = options c /\ socket c' = socket c /\
  connected (state c') = connected (state c) /\
  pendingRequests c' = pendingRequests c /\
  messageIdCounter c' = messageIdCounter c /\
  lastSuccessfulOperation c' = lastSuccessfulOperation c /\
  consecutiveFailures c' = consecutiveFailures c /\
  keepaliveTimer c' = keepaliveTimer c /\
  now c' = now c /\
  reconnectAttempts c' = reconnectAttempts c.

(** What emitting a message leaves alone: the connection side and the
    cached actors (everything but the root, the intro listeners and the
    trace). *)
Definition same_session (c c' : client) : Prop :=
  same_connection c c' /\
  currentTab (state c') = currentTab (state c) /\
  consoleActor (state c') = consoleActor (state c) /\
  consoleActorCachedAt c' = consoleActorCachedAt c.

(** The root an intro packet or a root answer gives. *)
Definition root_of (message : value) : RootActor :=
  {| applicationType := get message (js "applicationType");
     traits := or_else (get message (js "traits")) (VObj []) |}.

(** The byte stream of a sequence of JSON texts: their packets, one after
    the other. *)
Definition stream (texts : list jsstring) : jsstring := List.concat (map packet_of texts).

(** Dispatching the frames of a stream in order, up to the first one whose
    dispatch throws; [tail] is what follows the stream in the buffer. *)
Fixpoint dispatch_all (JSON_parse : jsstring -> option value) (texts : list jsstring)
         (tail : jsstring) (c : client) : outcome unit * client :=
  match texts with
  | [] => (Return tt, set_buffer tail c)
  | t :: r =>
      match dispatch_frame JSON_parse t (set_buffer (stream r ++ tail) c) with
      | (Return _, c2) => dispatch_all JSON_parse r tail c2
      | (Throw e, c2) => (Throw e, c2)
      end
  end.

(** A proper prefix of a packet (the empty string included). *)
Definition partial_packet (tail : jsstring) : Prop :=
  exists json more, tail ++ more = packet_of json /\ more <> [].

(** The result of a dispatch, with the receive buffer set to [x]. *)
Definition with_buffer (x : jsstring) (r : outcome unit * client) : outcome unit * client :=
  (fst r, set_buffer x (snd r)).

(** The socket [connect()] opens on client [c], and the client it waits
    on: two fresh names are taken, the intro listener is registered, the
    socket is created and stored. *)
Definition new_socket (c : client) : Socket :=
  {| sock_id := S (fresh c); destroyed := false; writable := true |}.

Definition connecting (c : client) : client :=
  set_socket (Some (new_socket c))
    (log (CreateConnection (S (fresh c)) (host (options c)) (port (options c)))
       (set_introListeners (introListeners c ++ [fresh c])
          (set_fresh (S (S (fresh c))) c))).

(** Decoding the property descriptors of an object preview: the [value] of
    each one, [__proto__] left out. *)
Fixpoint decode_properties (decode : value -> option (outcome value)) (l : record)
  : option (outcome record) :=
  match l with
  | [] => returns []
  | (key, descriptor) :: r =>
      match prop descriptor (js "value") with
      | None => raises TypeError
      | Some v =>
          and_then (decode v) (fun x =>
          and_then (decode_properties decode r) (fun xs =>
          returns (if jsstring_eqb key PROTO then xs else (key, x) :: xs)))
      end
  end.

Definition listProcesses_request : record := [(K_to, ROOT); (K_type, VStr (js "listProcesses"))].
Definition listTabs_request : record := [(K_to, ROOT); (K_type, VStr (js "listTabs"))].
Definition getTarget_request (actor : value) : record :=
  [(K_to, actor); (K_type, VStr (js "getTarget"))].

(** The test [ensureConsoleActor] finds the parent process with. *)
Definition is_parent (p : value) : option bool := option_map truthy (prop p (js "isParent")).

(** The tab listing is asked for, and when it comes back empty the call
    ends: well if a console actor is known by then, else with the
    could-not-find error. *)
Definition falls_back_to_tabs (s : step unit) (c : client) (sock : Socket) : Prop :=
  exists k,
    s = Wait (AwaitRequest (S (messageIdCounter c))) (sent listTabs_request sock c) k /\
    forall (fields : record) (c' : client),
      get (VObj fields) (js "tabs") = VArr [] \/ truthy (get (VObj fields) (js "tabs")) = false ->
      k (Fulfilled (VObj fields)) c' =
        Done (if truthy (consoleActor (state c')) then Return tt else Throw COULD_NOT_FIND) c'.

End Obs.

(** * Sample sessions, used to instantiate the theorems below *)

Module Sample.
Import JS Rdp.

Definition sock : Socket := {| sock_id := 1; destroyed := false; writable := true |}.

(** A client after [connect()] and the intro packet. *)
Definition ready : client :=
  set_root (Some {| applicationType := VStr (js "browser"); traits := VObj [] |})
    (set_connected true (set_socket (Some sock) (set_fresh 2 (new_client DEFAULT_OPTIONS)))).

(** The acknowledgment of an [evaluateJSAsync] request. *)
Definition ack : record :=
  [(js "resultID", VStr (js "1700000000-0")); (js "from", VStr (js "server1.conn0.console9"))].

(** Three requests and three answers, the second one an error. *)
Definition request1 : record := [(js "to", VStr (js "root")); (js "type", VStr (js "getRoot"))].
Definition request2 : record := [(js "to", VStr (js "root")); (js "type", VStr (js "listTabs"))].
Definition request3 : record := [(js "to", VStr (js "root")); (js "type", VStr (js "listProcesses"))].
Definition answer1 : value :=
  VObj [(js "from", VStr (js "root")); (js "applicationType", VStr (js "browser"))].
Definition answer2 : value :=
  VObj [(js "from", VStr (js "root")); (js "error", VStr (js "unknownError"));
        (js "message", VStr (js "No such actor"))].
Definition answer3 : value :=
  VObj [(js "from", VStr (js "root")); (js "processes", VArr [])].

(** An error response whose [error] is an object with a [toString] key. *)
Definition odd_error : record :=
  [(js "from", VStr (js "root")); (js "error", VObj [(js "toString", VNum 1)])].

(** A client with an "error" listener whose buffer holds a frame with a
    negative length prefix. *)
Definition negative_prefix : jsstring := Eval cbv in js "-3:".

Definition stalled : client :=
  set_buffer negative_prefix
    {| options := DEFAULT_OPTIONS; socket := Some sock;
       state := {| connected := true; root := None; currentTab := None;
                   consoleActor := VUndefined; inspectorActor := VUndefined |};
       pendingRequests := []; messageIdCounter := 0; buffer := [];
       reconnectAttempts := 0; lastSuccessfulOperation := 0;
       consoleActorCachedAt := 0; consecutiveFailures := 0;
       keepaliveTimer := false; isKeepaliveEnabled := true;
       introListeners := []; errorListener := true; now := 0; fresh := 2;
       trace := [] |}.

(** An evaluation request whose code has one non-ASCII character (U+00E9). *)
Definition accented : record :=
  evaluate_request (VStr (js "server1.conn0.console9")) [39; 233; 39]%N.

(** The encoding of [request1], cut after ten code units. *)
Definition chunk_a : jsstring :=
  Eval vm_compute in firstn 10 (packet_of (JSON_stringify request1)).
Definition chunk_b : jsstring :=
  Eval vm_compute in skipn 10 (packet_of (JSON_stringify request1)).

(** A session with a console actor cached at time 1000, seen at time 5000
    and, after a successful operation at 35000, at time 40000. *)
Definition console9 : value := VStr (js "server1.conn0.console9").

Definition cached : client :=
  set_now 5000
    (set_lastSuccessfulOperation 1000
       (set_consoleActorCachedAt 1000 (set_consoleActor console9 ready))).

Definition expired : client :=
  set_now 40000 (set_lastSuccessfulOperation 35000 cached).

Definition one_plus_one : jsstring := Eval cbv in js "1+1".

(** What the server answers during discovery and evaluation. *)
Definition processes_answer : value :=
  VObj [(js "from", VStr (js "root"));
        (js "processes",
         VArr [VObj [(js "actor", VStr (js "server1.conn0.processDescriptor1"));
                     (js "id", VNum 0); (js "isParent", VBool true)]])].

Definition console12 : value := VStr (js "server1.conn0.console12").

Definition target_answer : value :=
  VObj [(js "from", VStr (js "server1.conn0.processDescriptor1"));
        (js "process",
         VObj [(js "actor", VStr (js "server1.conn0.parentProcessTarget2"));
               (js "title", VStr (js "Zotero"));
               (js "url", VStr (js "chrome://zotero/content/zoteroPane.xhtml"));
               (js "consoleActor", console12)])].

Definition result_answer : value :=
  VObj [(js "type", VStr (js "evaluationResult")); (js "resultID", VStr (js "1700000000-0"));
        (js "result", VNum 2); (js "from", console12)].

(** Long-string grips. *)
Definition long_grip (initial : jsstring) (length : Z) (actor : jsstring) : value :=
  VObj [(js "type", VStr (js "longString")); (js "initial", VStr initial);
        (js "length", VNum length); (js "actor", VStr actor)].

Definition empty_long : value := long_grip [] 0 (js "s1").
Definition short_long : value := long_grip (js "ab") 5 (js "s1").
Definition whole_long : value := long_grip (js "abcde") 5 (js "s1").

Definition substring_answer : value :=
  VObj [(js "from", VStr (js "s1")); (js "substring", VStr (js "abcde"))].

(** The intro packet. *)
Definition intro : value :=
  VObj [(js "from", VStr (js "root")); (js "applicationType", VStr (js "app"));
        (js "traits", VObj [])].

(** The same session seen at time 21000, idle since 6000: the cache is 20
    seconds old, a health check is due. *)
Definition idle : client :=
  set_now 21000 (set_lastSuccessfulOperation 6000 cached).

(** A navigation event, and a console event that invalidates nothing. *)
Definition navigated : record :=
  [(js "type", VStr (js "tabNavigated")); (js "from", VStr (js "server1.conn0.tab1"));
   (js "url", VStr (js "chrome://zotero/content/zoteroPane.xhtml"))].

Definition console_call : record :=
  [(js "type", VStr (js "consoleAPICall")); (js "from", console9)].

(** The encodings of two requests, one after the other, cut after fifty
    code units. *)
Definition two_frames : list jsstring := [JSON_stringify request1; JSON_stringify request2].
Definition cut_a : jsstring := Eval vm_compute in firstn 50 (Obs.stream two_frames).
Definition cut_b : jsstring := Eval vm_compute in skipn 50 (Obs.stream two_frames).

(** Two code units of garbage. *)
Definition garbage : jsstring := Eval cbv in js "xy".

(** A frame text that is not JSON. *)
Definition not_json : jsstring := Eval cbv in js "{oops".

(** [ready] with two requests in flight. *)
Definition busy : client := Obs.sent request2 sock (Obs.sent request1 sock ready).

(** A client that was never connected. *)
Definition fresh_client : client := new_client DEFAULT_OPTIONS.

(** A socket error text. *)
Definition refused : jserror := Eval cbv in js "connect ECONNREFUSED 127.0.0.1:6100".

(** Two tabs, the second one Zotero's main window. *)
Definition tabs : list value :=
  [VObj [(js "actor", VStr (js "server1.conn0.tab1")); (js "title", VStr (js "Add-ons"));
         (js "url", VStr (js "about:addons"))];
   VObj [(js "actor", VStr (js "server1.conn0.tab2")); (js "title", VStr (js "Zotero"));
         (js "url", VStr (js "chrome://zotero/content/zoteroPane.xhtml"))]].

(** Grips of an array with a preview, and of an object without one. *)
Definition array_preview : value :=
  VObj [(js "kind", VStr (js "ArrayLike")); (js "length", VNum 2);
        (js "items", VArr [VNum 1; whole_long])].

Definition array_grip : record :=
  [(js "type", VStr (js "object")); (js "class", VStr (js "Array"));
   (js "actor", VStr (js "server1.conn0.obj7")); (js "preview", array_preview)].

Definition bare_grip : record :=
  [(js "type", VStr (js "object")); (js "class", VStr (js "Object"));
   (js "actor", VStr (js "server1.conn0.obj8"))].

(** The root of [ready]. *)
Definition ready_root : RootActor :=
  {| applicationType := VStr (js "browser"); traits := VObj [] |}.

End Sample.

(** * Properties *)

Import JS Rdp Obs.

(** ** Strings and lookups *)

Lemma jsstring_eqb_eq a b : jsstring_eqb a b = true <-> a = b.
Proof.
  unfold jsstring_eqb. destruct (list_eq_dec N.eq_dec a b); intuition congruence.
Qed.

Lemma jsstring_eqb_refl a : jsstring_eqb a a = true.
Proof. now apply jsstring_eqb_eq. Qed.

Lemma jsstring_eqb_neq a b : a <> b -> jsstring_eqb a b = false.
Proof.
  intro H. destruct (jsstring_eqb a b) eqn:E; [|reflexivity].
  apply jsstring_eqb_eq in E. contradiction.
Qed.

Lemma lookup_absent k (fields : record) :
  ~ In k (map fst fields) -> lookup k fields = None.
Proof.
  induction fields as [|[k' v] r IH]; simpl; intros H; [reflexivity|].
  rewrite jsstring_eqb_neq by (intro; subst; tauto). apply IH. tauto.
Qed.

Lemma lookup_present k (fields : record) :
  lookup k fields <> None -> In k (map fst fields).
Proof.
  induction fields as [|[k' v] r IH]; simpl; intros H; [congruence|].
  destruct (jsstring_eqb k k') eqn:E.
  - apply jsstring_eqb_eq in E. auto.
  - auto.
Qed.

Lemma has_field_In k (fields : record) :
  has_field k fields = true -> In k (map fst fields).
Proof.
  unfold has_field. intros H. apply lookup_present.
  destruct (lookup k fields); congruence.
Qed.

Lemma has_field_absent k (fields : record) :
  ~ In k (map fst fields) -> has_field k fields = false.
Proof. intros H. unfold has_field. now rewrite lookup_absent. Qed.

(** An object all of whose keys are among two names has at most two keys. *)
Lemma Object_keys_among_two (fields : record) (a b : jsstring) :
  (forall k, In k (map fst fields) -> k = a \/ k = b) ->
  (List.length (Object_keys fields) <= 2)%nat.
Proof.
  intros H. unfold Object_keys.
  change 2%nat with (List.length [a; b]).
  apply NoDup_incl_length.
  - apply NoDup_nodup.
  - intros k Hk. apply nodup_In in Hk. destruct (H k Hk); subst; simpl; auto.
Qed.

(** ** The backoff formula *)

(** The first values of the formula: 8000 is capped at 5000. *)
Lemma backoffMs_values :
  backoffMs 1 = 1000 /\ backoffMs 2 = 2000 /\ backoffMs 3 = 4000 /\ backoffMs 4 = 5000.
Proof. repeat split; reflexivity. Qed.

(** From the fourth failure on the delay stays at the cap. *)
Lemma backoff_capped (n : nat) : (4 <= n)%nat -> backoffMs n = 5000.
Proof.
  intros H. unfold backoffMs. apply Z.min_r.
  assert (2 ^ 3 <= 2 ^ (Z.of_nat n - 1)) by (apply Z.pow_le_mono_r; lia).
  change (2 ^ 3) with 8 in *. lia.
Qed.

Lemma backoff_bounds (n : nat) : (1 <= n)%nat -> 1000 <= backoffMs n <= 5000.
Proof.
  intros H. unfold backoffMs.
  assert (2 ^ 0 <= 2 ^ (Z.of_nat n - 1)) by (apply Z.pow_le_mono_r; lia).
  change (2 ^ 0) with 1 in *. lia.
Qed.

(** ** C10: connect on a connected client *)

(** C10. [connect()] on a client whose connection flag is set and whose
    socket is present returns at once and changes nothing: no socket is
    opened, no intro listener is registered, the state, the cached root and
    console actor and the pending requests are as before. *)
Theorem connect_when_connected (c : client) :
  connected (state c) = true -> socket c <> None ->
  connect c = Done (Return tt) c.
Proof.
  intros Hc Hs. unfold connect, has_socket. rewrite Hc.
  destruct (socket c); [reflexivity | congruence].
Qed.

Lemma connect_when_connected_witness :
  connect Sample.ready = Done (Return tt) Sample.ready.
Proof.
  apply connect_when_connected; [reflexivity | discriminate].
Defined.

(** Otherwise it opens a socket, registers the intro listener and waits. *)
Lemma connect_opens_socket (c : client) :
  connected (state c) && has_socket c = false ->
  exists k c',
    connect c = Wait (AwaitConnect (fresh c)) c' k /\
    trace c' = trace c ++ [CreateConnection (S (fresh c)) (host (options c)) (port (options c))] /\
    introListeners c' = introListeners c ++ [fresh c].
Proof.
  intros H. unfold connect. rewrite H. do 2 eexists. split; [reflexivity|].
  split; reflexivity.
Qed.

(** ** C5: acknowledgments are dropped *)

(** C5. A frame that carries [resultID] and whose only other field, if any,
    is [from] (so: no [type], no [result], no further payload) is consumed
    by dispatch without any effect: no pending request is resolved or
    rejected, nothing is emitted, the client is unchanged. *)
Theorem acknowledgment_suppressed (fields : record) (c : client) :
  has_field K_resultID fields = true ->
  (forall k, In k (map fst fields) -> k = K_resultID \/ k = K_from) ->
  handleMessage (VObj fields) c = (Return tt, c).
Proof.
  intros Hid Hkeys.
  assert (Ht : has_field K_type fields = false).
  { apply has_field_absent. intro Hin. destruct (Hkeys _ Hin); discriminate. }
  assert (Hr : has_field K_result fields = false).
  { apply has_field_absent. intro Hin. destruct (Hkeys _ Hin); discriminate. }
  unfold handleMessage. simpl prop.
  unfold has_field in Ht. destruct (lookup K_type fields) eqn:El; [discriminate|].
  simpl. unfold is_acknowledgment. simpl.
  rewrite Hid, Hr. unfold has_field. rewrite El. simpl.
  pose proof (Object_keys_among_two fields _ _ Hkeys) as Hlen.
  destruct (Z.of_nat (List.length (Object_keys fields)) <=? 2) eqn:E; [reflexivity|].
  apply Z.leb_gt in E. lia.
Qed.

Lemma acknowledgment_suppressed_witness :
  handleMessage (VObj Sample.ack) Sample.ready = (Return tt, Sample.ready).
Proof.
  apply acknowledgment_suppressed.
  - reflexivity.
  - simpl. intros k [H | [H | []]]; subst; [left | right]; reflexivity.
Defined.

(** ** C6: reconnect clears the session *)

Lemma reject_all_trace (l : list (nat * PendingRequest)) (c : client) :
  let c' := fold_left
              (fun acc req => log (RejectRequest (fst req) CONNECTION_CLOSED)
                                (log (ClearTimeout (fst req)) acc)) l c in
  trace c' = trace c ++
             flat_map (fun req => [ClearTimeout (fst req);
                                   RejectRequest (fst req) CONNECTION_CLOSED]) l /\
  state c' = state c /\ socket c' = socket c /\ keepaliveTimer c' = keepaliveTimer c /\
  consoleActorCachedAt c' = consoleActorCachedAt c.
Proof.
  revert c. induction l as [|req l IH]; intros c; simpl.
  - rewrite app_nil_r. repeat split; reflexivity.
  - destruct (IH (log (RejectRequest (fst req) CONNECTION_CLOSED)
                    (log (ClearTimeout (fst req)) c))) as (Ht & Hs & Hk & Hka & Hat).
    cbv zeta in *. rewrite Ht, Hs, Hk, Hka, Hat. simpl.
    rewrite <- !app_assoc. repeat split; reflexivity.
Qed.

(** What [disconnect()] leaves behind. *)
Lemma disconnect_spec (c : client) :
  pendingRequests (disconnect c) = [] /\
  state (disconnect c) = createConnectionState /\
  socket (disconnect c) = None /\
  keepaliveTimer (disconnect c) = false /\
  consoleActorCachedAt (disconnect c) = consoleActorCachedAt c /\
  trace (disconnect c) = trace c ++ teardown_effects c.
Proof.
  unfold disconnect. cbv zeta.
  set (c3 := set_state createConnectionState _).
  destruct (reject_all_trace (pendingRequests c3) c3) as (Ht & Hs & Hk & Hka & Hat).
  cbv zeta in *.
  set (c4 := fold_left _ _ _) in *.
  change (pendingRequests (set_pendingRequests [] c4)) with (@nil (nat * PendingRequest)).
  change (state (set_pendingRequests [] c4)) with (state c4).
  change (socket (set_pendingRequests [] c4)) with (socket c4).
  change (keepaliveTimer (set_pendingRequests [] c4)) with (keepaliveTimer c4).
  change (consoleActorCachedAt (set_pendingRequests [] c4)) with (consoleActorCachedAt c4).
  change (trace (set_pendingRequests [] c4)) with (trace c4).
  rewrite Ht, Hs, Hk, Hka, Hat. clear Ht Hs Hk Hka Hat c4.
  subst c3. unfold teardown_effects, stopKeepalive.
  destruct (keepaliveTimer c) eqn:Eka, (socket c) eqn:Es; simpl;
    rewrite ?Es; simpl; rewrite <- ?app_assoc; repeat split;
    solve [reflexivity | assumption].
Qed.

(** C6. [reconnect()] runs up to its first [await] (the 100 ms pause) and
    by then every pending request has been rejected with "Connection
    closed", oldest first, the pending-request map is empty, the cached
    console actor and root are cleared, the socket is gone, and no socket has
    been opened yet: the new connection is attempted only when the pause is
    over, by [connect()]. *)
Theorem reconnect_clears_session (c : client) :
  exists (c' : client) (k : settled -> client -> step unit),
    reconnect c = Wait (AwaitDelay 100) c' k /\
    pendingRequests c' = [] /\
    consoleActor (state c') = VUndefined /\
    root (state c') = None /\
    currentTab (state c') = None /\
    connected (state c') = false /\
    socket c' = None /\
    consoleActorCachedAt c' = 0 /\
    trace c' = trace c ++ teardown_effects c /\
    rejections (teardown_effects c) =
      map (fun req => (fst req, CONNECTION_CLOSED)) (pendingRequests c) /\
    existsb opens_socket (teardown_effects c) = false /\
    (forall v c'', k (Fulfilled v) c'' =
       (connect ;; modify (fun c => set_lastSuccessfulOperation (now c) c)) c'').
Proof.
  set (c0 := set_consoleActorCachedAt 0 (set_root None (invalidateActorCache c))).
  destruct (disconnect_spec c0) as (Hp & Hs & Hk & _ & Hat & Ht).
  exists (disconnect c0). eexists. split; [reflexivity|].
  rewrite Hp, Hs, Hk, Hat, Ht. simpl.
  repeat split.
  - unfold teardown_effects, rejections. simpl.
    rewrite !flat_map_app.
    destruct (keepaliveTimer c), (socket c); simpl;
      induction (pendingRequests c) as [|req l IH]; simpl; congruence.
  - unfold teardown_effects. rewrite !existsb_app.
    destruct (keepaliveTimer c), (socket c); simpl;
      induction (pendingRequests c) as [|req l IH]; simpl; auto.
Qed.

(** ** C3: responses are attributed in send order *)

Lemma Map_set_fresh {V} (k : nat) (v : V) (m : list (nat * V)) :
  ~ In k (map fst m) -> Map_set k v m = m ++ [(k, v)].
Proof.
  induction m as [|[k' v'] r IH]; simpl; intros H; [reflexivity|].
  destruct (Nat.eqb_spec k k'); [subst; tauto|]. rewrite IH by tauto. reflexivity.
Qed.

Lemma Map_delete_absent {V} (k : nat) (m : list (nat * V)) :
  ~ In k (map fst m) -> Map_delete k m = m.
Proof.
  unfold Map_delete.
  induction m as [|[k' v'] r IH]; simpl; intros H; [reflexivity|].
  destruct (Nat.eqb_spec k k'); [subst; tauto|]. simpl.
  rewrite IH by tauto. reflexivity.
Qed.

Lemma Map_delete_head {V} (k : nat) (v : V) (m : list (nat * V)) :
  ~ In k (map fst m) -> Map_delete k ((k, v) :: m) = m.
Proof.
  intros H. unfold Map_delete. simpl. rewrite Nat.eqb_refl. simpl.
  now apply Map_delete_absent.
Qed.

(** [sendMessage] on a connected client: it yields on the promise of the
    new message id, having done [sent]. *)
Lemma sendMessage_connected (message : record) (sock : Socket) (c : client) :
  socket c = Some sock -> connected (state c) = true ->
  sendMessage message c = await (AwaitRequest (S (messageIdCounter c))) (sent message sock c).
Proof.
  intros Hs Hc. unfold sendMessage. rewrite Hs, Hc. reflexivity.
Qed.

(** Induction on values, through arrays and objects. *)
Lemma value_induction (P : value -> Prop) :
  P VUndefined -> P VNull -> (forall b, P (VBool b)) -> (forall n, P (VNum n)) ->
  (forall s, P (VStr s)) ->
  (forall items, Forall P items -> P (VArr items)) ->
  (forall fields, Forall (fun kv => P (snd kv)) fields -> P (VObj fields)) ->
  (forall name, P (VSymbol name)) ->
  forall v, P v.
Proof.
  intros Hu Hn Hb Hz Hs Ha Ho Hy. fix IH 1.
  intros [| |b|n|s|items|fields|name];
    [exact Hu | exact Hn | apply Hb | apply Hz | apply Hs | | | apply Hy].
  - apply Ha. induction items as [|x r IHr]; constructor; [apply IH | exact IHr].
  - apply Ho. induction fields as [|[k x] r IHr]; constructor; [apply IH | exact IHr].
Qed.

(** An object that carries its own [toString] has no string conversion. *)
Lemma ToString_own_toString (fields : record) :
  has_field (js "toString") fields = true -> ToString (VObj fields) = None.
Proof. intros H. cbn [ToString]. rewrite H. reflexivity. Qed.

(** Dispatch of a response frame when a request is pending: the oldest
    entry is removed and its timer cleared; then its promise is settled,
    unless the error of the response cannot be built. *)
Lemma handleMessage_response (m : value) (c : client) (id : nat) (p : PendingRequest)
      (rest : list (nat * PendingRequest)) :
  response_frame m ->
  pendingRequests c = (id, p) :: rest -> ~ In id (map fst rest) ->
  handleMessage m c =
    respond id m (set_pendingRequests rest (log (ClearTimeout id) c)).
Proof.
  intros ([fields ->] & _ & He & Ha) Hp Hfresh.
  unfold handleMessage.
  change (prop (VObj fields) K_type) with (Some (get (VObj fields) K_type)).
  cbv beta iota. unfold is_event in He. rewrite He, Ha, Hp.
  rewrite Map_delete_head by assumption.
  unfold respond, settlement, error_text.
  change (has_property K_error (VObj fields)) with (Some (has_field K_error fields)).
  destruct (has_field K_error fields); [|reflexivity].
  destruct (Error_new _); reflexivity.
Qed.

(** A response settles the request it is attributed to when it has no
    [error] field, and when the text of its error is a string. *)
Lemma settlement_resolves (id : nat) (fields : record) :
  has_field K_error fields = false ->
  settlement id (VObj fields) = Some (ResolveRequest id (VObj fields)).
Proof.
  intros H. unfold settlement.
  change (has_property K_error (VObj fields)) with (Some (has_field K_error fields)).
  rewrite H. reflexivity.
Qed.

(** A response whose [error] is an object with an own [toString], and
    which has no [message], settles nothing. *)
Lemma settlement_unconvertible (id : nat) (fields o : record) :
  lookup K_message fields = None ->
  lookup K_error fields = Some (VObj o) ->
  has_field (js "toString") o = true ->
  settlement id (VObj fields) = None.
Proof.
  intros Hm He Ho. unfold settlement, error_text.
  change (has_property K_error (VObj fields)) with (Some (has_field K_error fields)).
  unfold has_field. rewrite He. cbn [get]. rewrite Hm, He.
  cbn [truthy or_else Error_new]. rewrite (ToString_own_toString o Ho). reflexivity.
Qed.

Lemma sent_fields (message : record) (sock : Socket) (c : client) :
  socket (sent message sock c) = socket c /\
  state (sent message sock c) = state c /\
  messageIdCounter (sent message sock c) = S (messageIdCounter c) /\
  pendingRequests (sent message sock c) =
    Map_set (S (messageIdCounter c)) {| request := message |} (pendingRequests c).
Proof. repeat split; reflexivity. Qed.

Lemma skipn_own_length {A} (t d : list A) : skipn (List.length t) (t ++ d) = d.
Proof. induction t as [|x t IH]; [reflexivity | exact IH]. Qed.

Lemma first_settlement_app_none (w : awaited) (t d : list effect) :
  first_settlement w t = None -> first_settlement w (t ++ d) = first_settlement w d.
Proof.
  induction t as [|e t IH]; [reflexivity|]. cbn [first_settlement app].
  destruct (settles w e); [discriminate | exact IH].
Qed.

Lemma respond_spec (id : nat) (m : value) (c1 : client) :
  fst (respond id m c1) =
    match settlement id m with Some _ => Return tt | None => Throw TypeError end /\
  trace (snd (respond id m c1)) = trace c1 ++ settled_by id m /\
  pendingRequests (snd (respond id m c1)) = pendingRequests c1.
Proof.
  unfold respond, settled_by. destruct (settlement id m).
  - repeat split.
  - cbn [fst snd]. rewrite app_nil_r. repeat split.
Qed.

(** The effect, if any, settles the request the response is attributed to
    and no other. *)
Lemma settled_by_other (id id' : nat) (m : value) :
  id <> id' -> first_settlement (AwaitRequest id') (settled_by id m) = None.
Proof.
  intros Hne. apply Nat.eqb_neq in Hne.
  unfold settled_by, settlement.
  destruct (has_property K_error m) as [[|]|]; cbn [first_settlement settles];
    try (rewrite Hne; reflexivity).
  destruct (error_text m); cbn [option_map first_settlement settles];
    [rewrite Hne|]; reflexivity.
Qed.

(** Three requests sent back-to-back on a connected client with nothing
    pending get the next three ids and wait in that order. *)
Lemma three_requests_pending (c : client) (sock : Socket) (r1 r2 r3 : record) :
  socket c = Some sock -> connected (state c) = true -> pendingRequests c = [] ->
  let n := messageIdCounter c in
  let s1 := sendMessage r1 c in
  let s2 := sendMessage r2 (after s1) in
  let s3 := sendMessage r3 (after s2) in
  awaiting s1 = Some (AwaitRequest (n + 1)) /\
  awaiting s2 = Some (AwaitRequest (n + 2)) /\
  awaiting s3 = Some (AwaitRequest (n + 3)) /\
  pendingRequests (after s3) =
    [((n + 1)%nat, {| request := r1 |}); ((n + 2)%nat, {| request := r2 |});
     ((n + 3)%nat, {| request := r3 |})].
Proof.
  intros Hs Hc Hp n s1 s2 s3.
  replace (n + 1)%nat with (S n) by lia.
  replace (n + 2)%nat with (S (S n)) by lia.
  replace (n + 3)%nat with (S (S (S n))) by lia.
  assert (E1 : s1 = await (AwaitRequest (S n)) (sent r1 sock c))
    by (apply sendMessage_connected; assumption).
  set (a1 := sent r1 sock c) in *.
  assert (A1 : after s1 = a1) by (rewrite E1; reflexivity).
  assert (E2 : s2 = await (AwaitRequest (S (S n))) (sent r2 sock a1)).
  { unfold s2. rewrite A1. apply sendMessage_connected; [exact Hs | exact Hc]. }
  set (a2 := sent r2 sock a1) in *.
  assert (A2 : after s2 = a2) by (rewrite E2; reflexivity).
  assert (E3 : s3 = await (AwaitRequest (S (S (S n)))) (sent r3 sock a2)).
  { unfold s3. rewrite A2. apply sendMessage_connected; [exact Hs | exact Hc]. }
  set (a3 := sent r3 sock a2) in *.
  assert (A3 : after s3 = a3) by (rewrite E3; reflexivity).
  rewrite A3, E1, E2, E3. repeat split.
  unfold a3, a2, a1.
  rewrite !(proj2 (proj2 (proj2 (sent_fields _ _ _)))).
  rewrite !(proj1 (proj2 (proj2 (sent_fields _ _ _)))).
  rewrite Hp. fold n. simpl Map_set at 3.
  rewrite (Map_set_fresh (S (S n))) by (simpl; lia).
  rewrite (Map_set_fresh (S (S (S n)))) by (simpl; lia). reflexivity.
Qed.

(** Three response frames (JSON objects that are neither events nor
    acknowledgments), whatever they contain, are attributed to the three
    requests in the order these were sent: each frame takes the oldest
    request off the map, clears its timer, and settles it if the frame has a
    settling effect. *)
Lemma fifo_attribution (c : client) (sock : Socket) (r1 r2 r3 : record)
      (m1 m2 m3 : value) :
  socket c = Some sock -> connected (state c) = true -> pendingRequests c = [] ->
  response_frame m1 -> response_frame m2 -> response_frame m3 ->
  let n := messageIdCounter c in
  let s1 := sendMessage r1 c in
  let s2 := sendMessage r2 (after s1) in
  let s3 := sendMessage r3 (after s2) in
  let d1 := handleMessage m1 (after s3) in
  let d2 := handleMessage m2 (snd d1) in
  let d3 := handleMessage m3 (snd d2) in
  fst d1 = match settlement (n + 1) m1 with Some _ => Return tt | None => Throw TypeError end /\
  fst d2 = match settlement (n + 2) m2 with Some _ => Return tt | None => Throw TypeError end /\
  fst d3 = match settlement (n + 3) m3 with Some _ => Return tt | None => Throw TypeError end /\
  trace (snd d1) = trace (after s3) ++ ClearTimeout (n + 1) :: settled_by (n + 1) m1 /\
  trace (snd d2) = trace (snd d1) ++ ClearTimeout (n + 2) :: settled_by (n + 2) m2 /\
  trace (snd d3) = trace (snd d2) ++ ClearTimeout (n + 3) :: settled_by (n + 3) m3 /\
  map fst (pendingRequests (snd d1)) = [(n + 2)%nat; (n + 3)%nat] /\
  pendingRequests (snd d3) = [].
Proof.
  intros Hs Hc Hp F1 F2 F3 n s1 s2 s3.
  destruct (three_requests_pending c sock r1 r2 r3 Hs Hc Hp) as (_ & _ & _ & P3).
  fold n s1 s2 s3 in P3. cbv zeta.
  rewrite (handleMessage_response m1 _ _ _ _ F1 P3) by (simpl; lia).
  match goal with |- context [respond (n + 1) m1 ?x] => set (b1 := x) end.
  destruct (respond_spec (n + 1) m1 b1) as (R1 & T1 & Q1).
  assert (P2 : pendingRequests (snd (respond (n + 1) m1 b1)) =
               [((n + 2)%nat, {| request := r2 |}); ((n + 3)%nat, {| request := r3 |})])
    by (rewrite Q1; reflexivity).
  rewrite (handleMessage_response m2 _ _ _ _ F2 P2) by (simpl; lia).
  match goal with |- context [respond (n + 2) m2 ?x] => set (b2 := x) end.
  destruct (respond_spec (n + 2) m2 b2) as (R2 & T2 & Q2).
  assert (P1 : pendingRequests (snd (respond (n + 2) m2 b2)) =
               [((n + 3)%nat, {| request := r3 |})])
    by (rewrite Q2; reflexivity).
  rewrite (handleMessage_response m3 _ _ _ _ F3 P1) by (simpl; tauto).
  match goal with |- context [respond (n + 3) m3 ?x] => set (b3 := x) end.
  destruct (respond_spec (n + 3) m3 b3) as (R3 & T3 & Q3).
  split; [exact R1|]. split; [exact R2|]. split; [exact R3|].
  split; [rewrite T1; subst b1; cbn [trace log set_trace set_pendingRequests];
          rewrite <- app_assoc; reflexivity|].
  split; [rewrite T2; subst b2; cbn [trace log set_trace set_pendingRequests];
          rewrite <- app_assoc; reflexivity|].
  split; [rewrite T3; subst b3; cbn [trace log set_trace set_pendingRequests];
          rewrite <- app_assoc; reflexivity|].
  split; [rewrite P2; reflexivity|].
  rewrite Q3. reflexivity.
Qed.

(** C3. Responses are attributed to the pending requests oldest first,
    whatever they contain, but not every response settles its request.  Three
    requests are sent back-to-back on a connected client with nothing
    pending; they get the ids n+1, n+2, n+3.  The first response frame has no
    [message] and an [error] that is an object with a [toString] key.
    Dispatch takes request n+1 off the map and clears its timer, then the
    error constructor throws: [handleMessage] ends with a TypeError, which
    [processBuffer] reports as a frame that failed to parse, and request n+1
    is neither resolved nor rejected.  The two frames that follow
    are attributed to n+2 and n+3; when all three are dispatched nothing is
    pending, and no effect has settled request n+1. *)
Theorem fifo_request_left_unsettled (c : client) (sock : Socket) (r1 r2 r3 : record)
        (fields o : record) (m2 m3 : value) :
  socket c = Some sock -> connected (state c) = true -> pendingRequests c = [] ->
  response_frame (VObj fields) ->
  lookup K_message fields = None ->
  lookup K_error fields = Some (VObj o) -> has_field (js "toString") o = true ->
  response_frame m2 -> response_frame m3 ->
  let n := messageIdCounter c in
  let s1 := sendMessage r1 c in
  let s2 := sendMessage r2 (after s1) in
  let s3 := sendMessage r3 (after s2) in
  awaiting s1 = Some (AwaitRequest (n + 1)) /\
  awaiting s2 = Some (AwaitRequest (n + 2)) /\
  awaiting s3 = Some (AwaitRequest (n + 3)) /\
  exists c1 c2 c3,
    handleMessage (VObj fields) (after s3) = (Throw TypeError, c1) /\
    (forall text, catch_frame text (handleMessage (VObj fields) (after s3)) =
                  emit_error (js "Failed to parse RDP message: " ++ text) c1) /\
    trace c1 = trace (after s3) ++ [ClearTimeout (n + 1)] /\
    map fst (pendingRequests c1) = [(n + 2)%nat; (n + 3)%nat] /\
    snd (handleMessage m2 c1) = c2 /\
    snd (handleMessage m3 c2) = c3 /\
    trace c3 = trace (after s3) ++
               ClearTimeout (n + 1) ::
               ClearTimeout (n + 2) :: settled_by (n + 2) m2 ++
               ClearTimeout (n + 3) :: settled_by (n + 3) m3 /\
    pendingRequests c3 = [] /\
    first_settlement (AwaitRequest (n + 1))
      (skipn (List.length (trace (after s3))) (trace c3)) = None.
Proof.
  intros Hs Hc Hp F1 Hm He Ho F2 F3 n s1 s2 s3.
  destruct (three_requests_pending c sock r1 r2 r3 Hs Hc Hp) as (A1 & A2 & A3 & _).
  destruct (fifo_attribution c sock r1 r2 r3 (VObj fields) m2 m3 Hs Hc Hp F1 F2 F3)
    as (R1 & _ & _ & T1 & T2 & T3 & P1 & P3).
  fold n s1 s2 s3 in A1, A2, A3, R1, T1, T2, T3, P1, P3.
  pose proof (settlement_unconvertible (n + 1) fields o Hm He Ho) as Hnone.
  unfold settled_by in T1. rewrite Hnone in R1, T1.
  split; [exact A1|]. split; [exact A2|]. split; [exact A3|].
  set (d1 := handleMessage (VObj fields) (after s3)) in *.
  exists (snd d1), (snd (handleMessage m2 (snd d1))),
         (snd (handleMessage m3 (snd (handleMessage m2 (snd d1))))).
  assert (Hd1 : d1 = (Throw TypeError, snd d1)) by (rewrite <- R1; destruct d1; reflexivity).
  split; [exact Hd1|].
  split; [intros text; rewrite Hd1; reflexivity|].
  split; [exact T1|]. split; [exact P1|].
  split; [reflexivity|]. split; [reflexivity|].
  assert (Ht : trace (snd (handleMessage m3 (snd (handleMessage m2 (snd d1))))) =
               trace (after s3) ++
               ClearTimeout (n + 1) ::
               ClearTimeout (n + 2) :: settled_by (n + 2) m2 ++
               ClearTimeout (n + 3) :: settled_by (n + 3) m3).
  { rewrite T3, T2, T1. rewrite <- !app_assoc. reflexivity. }
  split; [exact Ht|]. split; [exact P3|].
  rewrite Ht, skipn_own_length.
  cbn [first_settlement settles].
  rewrite first_settlement_app_none by (apply settled_by_other; lia).
  cbn [first_settlement settles].
  apply settled_by_other. lia.
Qed.

Lemma fifo_request_left_unsettled_witness :
  let s1 := sendMessage Sample.request1 Sample.ready in
  let s2 := sendMessage Sample.request2 (after s1) in
  let s3 := sendMessage Sample.request3 (after s2) in
  exists c1 c2 c3,
    handleMessage (VObj Sample.odd_error) (after s3) = (Throw TypeError, c1) /\
    snd (handleMessage Sample.answer2 c1) = c2 /\
    snd (handleMessage Sample.answer3 c2) = c3 /\
    trace c3 = trace (after s3) ++
               [ClearTimeout 1;
                ClearTimeout 2; RejectRequest 2 (js "No such actor");
                ClearTimeout 3; ResolveRequest 3 Sample.answer3] /\
    pendingRequests c3 = [].
Proof.
  intros s1 s2 s3.
  destruct (fifo_request_left_unsettled Sample.ready Sample.sock Sample.request1
              Sample.request2 Sample.request3 Sample.odd_error
              [(js "toString", VNum 1)] Sample.answer2 Sample.answer3)
    as (_ & _ & _ & c1 & c2 & c3 & H1 & _ & _ & _ & H2 & H3 & Ht & Hp & _);
    try reflexivity;
    try (split; [eexists; reflexivity | repeat split; reflexivity]).
  exists c1, c2, c3. repeat split; assumption.
Defined.

(** ** C2: the extraction loop *)

(** Dispatch never touches the receive buffer nor the "error" listeners. *)
Lemma handleIntro_io (p : nat) (m : value) (c : client) :
  buffer (snd (handleIntro p m c)) = buffer c /\
  errorListener (snd (handleIntro p m c)) = errorListener c.
Proof.
  unfold handleIntro. destruct (has_property _ m) as [[|]|]; split; reflexivity.
Qed.

Lemma emit_message_io (m : value) (c : client) :
  buffer (snd (emit_message m c)) = buffer c /\
  errorListener (snd (emit_message m c)) = errorListener c.
Proof.
  unfold emit_message.
  set (start := (Return tt, log (Emit (js "message") [m]) c)).
  assert (H0 : buffer (snd start) = buffer c /\ errorListener (snd start) = errorListener c)
    by (split; reflexivity).
  revert H0. generalize start. clear start.
  induction (introListeners c) as [|p l IH]; intros start H0; simpl; [exact H0|].
  apply IH. destruct start as [[u|e] c']; [|exact H0].
  destruct (handleIntro_io p m c') as [Hb He]. simpl in H0.
  split; [rewrite Hb | rewrite He]; apply H0.
Qed.

Lemma handleMessage_io (m : value) (c : client) :
  buffer (snd (handleMessage m c)) = buffer c /\
  errorListener (snd (handleMessage m c)) = errorListener c.
Proof.
  unfold handleMessage.
  destruct (prop m K_type) as [ty|]; [|split; reflexivity].
  destruct (truthy ty && Set_has EVENT_TYPES ty).
  - destruct (Set_has ACTOR_INVALIDATING_EVENTS ty);
      match goal with |- context [emit_message m ?x] =>
        destruct (emit_message_io m x) as [Hb He] end;
      (split; [rewrite Hb | rewrite He]; reflexivity).
  - destruct (is_acknowledgment m) as [[|]|]; try (split; reflexivity).
    destruct (pendingRequests c) as [|[id pnd] rest]; [apply emit_message_io|].
    destruct (has_property K_error m) as [[|]|]; try (split; reflexivity).
    destruct (Error_new _); split; reflexivity.
Qed.

Section Extraction.

Variable JSON_parse : jsstring -> option value.

Lemma dispatch_frame_io (messageStr : jsstring) (c : client) :
  buffer (snd (dispatch_frame JSON_parse messageStr c)) = buffer c /\
  errorListener (snd (dispatch_frame JSON_parse messageStr c)) = errorListener c.
Proof.
  unfold dispatch_frame, catch_frame, emit_error.
  destruct (JSON_parse messageStr) as [m|].
  - destruct (handleMessage_io m c) as [Hb He].
    destruct (handleMessage m c) as [[u|e] c']; simpl in *; [auto|].
    destruct (errorListener c') eqn:E; simpl; rewrite ?E; auto.
  - destruct (errorListener c) eqn:E; simpl; rewrite ?E; auto.
Qed.

(** With an "error" listener attached, the [catch] clause swallows the
    failure and the loop goes on. *)
Lemma dispatch_frame_listened (messageStr : jsstring) (c : client) :
  errorListener c = true ->
  exists c', dispatch_frame JSON_parse messageStr c = (Return tt, c').
Proof.
  intros H. unfold dispatch_frame, catch_frame, emit_error.
  destruct (JSON_parse messageStr) as [m|].
  - destruct (handleMessage_io m c) as [_ He].
    destruct (handleMessage m c) as [[u|e] c']; simpl in *; [eauto|].
    rewrite He, H. eauto.
  - rewrite H. eauto.
Qed.

(** One iteration on the buffer [-3:]: colon at index 2, length -3, frame
    end 2 + 1 - 3 = 0; [slice(3, 0)] is the empty frame and [slice(0)] the
    whole buffer again. *)
Lemma processBuffer_negative_step (fuel : nat) (c : client) :
  buffer c = Sample.negative_prefix ->
  processBuffer JSON_parse (S fuel) c =
    match dispatch_frame JSON_parse [] (set_buffer Sample.negative_prefix c) with
    | (Return _, c2) => processBuffer JSON_parse fuel c2
    | (Throw e, c2) => Some (Throw e, c2)
    end.
Proof. intros Hb. cbn [processBuffer]. rewrite Hb. reflexivity. Qed.

(** C2 (the code at the failing input).  On the buffer [-3:] the prefix
    parses as -3, the frame end falls on index 0, the empty frame is "taken"
    and the buffer is left as it was: with an "error" listener attached the
    loop never returns, whatever the fuel. *)
Theorem processBuffer_stalls (fuel : nat) (c : client) :
  buffer c = Sample.negative_prefix -> errorListener c = true ->
  processBuffer JSON_parse fuel c = None.
Proof.
  revert c. induction fuel as [|fuel IH]; intros c Hb He; [reflexivity|].
  rewrite processBuffer_negative_step by exact Hb.
  pose proof (dispatch_frame_io [] (set_buffer Sample.negative_prefix c)) as [Hb' He'].
  destruct (dispatch_frame_listened [] (set_buffer Sample.negative_prefix c) He) as [c' Hd].
  rewrite Hd in *. simpl in Hb', He'.
  apply IH; [exact Hb' | rewrite He'; exact He].
Qed.

(** Without a listener the first iteration throws out of the loop instead,
    and the buffer still begins with the same bytes: every later call meets
    them again. *)
Lemma processBuffer_throws (fuel : nat) (c : client) :
  buffer c = Sample.negative_prefix -> errorListener c = false ->
  JSON_parse [] = None ->
  processBuffer JSON_parse (S fuel) c =
    Some (Throw (js "Failed to parse RDP message: "), set_buffer Sample.negative_prefix c).
Proof.
  intros Hb He Hp. rewrite processBuffer_negative_step by exact Hb.
  unfold dispatch_frame, catch_frame, emit_error. rewrite Hp. simpl. rewrite He.
  reflexivity.
Qed.

End Extraction.

Lemma processBuffer_stalls_witness :
  processBuffer read_json 1000 Sample.stalled = None.
Proof.
  apply processBuffer_stalls; reflexivity.
Defined.

(** ** C1: the length prefix of outbound frames *)

(** What goes on the wire for a request is [packet_of] its JSON text. *)
Lemma sendMessage_writes (message : record) (sock : Socket) (c : client) :
  socket c = Some sock -> connected (state c) = true ->
  trace (after (sendMessage message c)) =
    trace c ++ [SetTimeout (S (messageIdCounter c)) (timeout (options c));
                SocketWrite (sock_id sock) (packet_of (JSON_stringify message))].
Proof.
  intros Hs Hc. rewrite (sendMessage_connected message sock c Hs Hc).
  simpl. rewrite <- app_assoc. reflexivity.
Qed.

(** C1 (the code at the failing input).  For the request evaluating the
    code ['é'] the client writes the prefix 93, the number of UTF-16 code
    units of the JSON text, while the UTF-8 payload that follows the colon
    is 94 bytes long. *)
Theorem length_prefix_counts_code_units :
  let json := JSON_stringify Sample.accented in
  trace (after (sendMessage Sample.accented Sample.ready)) =
    [SetTimeout 1 30000; SocketWrite 1 (js "93:" ++ json)] /\
  utf8_encode (js "93:" ++ json) = js "93:" ++ utf8_encode json /\
  len json = 93 /\
  byteLength json = 94.
Proof.
  intros json. split; [|split; [|split]]; vm_compute; reflexivity.
Qed.

(** The prefix is [json.length] in general ... *)
Lemma packet_prefix (json : jsstring) :
  packet_of json = Number_toString (len json) ++ COLON ++ json.
Proof. reflexivity. Qed.

(** ... which is the byte length as long as the JSON text is ASCII. *)
Lemma utf8_encode_ascii (s t : jsstring) :
  Forall (fun ch => (ch < 128)%N) s -> utf8_encode (s ++ t) = s ++ utf8_encode t.
Proof.
  induction 1 as [|ch s Hch _ IH]; [reflexivity|].
  simpl. apply N.ltb_lt in Hch. rewrite Hch, IH. reflexivity.
Qed.

Lemma byteLength_ascii (s : jsstring) :
  Forall (fun ch => (ch < 128)%N) s -> byteLength s = len s.
Proof.
  intros H. unfold byteLength, len.
  rewrite <- (app_nil_r s) at 1. rewrite utf8_encode_ascii by assumption.
  simpl. now rewrite app_nil_r.
Qed.

(** ** C4: framing round trip

    *** Decimal prefixes *)

Lemma digits_spec (f : nat) : forall n : N,
  (n < 2 ^ N.of_nat (S f))%N ->
  digits (S f) n <> [] /\
  Forall (fun ch => (48 <= ch <= 57)%N) (digits (S f) n) /\
  fold_left digit_step (digits (S f) n) 0 = Z.of_N n.
Proof.
  induction f as [|f IH]; intros n Hn.
  - change (2 ^ N.of_nat 1)%N with 2%N in Hn.
    assert (E : (n <? 10)%N = true) by (apply N.ltb_lt; lia).
    pose proof (proj1 (N.ltb_lt _ _) E) as E'.
    cbn [digits]. rewrite E. repeat split; [discriminate | | cbn [fold_left]; unfold digit_step; replace (48 + n - 48)%N with n by lia; lia].
    constructor; [lia | constructor].
  - change (digits (S (S f)) n)
      with (if (n <? 10)%N then [48 + n]%N else digits (S f) (n / 10) ++ [48 + n mod 10]%N).
    destruct (n <? 10)%N eqn:E.
    + apply N.ltb_lt in E. clear IH Hn. repeat split; [discriminate | | cbn [fold_left]; unfold digit_step; replace (48 + n - 48)%N with n by lia; lia].
      constructor; [lia | constructor].
    + apply N.ltb_ge in E.
      assert (Hq : (n / 10 < 2 ^ N.of_nat (S f))%N).
      { apply N.Div0.div_lt_upper_bound.
        rewrite Nat2N.inj_succ, N.pow_succ_r' in Hn.
        set (p := (2 ^ N.of_nat (S f))%N) in *. clearbody p. clear IH. lia. }
      destruct (IH _ Hq) as (Hne & Hall & Hval). clear IH Hn Hq.
      pose proof (N.mod_lt n 10 ltac:(discriminate)) as Hm.
      repeat split.
      * intro H. apply app_eq_nil in H. destruct H; discriminate.
      * apply Forall_app. split; [exact Hall|]. constructor; [|constructor].
        clear - Hm. generalize dependent (n mod 10)%N. intros; lia.
      * rewrite fold_left_app, Hval. cbn [fold_left]. unfold digit_step.
        replace (48 + n mod 10 - 48)%N with (n mod 10)%N
          by (clear; generalize (n mod 10)%N; intros; lia).
        pose proof (N.div_mod n 10 ltac:(discriminate)) as Hdm.
        clear - Hdm. generalize dependent (n mod 10)%N.
        generalize dependent (n / 10)%N. intros; lia.
Qed.

Lemma decimal_spec (n : N) :
  decimal n <> [] /\
  Forall (fun ch => (48 <= ch <= 57)%N) (decimal n) /\
  fold_left digit_step (decimal n) 0 = Z.of_N n.
Proof.
  apply digits_spec. rewrite Nat2N.inj_succ, N2Nat.id.
  destruct n as [|p]; [reflexivity|].
  apply N.log2_spec. reflexivity.
Qed.

Lemma digit_of_digit (ch : code_unit) :
  (48 <= ch <= 57)%N -> digit_of ch = Some (Z.of_N (ch - 48)).
Proof.
  intros H. unfold digit_of.
  replace (48 <=? ch)%N with true by (symmetry; apply N.leb_le; lia).
  replace (ch <=? 57)%N with true by (symmetry; apply N.leb_le; lia).
  reflexivity.
Qed.

Lemma parse_digits_run (ds : jsstring) : forall (acc : Z) (seen : bool),
  Forall (fun ch => (48 <= ch <= 57)%N) ds ->
  parse_digits ds acc seen =
    if seen || negb (Nat.eqb (List.length ds) 0) then Some (fold_left digit_step ds acc) else None.
Proof.
  induction ds as [|ch ds IH]; intros acc seen H; simpl.
  - rewrite orb_false_r. reflexivity.
  - inversion H as [|? ? Hch Hds]; subst.
    rewrite digit_of_digit by assumption. rewrite IH by assumption. simpl.
    rewrite orb_true_r. reflexivity.
Qed.

Lemma parseInt_digits (ds : jsstring) :
  ds <> [] -> Forall (fun ch => (48 <= ch <= 57)%N) ds ->
  parseInt ds = Some (fold_left digit_step ds 0).
Proof.
  intros Hne H. destruct ds as [|ch ds]; [congruence|].
  pose proof (parse_digits_run (ch :: ds) 0 false H) as Hrun.
  simpl orb in Hrun. 
  inversion H as [|? ? Hch Hds]; subst.
  assert (Hcases : (ch = 48 \/ ch = 49 \/ ch = 50 \/ ch = 51 \/ ch = 52 \/ ch = 53 \/
                    ch = 54 \/ ch = 55 \/ ch = 56 \/ ch = 57)%N) by lia.
  unfold parseInt.
  repeat (destruct Hcases as [->|Hcases]; [exact Hrun|]). subst ch. exact Hrun.
Qed.

Lemma parseInt_decimal (n : N) : parseInt (decimal n) = Some (Z.of_N n).
Proof.
  destruct (decimal_spec n) as (Hne & Hall & Hval).
  rewrite parseInt_digits by assumption. now rewrite Hval.
Qed.

(** *** Searching and slicing *)

Lemma len_app (a b : jsstring) : len (a ++ b) = len a + len b.
Proof. unfold len. rewrite length_app. lia. Qed.

Lemma len_nonneg (a : jsstring) : 0 <= len a.
Proof. unfold len. lia. Qed.

Lemma indexOf_at_absent (s : jsstring) : forall i,
  Forall (fun ch => ch <> 58%N) s -> indexOf_at s COLON i = -1.
Proof.
  induction s as [|ch s IH]; intros i H; [reflexivity|].
  inversion H as [|? ? Hch Hs]; subst.
  cbn [indexOf_at startsWith COLON].
  replace (58 =? ch)%N with false by (symmetry; apply N.eqb_neq; congruence).
  simpl. apply IH. exact Hs.
Qed.

Lemma indexOf_at_first (s rest : jsstring) : forall i,
  Forall (fun ch => ch <> 58%N) s ->
  indexOf_at (s ++ 58%N :: rest) COLON i = i + len s.
Proof.
  induction s as [|ch s IH]; intros i H.
  - change (indexOf_at ([] ++ 58%N :: rest) COLON i) with i.
    unfold len. simpl List.length. lia.
  - inversion H as [|? ? Hch Hs]; subst.
    cbn [indexOf_at startsWith COLON app].
    replace (58 =? ch)%N with false by (symmetry; apply N.eqb_neq; congruence).
    simpl andb. cbv iota. rewrite IH by exact Hs.
    unfold len. simpl List.length. lia.
Qed.

Lemma slice_spec (s : jsstring) (i j : Z) :
  0 <= i <= j -> j <= len s ->
  slice s i j = firstn (Z.to_nat (j - i)) (skipn (Z.to_nat i) s).
Proof.
  intros Hi Hj. unfold slice, clamp_index.
  replace (i <? 0) with false by (symmetry; apply Z.ltb_ge; lia).
  replace (j <? 0) with false by (symmetry; apply Z.ltb_ge; lia).
  rewrite !Z.min_l by lia. reflexivity.
Qed.

Lemma slice_prefix (a b : jsstring) : slice (a ++ b) 0 (len a) = a.
Proof.
  rewrite slice_spec by (rewrite ?len_app; pose proof (len_nonneg a); pose proof (len_nonneg b); lia).
  simpl. rewrite Z.sub_0_r. unfold len. rewrite Nat2Z.id.
  rewrite firstn_app, firstn_all, Nat.sub_diag. simpl. apply app_nil_r.
Qed.

Lemma slice_suffix (a b : jsstring) : slice (a ++ b) (len a) (len a + len b) = b.
Proof.
  rewrite slice_spec by (rewrite ?len_app; pose proof (len_nonneg a); pose proof (len_nonneg b); lia).
  replace (len a + len b - len a) with (len b) by lia.
  unfold len. rewrite !Nat2Z.id.
  rewrite skipn_app, skipn_all, Nat.sub_diag. simpl. apply firstn_all.
Qed.

Lemma slice_from_end (s : jsstring) : slice_from s (len s) = [].
Proof.
  unfold slice_from. rewrite slice_spec by (pose proof (len_nonneg s); lia).
  rewrite Z.sub_diag. reflexivity.
Qed.

Lemma set_buffer_same (c : client) : set_buffer (buffer c) c = c.
Proof. destruct c. reflexivity. Qed.

Lemma digits_have_no_colon (ds : jsstring) :
  Forall (fun ch => (48 <= ch <= 57)%N) ds -> Forall (fun ch => ch <> 58%N) ds.
Proof. apply Forall_impl. intros ch H. lia. Qed.

Lemma Number_toString_len (s : jsstring) :
  Number_toString (len s) = decimal (Z.to_N (len s)).
Proof.
  unfold Number_toString.
  replace (len s <? 0) with false by (symmetry; apply Z.ltb_ge; apply len_nonneg).
  reflexivity.
Qed.

(** The shape of a packet: decimal digits, the colon, the payload. *)
Lemma packet_shape (json : jsstring) :
  exists ds,
    packet_of json = ds ++ 58%N :: json /\
    ds <> [] /\ Forall (fun ch => (48 <= ch <= 57)%N) ds /\
    parseInt ds = Some (len json).
Proof.
  exists (decimal (Z.to_N (len json))).
  destruct (decimal_spec (Z.to_N (len json))) as (Hne & Hall & _).
  repeat split; try assumption.
  - unfold packet_of. rewrite Number_toString_len. reflexivity.
  - rewrite parseInt_decimal. rewrite Z2N.id by apply len_nonneg. reflexivity.
Qed.

Section Roundtrip.

Variable JSON_parse : jsstring -> option value.

(** A buffer holding a proper prefix of a packet is left to wait. *)
Lemma processBuffer_incomplete (json a b : jsstring) (c : client) (fuel : nat) :
  a ++ b = packet_of json -> b <> [] -> buffer c = a ->
  processBuffer JSON_parse (S fuel) c = Some (Return tt, c).
Proof.
  intros Hab Hb Hbuf.
  destruct (packet_shape json) as (ds & Hp & Hne & Hall & Hparse).
  rewrite Hp in Hab. pose proof (digits_have_no_colon ds Hall) as Hnc.
  cbn [processBuffer]. rewrite Hbuf.
  apply app_eq_app in Hab. destruct Hab as [l [[Ha Hl] | [Hds Hl]]].
  - destruct l as [|ch j1].
    + rewrite app_nil_r in Ha. subst a. unfold indexOf.
      rewrite indexOf_at_absent by assumption. reflexivity.
    + simpl in Hl. injection Hl as <- ->. subst a.
      unfold indexOf. rewrite indexOf_at_first by assumption.
      pose proof (len_nonneg ds).
      replace (0 + len ds =? -1) with false by (symmetry; apply Z.eqb_neq; lia).
      rewrite Z.add_0_l, slice_prefix, Hparse.
      replace (len (ds ++ 58%N :: j1) <? len ds + 1 + len (j1 ++ b)) with true; [reflexivity|].
      symmetry. apply Z.ltb_lt. rewrite !len_app.
      destruct b; [congruence|]. unfold len. simpl List.length. lia.
  - subst ds. apply Forall_app in Hnc. destruct Hnc as [Hnc _].
    unfold indexOf. rewrite indexOf_at_absent by assumption. reflexivity.
Qed.

(** A buffer holding exactly one packet gives up its payload and is empty. *)
Lemma processBuffer_complete (json : jsstring) (c : client) (fuel : nat) :
  buffer c = packet_of json ->
  processBuffer JSON_parse (S (S fuel)) c =
    Some (dispatch_frame JSON_parse json (set_buffer [] c)).
Proof.
  intros Hbuf.
  destruct (packet_shape json) as (ds & Hp & Hne & Hall & Hparse).
  pose proof (digits_have_no_colon ds Hall) as Hnc.
  pose proof (len_nonneg ds). pose proof (len_nonneg json).
  cbn [processBuffer]. rewrite Hbuf, Hp.
  unfold indexOf. rewrite indexOf_at_first by assumption.
  replace (0 + len ds =? -1) with false by (symmetry; apply Z.eqb_neq; lia).
  rewrite Z.add_0_l, slice_prefix, Hparse.
  assert (Hlen : len (ds ++ 58%N :: json) = len ds + 1 + len json).
  { change (58%N :: json) with ([58%N] ++ json). rewrite !len_app.
    change (len [58%N]) with 1. lia. }
  replace (len (ds ++ 58%N :: json) <? len ds + 1 + len json) with false
    by (symmetry; apply Z.ltb_ge; lia).
  rewrite <- Hlen at 2. rewrite slice_from_end.
  replace (slice (ds ++ 58%N :: json) (len ds + 1) (len ds + 1 + len json)) with json.
  2:{ change (ds ++ 58%N :: json) with (ds ++ [58%N] ++ json). rewrite app_assoc.
      replace (len ds + 1) with (len (ds ++ [58%N])) by (rewrite len_app; reflexivity).
      now rewrite slice_suffix. }
  pose proof (dispatch_frame_io JSON_parse json (set_buffer [] c)) as [Hb' _].
  destruct (dispatch_frame JSON_parse json (set_buffer [] c)) as [[[]|e] c2] eqn:Hd;
    [|reflexivity].
  simpl in Hb'. rewrite Hb'. reflexivity.
Qed.

(** C4. Let M be a message that [JSON.parse] reads back from its own
    serialization, and let the encoding of M be cut anywhere before its end
    into two chunks (strings, as the socket hands them to [handleData]).  Fed
    to an empty receive buffer, the first chunk is only buffered, and the
    second one completes the frame: the client ends up exactly as after one
    dispatch of M (inside the frame's try/catch), with an empty buffer
    again. *)
Theorem framing_roundtrip (M : record) (a b : jsstring) (c : client) (fuel : nat) :
  JSON_parse (JSON_stringify M) = Some (VObj M) ->
  buffer c = [] ->
  a ++ b = packet_of (JSON_stringify M) -> b <> [] ->
  (2 <= fuel)%nat ->
  handleData JSON_parse fuel a c = Some (Return tt, set_buffer a c) /\
  handleData JSON_parse fuel b (set_buffer a c) =
    Some (catch_frame (JSON_stringify M) (handleMessage (VObj M) c)) /\
  buffer (snd (catch_frame (JSON_stringify M) (handleMessage (VObj M) c))) = [].
Proof.
  intros Hparse Hbuf Hab Hb Hfuel.
  destruct fuel as [|[|fuel]]; try lia.
  assert (Hc : set_buffer [] c = c) by (rewrite <- Hbuf; apply set_buffer_same).
  split; [|split].
  - unfold handleData. rewrite Hbuf. cbn [app].
    now apply (processBuffer_incomplete (JSON_stringify M) a b).
  - unfold handleData.
    rewrite (processBuffer_complete (JSON_stringify M)) by (rewrite <- Hab; reflexivity).
    change (set_buffer [] (set_buffer _ (set_buffer a c))) with (set_buffer [] c).
    rewrite Hc. unfold dispatch_frame. rewrite Hparse. reflexivity.
  - pose proof (dispatch_frame_io JSON_parse (JSON_stringify M) c) as [Hio _].
    unfold dispatch_frame in Hio. rewrite Hparse in Hio. rewrite Hio. exact Hbuf.
Qed.

(** The same for the encoding delivered in one piece. *)
Lemma framing_roundtrip_whole (M : record) (c : client) (fuel : nat) :
  JSON_parse (JSON_stringify M) = Some (VObj M) ->
  buffer c = [] ->
  handleData JSON_parse (S (S fuel)) (packet_of (JSON_stringify M)) c =
    Some (catch_frame (JSON_stringify M) (handleMessage (VObj M) c)).
Proof.
  intros Hparse Hbuf.
  assert (Hc : set_buffer [] c = c) by (rewrite <- Hbuf; apply set_buffer_same).
  unfold handleData.
  rewrite (processBuffer_complete (JSON_stringify M)) by (rewrite Hbuf; reflexivity).
  change (set_buffer [] (set_buffer _ c)) with (set_buffer [] c).
  rewrite Hc. unfold dispatch_frame. rewrite Hparse. reflexivity.
Qed.

(** Resynchronization: a prefix that is not a number costs one code unit
    per iteration. *)
Lemma processBuffer_skips (fuel : nat) (c : client) :
  indexOf (buffer c) COLON <> -1 ->
  parseInt (slice (buffer c) 0 (indexOf (buffer c) COLON)) = None ->
  processBuffer JSON_parse (S fuel) c =
    processBuffer JSON_parse fuel (set_buffer (slice_from (buffer c) 1) c).
Proof.
  intros Hi Hp. cbn [processBuffer].
  replace (indexOf (buffer c) COLON =? -1) with false
    by (symmetry; apply Z.eqb_neq; exact Hi).
  rewrite Hp. reflexivity.
Qed.

End Roundtrip.

Lemma framing_roundtrip_witness :
  handleData read_json 2 Sample.chunk_a Sample.ready
    = Some (Return tt, set_buffer Sample.chunk_a Sample.ready) /\
  handleData read_json 2 Sample.chunk_b (set_buffer Sample.chunk_a Sample.ready) =
    Some (catch_frame (JSON_stringify Sample.request1)
            (handleMessage (VObj Sample.request1) Sample.ready)) /\
  buffer (snd (catch_frame (JSON_stringify Sample.request1)
                 (handleMessage (VObj Sample.request1) Sample.ready))) = [].
Proof.
  apply (framing_roundtrip read_json Sample.request1 Sample.chunk_a Sample.chunk_b Sample.ready 2).
  - vm_compute. reflexivity.
  - reflexivity.
  - vm_compute. reflexivity.
  - discriminate.
  - lia.
Defined.

(** ** C7: the TTL of the cached console actor *)

Lemma isConnected_up (c : client) (sock : Socket) :
  socket c = Some sock -> connected (state c) = true ->
  destroyed sock = false -> writable sock = true ->
  isConnected c = (true, c).
Proof. intros Hs Hc Hd Hw. unfold isConnected. now rewrite Hs, Hc, Hd, Hw. Qed.

Lemma shouldCheckHealth_spec (c : client) :
  shouldCheckHealth c = true <->
  HEALTH_CHECK_THRESHOLD_MS < now c - lastSuccessfulOperation c.
Proof. unfold shouldCheckHealth. rewrite Z.gtb_ltb. apply Z.ltb_lt. Qed.


(** A call at the last retry makes no recursive call. *)
Lemma evaluateJS_last_attempt (self1 self2 : async value) (code : jsstring) :
  evaluateJS_body self1 code maxRetries = evaluateJS_body self2 code maxRetries.
Proof.
  unfold evaluateJS_body, evaluateJS_cached.
  replace (evaluateJS_catch self1 maxRetries) with (evaluateJS_catch self2 maxRetries);
    [reflexivity|].
  apply functional_extensionality. intros e. unfold evaluateJS_catch.
  change (maxRetries <? maxRetries)%nat with false. rewrite !andb_false_r. reflexivity.
Qed.


(** With a stale cache it is cleared and discovery starts. *)
Lemma evaluateJS_cached_stale (self : async value) (code : jsstring) (retryCount : nat)
      (c : client) (sock : Socket) :
  socket c = Some sock -> connected (state c) = true ->
  isActorCacheFresh c = false ->
  exists k,
    evaluateJS_cached self code retryCount c =
      Wait (AwaitRequest (S (messageIdCounter c)))
           (sent (discovery_request c) sock (invalidateActorCache c)) k.
Proof.
  intros Hs Hc Hfresh.
  assert (Hs' : socket (invalidateActorCache c) = Some sock) by exact Hs.
  assert (Hc' : connected (state (invalidateActorCache c)) = true) by exact Hc.
  unfold evaluateJS_cached.
  unfold bind at 1. unfold gets at 1. cbn [bind_step]. rewrite Hfresh. cbn [negb].
  unfold bind at 1. unfold modify at 1. cbn [bind_step].
  unfold bind at 1. unfold gets at 1. cbn [bind_step].
  change (truthy (consoleActor (state (invalidateActorCache c)))) with false. cbn [negb].
  unfold bind at 1. unfold bind at 1.
  unfold ensureConsoleActor, discovery_request.
  unfold bind at 1. unfold gets at 1. cbn [bind_step].
  change (root (state (invalidateActorCache c))) with (root (state c)).
  destruct (root (state c)) as [r|].
  - unfold bind at 1. unfold ret at 1. cbn [bind_step].
    unfold bind at 1. unfold viaProcesses, try_catch. unfold bind at 1.
    unfold listProcesses. unfold bind at 1.
    rewrite (sendMessage_connected _ sock _ Hs' Hc').
    eexists. reflexivity.
  - unfold bind at 1. unfold getRoot. unfold bind at 1.
    rewrite (sendMessage_connected _ sock _ Hs' Hc').
    eexists. reflexivity.
Qed.

(** On a live connection with no health check due, [evaluateJS] goes
    straight to its freshness check. *)
Lemma evaluateJS_body_direct (self : async value) (code : jsstring) (retryCount : nat)
      (c : client) :
  isConnected c = (true, c) ->
  (retryCount =? 0)%nat && shouldCheckHealth c = false ->
  evaluateJS_body self code retryCount c = evaluateJS_cached self code retryCount c.
Proof.
  intros Hup Hhealth. unfold evaluateJS_body.
  unfold bind at 1. unfold call. rewrite Hup. cbn [bind_step negb].
  unfold bind at 1. unfold gets at 1. cbn [bind_step]. rewrite Hhealth.
  reflexivity.
Qed.





(** ** C8: long strings *)

Lemma gripToValue_long (fields : record) (initial : jsstring) (length : Z) :
  is_long_string fields initial length ->
  gripToValue (VObj fields) =
    Some (Return (if negb (Nat.eqb (List.length initial) 0) && (len initial >=? length)
                  then VStr initial else VObj fields)).
Proof.
  intros (Ht & Hi & Hl).
  unfold gripToValue. cbn [gripToValue_at].
  unfold has_field, get. rewrite Ht, Hi, Hl.
  change (is_string (VStr (js "longString")) (js "longString")) with true.
  cbn [andb]. destruct initial as [|ch s]; [reflexivity|].
  change (truthy (VStr (ch :: s))) with true. cbv iota.
  change (if jsstring_eqb (js "length") (js "length") then VNum (len (ch :: s)) else VUndefined)
    with (VNum (len (ch :: s))).
  unfold js_ge, and_then, returns. cbn [as_number].
  destruct (len (ch :: s) >=? length); reflexivity.
Qed.

(** C8, synchronous decoder on a non-empty initial chunk. *)
Lemma long_string_covered (fields : record) (initial : jsstring) (length : Z) :
  is_long_string fields initial length ->
  initial <> [] -> length <= len initial ->
  gripToValue (VObj fields) = Some (Return (VStr initial)).
Proof.
  intros H Hne Hlen. rewrite (gripToValue_long fields initial length H).
  destruct initial; [congruence|].
  replace (len (c :: initial) >=? length) with true; [reflexivity|].
  symmetry. apply Z.geb_le. exact Hlen.
Qed.

Lemma long_string_short (fields : record) (initial : jsstring) (length : Z) :
  is_long_string fields initial length ->
  len initial < length ->
  gripToValue (VObj fields) = Some (Return (VObj fields)).
Proof.
  intros H Hlen. rewrite (gripToValue_long fields initial length H).
  replace (len initial >=? length) with false; [now rewrite andb_false_r|].
  symmetry. destruct (len initial >=? length) eqn:E; [|reflexivity].
  apply Z.geb_le in E. lia.
Qed.

(** X29. The asynchronous decoder on a long-string grip whose initial chunk
    is shorter than the declared length: it asks the string's actor for the
    range from 0 to that length (a [substring] request, the only thing it
    sends) and returns the [substring] field of the answer. *)
Lemma long_string_async (fields : record) (initial : jsstring) (length : Z) (actor : value) :
  is_long_string fields initial length ->
  lookup K_actor fields = Some actor ->
  len initial < length ->
  exists run,
    gripToValueAsync (VObj fields) = Some run /\
    forall c sock, socket c = Some sock -> connected (state c) = true ->
      exists k,
        run c = Wait (AwaitRequest (S (messageIdCounter c)))
                     (sent (substring_request actor (VNum length)) sock c) k /\
        forall response c',
          k (Fulfilled response) c' = of_option (prop response (js "substring")) c'.
Proof.
  intros H Ha Hlen. destruct H as (Ht & Hi & Hl).
  unfold gripToValueAsync.
  rewrite (long_string_short fields initial length (conj Ht (conj Hi Hl)) Hlen).
  unfold isLongString, has_field, get. rewrite Ht, Ha, Hl.
  change (is_string (VStr (js "longString")) (js "longString")) with true.
  cbn [andb]. eexists. split; [reflexivity|].
  intros c sock Hs Hc. unfold fetchLongString. unfold bind at 1.
  fold (substring_request actor (VNum length)).
  rewrite (sendMessage_connected _ sock c Hs Hc).
  eexists. split; reflexivity.
Qed.

Lemma long_string_async_witness :
  exists run,
    gripToValueAsync Sample.short_long = Some run /\
    exists k,
      run Sample.ready =
        Wait (AwaitRequest 1)
             (sent (substring_request (VStr (js "s1")) (VNum 5)) Sample.sock Sample.ready) k.
Proof.
  destruct (long_string_async
              [(js "type", VStr (js "longString")); (js "initial", VStr (js "ab"));
               (js "length", VNum 5); (js "actor", VStr (js "s1"))]
              (js "ab") 5 (VStr (js "s1"))) as (run & Hr & Hk).
  - repeat split.
  - reflexivity.
  - vm_compute. reflexivity.
  - exists run. split; [exact Hr|].
    destruct (Hk Sample.ready Sample.sock eq_refl eq_refl) as (k & H & _).
    exists k. exact H.
Defined.

(** C8 (the code at the failing input).  The grip of type longString with
    the empty string as initial chunk, declared length 0 and actor s1 is a
    long-string grip whose initial chunk covers its declared length; the
    synchronous decoder returns the grip itself, not the string. *)
Theorem empty_long_string_stays_a_grip :
  exists fields,
    (Sample.empty_long = VObj fields) /\
    is_long_string fields [] 0 /\
    (0 <= len []) /\
    (gripToValue Sample.empty_long = Some (Return Sample.empty_long)).
Proof.
  eexists. split; [reflexivity|]. split; [repeat split|]. split; [discriminate | reflexivity].
Qed.

(** With the initial chunk "ab" of 5 and an actor that answers "abcde":
    the synchronous decoder hands back the grip, the asynchronous one asks
    the string's actor for the range 0 to 5 and returns "abcde"; a grip
    whose initial chunk is the whole string decodes to it directly. *)
Lemma long_string_example :
  gripToValue Sample.short_long = Some (Return Sample.short_long) /\
  gripToValue Sample.whole_long = Some (Return (VStr (js "abcde"))) /\
  exists run,
    gripToValueAsync Sample.short_long = Some run /\
    awaiting (run Sample.ready) = Some (AwaitRequest 1) /\
    last (trace (after (run Sample.ready))) ClearInterval =
      SocketWrite 1 (packet_of (JSON_stringify
                                  (substring_request (VStr (js "s1")) (VNum 5)))) /\
    returned (deliver Sample.substring_answer (run Sample.ready)) = Some (VStr (js "abcde")).
Proof.
  split; [reflexivity|]. split; [reflexivity|].
  eexists. split; [reflexivity|]. vm_compute. repeat split.
Qed.

(** ** Scenarios *)

(** An evaluate call on a stale cache, followed through: the process list
    and the target are fetched, the new console actor is cached at the
    current time, the evaluation request goes to it, the acknowledgment is
    ignored and the result frame is what the call returns. *)
Lemma expired_cache_scenario :
  let s0 := evaluateJS Sample.one_plus_one 0 Sample.expired in
  let s1 := deliver Sample.processes_answer s0 in
  let s2 := deliver Sample.target_answer s1 in
  let s3 := deliver (VObj Sample.ack) s2 in
  let s4 := deliver Sample.result_answer s3 in
  awaiting s0 = Some (AwaitRequest 1) /\
  awaiting s1 = Some (AwaitRequest 2) /\
  awaiting s2 = Some (AwaitRequest 3) /\
  consoleActor (state (after s2)) = Sample.console12 /\
  consoleActorCachedAt (after s2) = 40000 /\
  last (trace (after s2)) ClearInterval =
    SocketWrite 1 (packet_of (JSON_stringify
                                (evaluate_request Sample.console12 Sample.one_plus_one))) /\
  awaiting s3 = Some (AwaitRequest 3) /\
  returned s4 = Some Sample.result_answer.
Proof. vm_compute. repeat split. Qed.

(** From a new client: connect, the intro packet completes [connect()], an
    evaluation goes through discovery, its acknowledgment is ignored and its
    result frame, carrying 2, comes back to the caller. *)
Lemma end_to_end_scenario :
  let c0 := connect (new_client DEFAULT_OPTIONS) in
  let c1 := react onConnect c0 in
  let c2 := deliver Sample.intro c1 in
  let s0 := evaluateJS Sample.one_plus_one 0 (after c2) in
  let s1 := deliver Sample.processes_answer s0 in
  let s2 := deliver Sample.target_answer s1 in
  let s3 := deliver (VObj Sample.ack) s2 in
  let s4 := deliver Sample.result_answer s3 in
  awaiting c0 = Some (AwaitConnect 0) /\
  awaiting c1 = Some (AwaitConnect 0) /\
  returned c2 = Some tt /\
  root (state (after c2)) =
    Some {| applicationType := VStr (js "app"); traits := VObj [] |} /\
  awaiting s3 = Some (AwaitRequest 3) /\
  returned s4 = Some Sample.result_answer /\
  gripToValue (get Sample.result_answer K_result) = Some (Return (VNum 2)).
Proof. vm_compute. repeat split. Qed.

(** ** The backoff in [withRetry] *)

(** [withRetry] around an operation that fails with a connection error
    uses the same delay before it reconnects. *)
Lemma withRetry_backoff {T} (e : jserror) (retries : Z) (name : jsstring) (c : client) :
  isConnected c = (true, c) ->
  isActorError e = false -> isConnectionError e = true -> 0 < retries ->
  exists k,
    withRetry (@throw T e) retries false name c =
      Wait (AwaitDelay (backoffMs (S (consecutiveFailures c))))
           (set_consecutiveFailures (S (consecutiveFailures c)) c) k.
Proof.
  intros Hup Ha He Hr. unfold withRetry.
  destruct (Z.to_nat (retries + 1)) as [|n] eqn:En; [lia|].
  cbn [withRetry_loop].
  replace (0 <=? retries) with true by (symmetry; apply Z.leb_le; lia).
  unfold bind at 1. unfold try_catch. unfold bind at 1. unfold call. rewrite Hup.
  cbn [bind_step catch_step negb].
  unfold bind at 1. unfold ret at 1. cbn [bind_step catch_step].
  unfold bind at 1. unfold throw at 1. cbn [bind_step catch_step].
  unfold ret at 1. cbn [bind_step].
  unfold bind at 1. unfold modify at 1. cbn [bind_step].
  replace (0 >=? retries) with false by (symmetry; rewrite Z.geb_leb; apply Z.leb_gt; lia).
  rewrite Ha, He. cbn [orb].
  unfold bind at 1. unfold gets at 1. cbn [bind_step].
  unfold bind at 1. unfold delay. unfold bind at 1. unfold await. cbn [bind_step].
  eexists. reflexivity.
Qed.

(** ** The extraction loop apart from negative prefixes *)

Lemma indexOf_at_range (s : jsstring) : forall i,
  indexOf_at s COLON i = -1 \/ i <= indexOf_at s COLON i < i + len s.
Proof.
  induction s as [|ch s IH]; intros i; [left; reflexivity|].
  cbn [indexOf_at startsWith COLON].
  destruct (58 =? ch)%N; cbn [andb].
  - right. unfold len. simpl List.length. lia.
  - destruct (IH (i + 1)) as [H | H]; [left; exact H | right].
    unfold len in *. simpl List.length. lia.
Qed.

Lemma In_firstn_in {A} (x : A) (n : nat) (l : list A) : In x (firstn n l) -> In x l.
Proof. intros H. rewrite <- (firstn_skipn n l). apply in_or_app. now left. Qed.

Lemma In_skipn_in {A} (x : A) (n : nat) (l : list A) : In x (skipn n l) -> In x l.
Proof. intros H. rewrite <- (firstn_skipn n l). apply in_or_app. now right. Qed.

Lemma In_slice (x : code_unit) (s : jsstring) (i j : Z) : In x (slice s i j) -> In x s.
Proof. unfold slice. intros H. eapply In_skipn_in, In_firstn_in, H. Qed.

Lemma slice_from_skipn (s : jsstring) (k : Z) :
  0 <= k <= len s -> slice_from s k = skipn (Z.to_nat k) s.
Proof.
  intros H. unfold slice_from. rewrite slice_spec by lia.
  apply firstn_all2. rewrite length_skipn. unfold len in *. lia.
Qed.

Lemma trimStart_In (x : code_unit) (s : jsstring) : In x (trimStart s) -> In x s.
Proof.
  induction s as [|ch s IH]; simpl; [tauto|].
  destruct (isWhiteSpace ch); simpl; auto.
Qed.

Lemma parse_digits_nonneg (s : jsstring) : forall acc seen n,
  0 <= acc -> parse_digits s acc seen = Some n -> 0 <= n.
Proof.
  induction s as [|ch s IH]; intros acc seen n Hacc H; cbn [parse_digits] in H.
  - destruct seen; congruence.
  - unfold digit_of in H. destruct ((48 <=? ch)%N && (ch <=? 57)%N).
    + eapply IH; [|exact H].
      apply Z.add_nonneg_nonneg; [lia | apply N2Z.is_nonneg].
    + destruct seen; congruence.
Qed.

(** Without a minus sign in it, a prefix never parses as a negative length. *)
Lemma parseInt_nonneg (s : jsstring) (n : Z) :
  ~ In 45%N s -> parseInt s = Some n -> 0 <= n.
Proof.
  intros Hno H. unfold parseInt in H.
  destruct (trimStart s) as [|ch r] eqn:E; [discriminate|].
  destruct (N.eqb_spec ch 45) as [-> | Hch].
  - exfalso. apply Hno. apply trimStart_In. rewrite E. now left.
  - destruct (ch =? 43)%N; eapply parse_digits_nonneg; try exact H; lia.
Qed.

Section Termination.

Variable JSON_parse : jsstring -> option value.

(** X1. Apart from negative length prefixes the loop does terminate: on a
    buffer without a minus sign every iteration that does not return
    shortens the buffer, so one more round than the buffer has code units
    is enough, whatever the buffer holds. *)
Theorem processBuffer_terminates (fuel : nat) : forall c : client,
  ~ In 45%N (buffer c) -> (List.length (buffer c) < fuel)%nat ->
  exists r, processBuffer JSON_parse fuel c = Some r.
Proof.
  induction fuel as [|fuel IH]; intros c Hno Hlen; [lia|].
  cbn [processBuffer].
  destruct (indexOf (buffer c) COLON =? -1) eqn:Ei; [eauto|].
  apply Z.eqb_neq in Ei.
  destruct (indexOf_at_range (buffer c) 0) as [Hr | Hr]; [unfold indexOf in Ei; lia|].
  fold (indexOf (buffer c) COLON) in Hr.
  set (i := indexOf (buffer c) COLON) in *.
  assert (Hpos : (0 < List.length (buffer c))%nat) by (unfold len in Hr; lia).
  destruct (parseInt (slice (buffer c) 0 i)) as [n|] eqn:Ep.
  - assert (Hn : 0 <= n).
    { eapply parseInt_nonneg; [|exact Ep]. intro H. apply Hno. eapply In_slice, H. }
    destruct (len (buffer c) <? i + 1 + n) eqn:El; [eauto|].
    apply Z.ltb_ge in El.
    pose proof (dispatch_frame_io JSON_parse (slice (buffer c) (i + 1) (i + 1 + n))
                  (set_buffer (slice_from (buffer c) (i + 1 + n)) c)) as [Hb _].
    destruct (dispatch_frame JSON_parse _ _) as [[u|e] c2]; [|eauto].
    simpl in Hb. apply IH; rewrite Hb, slice_from_skipn by lia.
    + intro H. apply Hno. eapply In_skipn_in, H.
    + rewrite length_skipn. unfold len in *. lia.
  - apply IH; simpl buffer; rewrite slice_from_skipn by (unfold len; lia).
    + intro H. apply Hno. eapply In_skipn_in, H.
    + rewrite length_skipn. simpl. lia.
Qed.

End Termination.

Lemma processBuffer_terminates_witness :
  exists r, processBuffer read_json 4 (set_buffer Sample.garbage Sample.ready) = Some r.
Proof.
  apply processBuffer_terminates.
  - cbn. intros [H | [H | []]]; discriminate.
  - cbn. lia.
Defined.


(** An evaluate call with a fresh cache on a connection that has been idle
    for more than the health threshold: the health check (a root query)
    comes first, and once it is answered the evaluation request goes to the
    cached actor; no discovery request is sent. *)
Lemma health_check_scenario :
  let s0 := evaluateJS Sample.one_plus_one 0 Sample.idle in
  let s1 := deliver Sample.intro s0 in
  awaiting s0 = Some (AwaitRequest 1) /\
  last (trace (after s0)) ClearInterval =
    SocketWrite 1 (packet_of (JSON_stringify [(K_to, ROOT); (K_type, VStr (js "getRoot"))])) /\
  awaiting s1 = Some (AwaitRequest 2) /\
  last (trace (after s1)) ClearInterval =
    SocketWrite 1 (packet_of (JSON_stringify
                                (evaluate_request Sample.console9 Sample.one_plus_one))) /\
  consoleActor (state (after s1)) = Sample.console9 /\
  consoleActorCachedAt (after s1) = 1000.
Proof. vm_compute. repeat split. Qed.

(** * Further properties of the client

    ** The receive loop *)

Lemma junk_spec (ch : code_unit) :
  junk ch = true ->
  isWhiteSpace ch = false /\ (ch =? 45)%N = false /\ (ch =? 43)%N = false /\
  digit_of ch = None /\ ch <> 58%N.
Proof.
  unfold junk, digit_of. intros H.
  repeat (apply andb_prop in H; destruct H as [H ?]).
  repeat match goal with
         | H : negb _ = true |- _ => apply negb_true_iff in H
         end.
  repeat split; try assumption.
  - rewrite H1. reflexivity.
  - apply N.eqb_neq. assumption.
Qed.

Lemma parseInt_junk (ch : code_unit) (rest : jsstring) :
  junk ch = true -> parseInt (ch :: rest) = None.
Proof.
  intros H. destruct (junk_spec ch H) as (Hw & Hm & Hp & Hd & _).
  unfold parseInt. cbn [trimStart]. rewrite Hw, Hm, Hp.
  cbn [parse_digits]. rewrite Hd. reflexivity.
Qed.

Section Resync.

Variable JSON_parse : jsstring -> option value.

Lemma processBuffer_resync (g : jsstring) : forall (json : jsstring) (c : client) (fuel : nat),
  Forall (fun ch => junk ch = true) g ->
  buffer c = g ++ packet_of json ->
  processBuffer JSON_parse (List.length g + S (S fuel)) c =
    Some (dispatch_frame JSON_parse json (set_buffer [] c)).
Proof.
  induction g as [|ch g IH]; intros json c fuel Hg Hbuf.
  - apply processBuffer_complete. exact Hbuf.
  - inversion Hg as [|? ? Hch Hg']; subst.
    destruct (packet_shape json) as (ds & Hp & Hne & Hall & Hparse).
    pose proof (digits_have_no_colon ds Hall) as Hnc.
    assert (Hnc' : Forall (fun x => x <> 58%N) ((ch :: g) ++ ds)).
    { apply Forall_app. split; [|exact Hnc].
      eapply Forall_impl; [|exact Hg]. intros x Hx. apply (junk_spec x Hx). }
    change (List.length (ch :: g) + S (S fuel))%nat
      with (S (List.length g + S (S fuel))).
    rewrite processBuffer_skips.
    + rewrite (IH json _ fuel Hg').
      * reflexivity.
      * simpl buffer. rewrite Hbuf. rewrite slice_from_skipn.
        -- reflexivity.
        -- unfold len. simpl List.length. lia.
    + rewrite Hbuf, Hp. rewrite app_assoc. unfold indexOf.
      rewrite indexOf_at_first by exact Hnc'.
      match goal with |- 0 + len ?s <> -1 => pose proof (len_nonneg s) end. lia.
    + rewrite Hbuf, Hp. rewrite app_assoc. unfold indexOf.
      rewrite indexOf_at_first by exact Hnc'. rewrite Z.add_0_l, slice_prefix.
      apply parseInt_junk. exact Hch.
Qed.

(** X2. Resynchronization.  Let a client with an empty buffer be handed
    garbage followed by the packet of a JSON text, where no code unit of the
    garbage is a digit, a sign, white space or the colon.  The loop drops the
    garbage, one code unit for each round, and then takes exactly that text
    as a frame: the outcome is that of dispatching the text on the client. *)
Theorem resync_after_garbage (g json : jsstring) (c : client) (fuel : nat) :
  Forall (fun ch => junk ch = true) g ->
  buffer c = [] ->
  (List.length g + 2 <= fuel)%nat ->
  handleData JSON_parse fuel (g ++ packet_of json) c =
    Some (dispatch_frame JSON_parse json c).
Proof.
  intros Hg Hbuf Hfuel.
  replace fuel with (List.length g + S (S (fuel - List.length g - 2)))%nat by lia.
  unfold handleData. rewrite Hbuf. cbn [app].
  rewrite (processBuffer_resync g json) by (assumption || reflexivity).
  change (set_buffer [] (set_buffer _ c)) with (set_buffer [] c).
  rewrite <- Hbuf. rewrite set_buffer_same. reflexivity.
Qed.

End Resync.

Lemma resync_after_garbage_witness :
  handleData read_json 4 (Sample.garbage ++ packet_of (JSON_stringify Sample.request1))
    Sample.ready =
    Some (dispatch_frame read_json (JSON_stringify Sample.request1) Sample.ready).
Proof.
  apply (resync_after_garbage read_json Sample.garbage).
  - repeat constructor.
  - reflexivity.
  - simpl. lia.
Defined.


Lemma handleIntro_buffer (x : jsstring) (p : nat) (m : value) (c : client) :
  handleIntro p m (set_buffer x c) = with_buffer x (handleIntro p m c).
Proof.
  unfold handleIntro, with_buffer. destruct (has_property _ m) as [[|]|]; reflexivity.
Qed.

Lemma emit_message_buffer (x : jsstring) (m : value) (c : client) :
  emit_message m (set_buffer x c) = with_buffer x (emit_message m c).
Proof.
  unfold emit_message.
  change (introListeners (set_buffer x c)) with (introListeners c).
  change (Return tt, log (Emit (js "message") [m]) (set_buffer x c))
    with (with_buffer x (Return tt, log (Emit (js "message") [m]) c)).
  generalize (Return tt, log (Emit (js "message") [m]) c).
  induction (introListeners c) as [|p l IH]; intros acc; [reflexivity|].
  cbn [fold_left]. rewrite <- IH. f_equal.
  destruct acc as [[u|e] c']; [|reflexivity].
  cbn [with_buffer fst snd]. apply handleIntro_buffer.
Qed.

Lemma handleMessage_buffer (x : jsstring) (m : value) (c : client) :
  handleMessage m (set_buffer x c) = with_buffer x (handleMessage m c).
Proof.
  unfold handleMessage.
  destruct (prop m K_type) as [ty|]; [|reflexivity].
  destruct (truthy ty && Set_has EVENT_TYPES ty).
  - destruct (Set_has ACTOR_INVALIDATING_EVENTS ty).
    + rewrite <- emit_message_buffer. reflexivity.
    + apply emit_message_buffer.
  - destruct (is_acknowledgment m) as [[|]|]; try reflexivity.
    change (pendingRequests (set_buffer x c)) with (pendingRequests c).
    destruct (pendingRequests c) as [|[id pnd] rest]; [apply emit_message_buffer|].
    destruct (has_property K_error m) as [[|]|]; try reflexivity.
    destruct (Error_new _); reflexivity.
Qed.

Section Chunks.

Variable JSON_parse : jsstring -> option value.

Lemma dispatch_frame_buffer (x : jsstring) (messageStr : jsstring) (c : client) :
  dispatch_frame JSON_parse messageStr (set_buffer x c) =
    with_buffer x (dispatch_frame JSON_parse messageStr c).
Proof.
  unfold dispatch_frame, catch_frame.
  destruct (JSON_parse messageStr) as [m|].
  - rewrite handleMessage_buffer.
    destruct (handleMessage m c) as [[u|e] c']; [reflexivity|].
    cbn [with_buffer fst snd]. unfold emit_error.
    change (errorListener (set_buffer x c')) with (errorListener c').
    destruct (errorListener c'); reflexivity.
  - unfold emit_error.
    change (errorListener (set_buffer x c)) with (errorListener c).
    destruct (errorListener c); reflexivity.
Qed.

End Chunks.

Lemma slice_middle (a b c : jsstring) :
  slice (a ++ b ++ c) (len a) (len a + len b) = b.
Proof.
  rewrite slice_spec.
  - replace (len a + len b - len a) with (len b) by lia.
    unfold len. rewrite !Nat2Z.id.
    rewrite skipn_app, skipn_all, Nat.sub_diag. simpl.
    rewrite firstn_app, firstn_all, Nat.sub_diag. simpl. apply app_nil_r.
  - pose proof (len_nonneg a). pose proof (len_nonneg b). lia.
  - rewrite !len_app. pose proof (len_nonneg c). lia.
Qed.

Lemma slice_from_tail (a c : jsstring) : slice_from (a ++ c) (len a) = c.
Proof.
  rewrite slice_from_skipn.
  - unfold len. rewrite Nat2Z.id, skipn_app, skipn_all, Nat.sub_diag. reflexivity.
  - rewrite len_app. pose proof (len_nonneg a). pose proof (len_nonneg c). lia.
Qed.

Section Streams.

Variable JSON_parse : jsstring -> option value.

(** One iteration on a buffer that begins with a whole packet. *)
Lemma processBuffer_first_packet (json rest : jsstring) (c : client) (fuel : nat) :
  buffer c = packet_of json ++ rest ->
  processBuffer JSON_parse (S fuel) c =
    match dispatch_frame JSON_parse json (set_buffer rest c) with
    | (Return _, c2) => processBuffer JSON_parse fuel c2
    | (Throw e, c2) => Some (Throw e, c2)
    end.
Proof.
  intros Hbuf.
  destruct (packet_shape json) as (ds & Hp & Hne & Hall & Hparse).
  pose proof (digits_have_no_colon ds Hall) as Hnc.
  pose proof (len_nonneg ds). pose proof (len_nonneg json). pose proof (len_nonneg rest).
  cbn [processBuffer]. rewrite Hbuf, Hp.
  rewrite <- app_assoc. cbn [app].
  unfold indexOf. rewrite indexOf_at_first by assumption.
  replace (0 + len ds =? -1) with false by (symmetry; apply Z.eqb_neq; lia).
  rewrite Z.add_0_l, slice_prefix, Hparse.
  match goal with
  | |- context [len ?b <? ?e] =>
      assert (Hlen : len b = len ds + 1 + len json + len rest);
      [ change b with (ds ++ [58%N] ++ json ++ rest); rewrite !len_app;
        change (len [58%N]) with 1; lia
      | replace (len b <? e) with false by (symmetry; apply Z.ltb_ge; lia) ]
  end.
  assert (Hl1 : len ds + 1 = len (ds ++ [58%N])) by (rewrite len_app; reflexivity).
  match goal with
  | |- context [slice ?b ?i ?j] =>
      replace (slice b i j) with json
        by (change b with (ds ++ [58%N] ++ json ++ rest);
            rewrite (app_assoc ds), Hl1, slice_middle; reflexivity)
  end.
  match goal with
  | |- context [slice_from ?b ?i] =>
      replace (slice_from b i) with rest
        by (change b with (ds ++ [58%N] ++ json ++ rest);
            rewrite (app_assoc ds), Hl1, app_assoc, <- len_app, slice_from_tail; reflexivity)
  end.
  reflexivity.
Qed.

Lemma dispatch_all_buffer (texts : list jsstring) : forall (tail : jsstring) (c c' : client),
  dispatch_all JSON_parse texts tail c = (Return tt, c') -> buffer c' = tail.
Proof.
  induction texts as [|t r IH]; intros tail c c' H; cbn [dispatch_all] in H.
  - injection H as <-. reflexivity.
  - destruct (dispatch_frame JSON_parse t _) as [[u|e] c2]; [|discriminate].
    eapply IH, H.
Qed.

(** The loop on a stream followed by an incomplete packet. *)
Lemma processBuffer_stream (texts : list jsstring) : forall (tail : jsstring) (c : client) (fuel : nat),
  partial_packet tail ->
  buffer c = stream texts ++ tail ->
  (List.length texts < fuel)%nat ->
  processBuffer JSON_parse fuel c = Some (dispatch_all JSON_parse texts tail c).
Proof.
  induction texts as [|t r IH]; intros tail c fuel Htail Hbuf Hfuel;
    (destruct fuel as [|fuel]; [simpl in Hfuel; lia|]).
  - destruct Htail as (json & more & Hpk & Hmore).
    change (stream [] ++ tail) with tail in Hbuf.
    cbn [dispatch_all]. rewrite <- Hbuf, set_buffer_same.
    apply (processBuffer_incomplete JSON_parse json tail more); assumption.
  - change (stream (t :: r)) with (packet_of t ++ stream r) in Hbuf.
    rewrite <- app_assoc in Hbuf.
    rewrite (processBuffer_first_packet t _ c fuel Hbuf). cbn [dispatch_all].
    pose proof (dispatch_frame_io JSON_parse t (set_buffer (stream r ++ tail) c)) as [Hb _].
    destruct (dispatch_frame JSON_parse t _) as [[[]|e] c2]; [|reflexivity].
    apply IH; [exact Htail | exact Hb | simpl in Hfuel; lia].
Qed.

Lemma dispatch_all_set_buffer (texts : list jsstring) (tail x : jsstring) (c : client) :
  dispatch_all JSON_parse texts tail (set_buffer x c) = dispatch_all JSON_parse texts tail c.
Proof. destruct texts; reflexivity. Qed.

End Streams.

Lemma packet_nonempty (json : jsstring) : packet_of json <> [].
Proof.
  destruct (packet_shape json) as (ds & Hp & _). rewrite Hp.
  intro H. apply app_eq_nil in H. destruct H; discriminate.
Qed.

Lemma partial_packet_nil : partial_packet [].
Proof. exists [], (packet_of []). split; [reflexivity | apply packet_nonempty]. Qed.

(** A cut through a stream falls inside one packet or between two. *)
Lemma split_stream (texts : list jsstring) : forall a b : jsstring,
  a ++ b = stream texts ->
  exists t1 t2 tail,
    texts = t1 ++ t2 /\ a = stream t1 ++ tail /\ tail ++ b = stream t2 /\
    partial_packet tail.
Proof.
  induction texts as [|t r IH]; intros a b H.
  - apply app_eq_nil in H. destruct H as [-> ->].
    exists [], [], []. repeat split. apply partial_packet_nil.
  - change (stream (t :: r)) with (packet_of t ++ stream r) in H.
    apply app_eq_app in H. destruct H as [l [[Ha Hl] | [Hp Hb]]].
    + destruct (IH l b (eq_sym Hl)) as (t1 & t2 & tail & Ht & Hl' & Htl & Hpp).
      exists (t :: t1), t2, tail. subst. repeat split.
      * change (stream (t :: t1)) with (packet_of t ++ stream t1).
        now rewrite <- app_assoc.
      * exact Htl.
      * exact Hpp.
    + destruct l as [|x l].
      * rewrite app_nil_r in Hp. simpl in Hb. subst.
        exists [t], r, []. repeat split.
        -- unfold stream. simpl. now rewrite !app_nil_r.
        -- apply partial_packet_nil.
      * exists [], (t :: r), a. subst b. repeat split.
        -- change (stream (t :: r)) with (packet_of t ++ stream r).
           now rewrite app_assoc, <- Hp.
        -- exists t, (x :: l). split; [now symmetry | discriminate].
Qed.

Section Chunks2.

Variable JSON_parse : jsstring -> option value.

Lemma dispatch_all_app (t1 : list jsstring) : forall (t2 : list jsstring) (x tail : jsstring)
    (c c1 : client),
  dispatch_all JSON_parse t1 x c = (Return tt, c1) ->
  dispatch_all JSON_parse (t1 ++ t2) tail c = dispatch_all JSON_parse t2 tail c1.
Proof.
  induction t1 as [|t r IH]; intros t2 x tail c c1 H.
  - cbn [dispatch_all] in H. injection H as <-.
    cbn [app]. now rewrite dispatch_all_set_buffer.
  - cbn [dispatch_all app] in *.
    rewrite dispatch_frame_buffer in *.
    destruct (dispatch_frame JSON_parse t c) as [[u|e] cd]; cbn [with_buffer fst snd] in *;
      [|discriminate].
    rewrite dispatch_all_set_buffer in *. eapply IH, H.
Qed.

Lemma handleData_stream (texts : list jsstring) (tail : jsstring) (c : client) (fuel : nat) :
  partial_packet tail -> (List.length texts < fuel)%nat ->
  handleData JSON_parse fuel (stream texts ++ tail) (set_buffer [] c) =
    Some (dispatch_all JSON_parse texts tail c).
Proof.
  intros Htail Hfuel. unfold handleData.
  rewrite (processBuffer_stream JSON_parse texts tail) by (assumption || reflexivity).
  now rewrite !dispatch_all_set_buffer.
Qed.

(** X3. Chunk boundaries do not matter.  Let the packets of any number of
    JSON texts follow one another, and let this stream be cut anywhere into
    two chunks.  Handed whole to a client with an empty buffer, the stream is
    dispatched frame by frame, in order ([dispatch_all]).  Handed over as the
    two chunks, the first call returns, and if it returns normally the second
    call ends with the very same result as the whole stream. *)
Theorem stream_in_two_chunks (texts : list jsstring) (a b : jsstring) (c : client)
        (fuel : nat) :
  buffer c = [] -> a ++ b = stream texts -> (List.length texts < fuel)%nat ->
  handleData JSON_parse fuel (a ++ b) c = Some (dispatch_all JSON_parse texts [] c) /\
  (exists r, handleData JSON_parse fuel a c = Some r) /\
  forall c1, handleData JSON_parse fuel a c = Some (Return tt, c1) ->
             handleData JSON_parse fuel b c1 = Some (dispatch_all JSON_parse texts [] c).
Proof.
  intros Hbuf Hab Hfuel.
  assert (Hc : set_buffer [] c = c) by (rewrite <- Hbuf; apply set_buffer_same).
  destruct (split_stream texts a b Hab) as (t1 & t2 & tail & Ht & Ha & Htl & Hpp).
  assert (Hf1 : (List.length t1 < fuel)%nat) by (subst texts; rewrite length_app in Hfuel; lia).
  assert (Hf2 : (List.length t2 < fuel)%nat) by (subst texts; rewrite length_app in Hfuel; lia).
  assert (Hrun : handleData JSON_parse fuel a c = Some (dispatch_all JSON_parse t1 tail c)).
  { rewrite <- Hc at 1. rewrite Ha. now apply handleData_stream. }
  split; [|split].
  - rewrite <- Hc at 1. rewrite Hab, <- (app_nil_r (stream texts)).
    apply handleData_stream; [apply partial_packet_nil | exact Hfuel].
  - eexists. exact Hrun.
  - intros c1 H1. rewrite Hrun in H1. injection H1 as H1.
    pose proof (dispatch_all_buffer JSON_parse t1 tail c c1 H1) as Hb1.
    unfold handleData. rewrite Hb1, Htl, <- (app_nil_r (stream t2)).
    rewrite (processBuffer_stream JSON_parse t2 []) by
      (apply partial_packet_nil || reflexivity || exact Hf2).
    rewrite dispatch_all_set_buffer. subst texts. f_equal. symmetry.
    eapply dispatch_all_app, H1.
Qed.

(** X4. A frame whose text [JSON.parse] rejects is taken out of the buffer
    and reported, never dispatched.  With an "error" listener attached the
    only effect is the "error" event whose text is [Failed to parse RDP
    message: ] followed by the frame (so no pending request is settled);
    without a listener that error is thrown out of [handleData]. *)
Theorem malformed_frame_is_reported (text : jsstring) (c : client) (fuel : nat) :
  buffer c = [] -> JSON_parse text = None ->
  handleData JSON_parse (S (S fuel)) (packet_of text) c =
    Some (if errorListener c
          then (Return tt, log (EmitError (parse_failure text)) c)
          else (Throw (parse_failure text), c)).
Proof.
  intros Hbuf Hparse.
  assert (Hc : set_buffer [] c = c) by (rewrite <- Hbuf; apply set_buffer_same).
  unfold handleData.
  rewrite (processBuffer_complete JSON_parse text) by (rewrite Hbuf; reflexivity).
  change (set_buffer [] (set_buffer _ c)) with (set_buffer [] c). rewrite Hc.
  unfold dispatch_frame, catch_frame, emit_error. rewrite Hparse.
  destruct (errorListener c); reflexivity.
Qed.

End Chunks2.

Lemma stream_in_two_chunks_witness :
  handleData read_json 3 (Sample.cut_a ++ Sample.cut_b) Sample.ready =
    Some (dispatch_all read_json Sample.two_frames [] Sample.ready) /\
  (exists r, handleData read_json 3 Sample.cut_a Sample.ready = Some r) /\
  forall c1, handleData read_json 3 Sample.cut_a Sample.ready = Some (Return tt, c1) ->
             handleData read_json 3 Sample.cut_b c1 =
               Some (dispatch_all read_json Sample.two_frames [] Sample.ready).
Proof.
  apply (stream_in_two_chunks read_json Sample.two_frames Sample.cut_a Sample.cut_b Sample.ready 3).
  - reflexivity.
  - vm_compute. reflexivity.
  - cbn. lia.
Defined.

Lemma malformed_frame_is_reported_witness :
  handleData read_json 2 (packet_of Sample.not_json) Sample.ready =
    Some (Throw (parse_failure Sample.not_json), Sample.ready).
Proof.
  apply (malformed_frame_is_reported read_json Sample.not_json Sample.ready 0).
  - reflexivity.
  - vm_compute. reflexivity.
Defined.


Lemma same_session_refl c : same_session c c.
Proof. repeat split. Qed.

Lemma same_session_trans a b c : same_session a b -> same_session b c -> same_session a c.
Proof.
  unfold same_session, same_connection. intros H1 H2.
  repeat match goal with H : _ /\ _ |- _ => destruct H end.
  repeat split; congruence.
Qed.

Lemma filter_none_listed (l : list nat) :
  filter (fun q => negb (existsb (Nat.eqb q) [])) l = l.
Proof.
  induction l as [|q r IH]; [reflexivity|].
  change (q :: filter (fun q => negb (existsb (Nat.eqb q) [])) r = q :: r). now f_equal.
Qed.

Lemma filter_removed (p : nat) (l L : list nat) :
  filter (fun q => negb (existsb (Nat.eqb q) l)) (filter (fun q => negb (Nat.eqb p q)) L) =
  filter (fun q => negb (existsb (Nat.eqb q) (p :: l))) L.
Proof.
  induction L as [|q r IH]; [reflexivity|].
  cbn [filter existsb]. rewrite (Nat.eqb_sym q p).
  destruct (Nat.eqb p q); cbn [negb orb filter]; [exact IH|].
  destruct (existsb (Nat.eqb q) l); cbn [negb]; [exact IH | now rewrite IH].
Qed.

Lemma filter_all_listed (l r : list nat) :
  incl r l -> filter (fun q => negb (existsb (Nat.eqb q) l)) r = [].
Proof.
  induction r as [|q r IH]; intros H; [reflexivity|].
  cbn [filter].
  assert (Hq : existsb (Nat.eqb q) l = true).
  { apply existsb_exists. exists q. split; [apply H; now left | apply Nat.eqb_refl]. }
  rewrite Hq. cbn [negb]. apply IH. intros x Hx. apply H. now right.
Qed.

(** The [handleIntro] listeners of [l] run on an object that carries an
    application type: each resolves its connect and leaves the list. *)
Lemma intro_listeners_fire (fields : record) (l : list nat) : forall c1 : client,
  has_field (js "applicationType") fields = true ->
  exists c',
    fold_left (fun acc p => match acc with
                           | (Return _, c') => handleIntro p (VObj fields) c'
                           | thrown => thrown
                           end) l (Return tt, c1) = (Return tt, c') /\
    same_session c1 c' /\
    trace c' = trace c1 ++ map ResolveConnect l /\
    root (state c') = match l with [] => root (state c1) | _ => Some (root_of (VObj fields)) end /\
    introListeners c' =
      filter (fun q => negb (existsb (Nat.eqb q) l)) (introListeners c1).
Proof.
  induction l as [|p l IH]; intros c1 Ha.
  - exists c1. cbn [fold_left map]. rewrite app_nil_r, filter_none_listed.
    split; [reflexivity|]. split; [apply same_session_refl|]. repeat split.
  - cbn [fold_left]. unfold handleIntro at 2.
    change (has_property (js "applicationType") (VObj fields))
      with (Some (has_field (js "applicationType") fields)).
    rewrite Ha.
    match goal with
    | |- context [fold_left _ l (Return tt, ?x)] => set (c2 := x)
    end.
    assert (H2 : same_session c1 c2) by (repeat split).
    destruct (IH c2 Ha) as (c' & Hf & Hs & Htr & Hroot & Hli).
    exists c'. split; [exact Hf|].
    split; [eapply same_session_trans; [exact H2 | exact Hs]|].
    split; [|split].
    + rewrite Htr. subst c2. unfold log. cbn [trace set_trace map].
      rewrite <- app_assoc. reflexivity.
    + rewrite Hroot. destruct l; reflexivity.
    + rewrite Hli. subst c2. apply filter_removed.
Qed.

(** Without an application type the listeners do nothing. *)
Lemma intro_listeners_idle (fields : record) (l : list nat) (c1 : client) :
  has_field (js "applicationType") fields = false ->
  fold_left (fun acc p => match acc with
                         | (Return _, c') => handleIntro p (VObj fields) c'
                         | thrown => thrown
                         end) l (Return tt, c1) = (Return tt, c1).
Proof.
  intros Ha. induction l as [|p l IH]; [reflexivity|].
  cbn [fold_left]. unfold handleIntro at 2.
  change (has_property (js "applicationType") (VObj fields))
    with (Some (has_field (js "applicationType") fields)).
  rewrite Ha. exact IH.
Qed.

(** [emit("message", m)] for an object [m]: the event goes out; if [m]
    carries an application type every connect in flight is resolved and the
    root is set, else the listeners stay. *)
Lemma emit_message_object (fields : record) (c : client) :
  exists c',
    emit_message (VObj fields) c = (Return tt, c') /\ same_session c c' /\
    trace c' = trace c ++ Emit (js "message") [VObj fields] ::
               (if has_field (js "applicationType") fields
                then map ResolveConnect (introListeners c) else []) /\
    root (state c') =
      (if has_field (js "applicationType") fields
       then match introListeners c with
            | [] => root (state c)
            | _ => Some (root_of (VObj fields))
            end
       else root (state c)) /\
    introListeners c' =
      (if has_field (js "applicationType") fields then [] else introListeners c).
Proof.
  unfold emit_message.
  set (c0 := log (Emit (js "message") [VObj fields]) c).
  assert (H0 : same_session c c0) by (repeat split).
  destruct (has_field (js "applicationType") fields) eqn:Ha.
  - destruct (intro_listeners_fire fields (introListeners c) c0 Ha)
      as (c' & Hf & Hs & Htr & Hroot & Hli).
    exists c'. split; [exact Hf|].
    split; [eapply same_session_trans; [exact H0 | exact Hs]|].
    split; [rewrite Htr; subst c0; unfold log; cbn [trace set_trace];
            rewrite <- app_assoc; reflexivity|].
    split; [exact Hroot|].
    rewrite Hli. apply filter_all_listed. apply incl_refl.
  - rewrite (intro_listeners_idle fields _ c0 Ha).
    exists c0. split; [reflexivity|]. split; [exact H0|]. repeat split.
Qed.

Lemma Set_has_spec (s : list jsstring) (x : jsstring) :
  Set_has s (VStr x) = true <-> In x s.
Proof.
  cbn [Set_has]. rewrite existsb_exists. split.
  - intros (y & Hy & E). apply jsstring_eqb_eq in E. now subst.
  - intros H. exists x. split; [exact H | apply jsstring_eqb_refl].
Qed.

Lemma event_names_nonempty (ty : jsstring) : In ty EVENT_TYPES -> truthy (VStr ty) = true.
Proof.
  intros H. destruct ty; [|reflexivity].
  cbv in H. repeat (destruct H as [H | H]; [discriminate|]). contradiction.
Qed.

Lemma invalidating_are_events (ty : jsstring) :
  In ty ACTOR_INVALIDATING_EVENTS -> In ty EVENT_TYPES.
Proof.
  intros H. cbv [ACTOR_INVALIDATING_EVENTS In] in H.
  repeat (destruct H as [<- | H]; [cbv; tauto|]). contradiction.
Qed.

Lemma invalidateActorCache_cleared (c : client) :
  consoleActor (state c) = VUndefined -> currentTab (state c) = None ->
  consoleActorCachedAt c = 0 -> invalidateActorCache c = c.
Proof.
  destruct c as [o s st p m b r l a f k e i el n fr t]. destruct st as [cn ro ct ca ia].
  cbn. intros -> -> ->. reflexivity.
Qed.

Lemma resolve_connect_settles_none (l : list nat) :
  existsb settles_request (map ResolveConnect l) = false.
Proof. induction l as [|p l IH]; [reflexivity | exact IH]. Qed.

(** Dispatch of an event: the cache is cleared first if the event is an
    invalidating one, then the event is emitted. *)
Lemma handleMessage_event (fields : record) (ty : jsstring) (c : client) :
  lookup K_type fields = Some (VStr ty) -> In ty EVENT_TYPES ->
  handleMessage (VObj fields) c =
    emit_message (VObj fields)
      (if Set_has ACTOR_INVALIDATING_EVENTS (VStr ty)
       then log (Emit (js "actorsInvalidated") [VStr ty]) (invalidateActorCache c)
       else c).
Proof.
  intros Hty Hev. unfold handleMessage.
  change (prop (VObj fields) K_type) with (Some (get (VObj fields) K_type)).
  cbn [get]. rewrite Hty. cbv beta iota.
  rewrite (event_names_nonempty ty Hev).
  rewrite (proj2 (Set_has_spec EVENT_TYPES ty) Hev).
  reflexivity.
Qed.

Lemma listeners_settle_none (b : bool) (l : list nat) :
  existsb settles_request (if b then map ResolveConnect l else []) = false.
Proof. destruct b; [apply resolve_connect_settles_none | reflexivity]. Qed.

(** X5. The events tabNavigated, tabDetached, frameUpdate and
    workerListChanged clear the cached console actor, whatever its age: after
    dispatch the actor and the current tab are undefined, the cache time is 0
    and [isActorCacheFresh] answers false.  The connection side (socket, flag,
    pending requests, counters, clock) is untouched, and the effects are
    "actorsInvalidated" with the event name, then "message" with the event,
    then nothing that settles a request. *)
Theorem invalidating_event_clears_cache (fields : record) (ty : jsstring) (c : client) :
  lookup K_type fields = Some (VStr ty) -> In ty ACTOR_INVALIDATING_EVENTS ->
  exists c',
    handleMessage (VObj fields) c = (Return tt, c') /\
    same_connection c c' /\
    consoleActor (state c') = VUndefined /\
    currentTab (state c') = None /\
    consoleActorCachedAt c' = 0 /\
    isActorCacheFresh c' = false /\
    exists t,
      trace c' = trace c ++ Emit (js "actorsInvalidated") [VStr ty] ::
                            Emit (js "message") [VObj fields] :: t /\
      existsb settles_request t = false.
Proof.
  intros Hty Hin.
  rewrite (handleMessage_event fields ty c Hty (invalidating_are_events ty Hin)).
  rewrite (proj2 (Set_has_spec ACTOR_INVALIDATING_EVENTS ty) Hin).
  set (c1 := log (Emit (js "actorsInvalidated") [VStr ty]) (invalidateActorCache c)).
  destruct (emit_message_object fields c1) as (c' & He & Hs & Htr & _ & _).
  destruct Hs as (Hconn & Htab & Hact & Hat).
  exists c'. split; [exact He|].
  split; [exact Hconn|].
  split; [rewrite Hact; reflexivity|].
  split; [rewrite Htab; reflexivity|].
  split; [rewrite Hat; reflexivity|].
  split; [unfold isActorCacheFresh; rewrite Hact; reflexivity|].
  eexists. split.
  - rewrite Htr. subst c1. unfold log at 1. cbn [trace set_trace].
    change (trace (invalidateActorCache c)) with (trace c).
    rewrite <- app_assoc. reflexivity.
  - apply listeners_settle_none.
Qed.

Lemma invalidating_event_clears_cache_witness :
  exists c',
    handleMessage (VObj Sample.navigated) Sample.cached = (Return tt, c') /\
    consoleActor (state c') = VUndefined /\
    isActorCacheFresh c' = false.
Proof.
  destruct (invalidating_event_clears_cache Sample.navigated (js "tabNavigated") Sample.cached)
    as (c' & H & _ & Ha & _ & _ & Hf & _).
  - reflexivity.
  - left. reflexivity.
  - exists c'. split; [exact H|]. split; assumption.
Defined.

(** X6. A message whose type is one of the eleven event names never takes
    a pending request: after dispatch the pending requests (and the rest of
    the connection side) are as before, "message" has been emitted with the
    event and no request has been resolved or rejected.  If the event is not
    an invalidating one, the cached console actor, its time and the current
    tab are kept too. *)
Theorem event_settles_no_request (fields : record) (ty : jsstring) (c : client) :
  lookup K_type fields = Some (VStr ty) -> In ty EVENT_TYPES ->
  exists c',
    handleMessage (VObj fields) c = (Return tt, c') /\
    same_connection c c' /\
    (~ In ty ACTOR_INVALIDATING_EVENTS ->
     consoleActor (state c') = consoleActor (state c) /\
     currentTab (state c') = currentTab (state c) /\
     consoleActorCachedAt c' = consoleActorCachedAt c) /\
    exists t,
      trace c' = trace c ++ t /\ In (Emit (js "message") [VObj fields]) t /\
      existsb settles_request t = false.
Proof.
  intros Hty Hev.
  rewrite (handleMessage_event fields ty c Hty Hev).
  destruct (Set_has ACTOR_INVALIDATING_EVENTS (VStr ty)) eqn:Einv.
  - set (c1 := log (Emit (js "actorsInvalidated") [VStr ty]) (invalidateActorCache c)).
    destruct (emit_message_object fields c1) as (c' & He & Hs & Htr & _ & _).
    destruct Hs as (Hconn & _).
    exists c'. split; [exact He|]. split; [exact Hconn|].
    split; [intros Hno; apply Set_has_spec in Einv; contradiction|].
    eexists. split.
    + rewrite Htr. subst c1. unfold log at 1. cbn [trace set_trace].
      change (trace (invalidateActorCache c)) with (trace c).
      rewrite <- app_assoc. reflexivity.
    + split; [right; left; reflexivity|].
      cbn [app existsb settles_request orb]. apply listeners_settle_none.
  - destruct (emit_message_object fields c) as (c' & He & Hs & Htr & _ & _).
    destruct Hs as (Hconn & Htab & Hact & Hat).
    exists c'. split; [exact He|]. split; [exact Hconn|].
    split; [intros _; repeat split; assumption|].
    eexists. split; [exact Htr|]. split; [left; reflexivity|].
    cbn [existsb settles_request orb]. apply listeners_settle_none.
Qed.

Lemma event_settles_no_request_witness :
  exists c',
    handleMessage (VObj Sample.console_call) Sample.busy = (Return tt, c') /\
    pendingRequests c' = pendingRequests Sample.busy /\
    consoleActor (state c') = consoleActor (state Sample.busy).
Proof.
  destruct (event_settles_no_request Sample.console_call (js "consoleAPICall") Sample.busy)
    as (c' & H & Hc & Hkeep & _).
  - reflexivity.
  - cbv. tauto.
  - exists c'. split; [exact H|]. split; [apply Hc|].
    apply Hkeep. cbv. intuition discriminate.
Defined.

Lemma live_isConnected (c : client) (sock : Socket) : live c sock -> isConnected c = (true, c).
Proof. intros (Hs & Hc & Hd & Hw). now apply (isConnected_up c sock). Qed.

Lemma evaluateJS_unfold (code : jsstring) (retryCount : nat) :
  (retryCount < maxRetries)%nat ->
  evaluateJS code retryCount = evaluateJS_body (evaluateJS code (S retryCount)) code retryCount.
Proof.
  unfold maxRetries. intros H.
  destruct retryCount as [|[|n]]; [reflexivity | reflexivity | lia].
Qed.

(** X7. On a live connection with no health check due, the evaluation
    that follows an invalidating event does not go to the console actor that
    was cached, however recently: its first request is the first request of
    discovery. *)
Theorem invalidation_forces_discovery (fields : record) (ty code : jsstring)
        (c : client) (sock : Socket) :
  live c sock ->
  now c - lastSuccessfulOperation c <= HEALTH_CHECK_THRESHOLD_MS ->
  lookup K_type fields = Some (VStr ty) -> In ty ACTOR_INVALIDATING_EVENTS ->
  exists c' k,
    handleMessage (VObj fields) c = (Return tt, c') /\
    evaluateJS code 0 c' =
      Wait (AwaitRequest (S (messageIdCounter c))) (sent (discovery_request c') sock c') k.
Proof.
  intros (Hsock & Hconn & Hd & Hw) Hidle Hty Hin.
  rewrite (handleMessage_event fields ty c Hty (invalidating_are_events ty Hin)).
  rewrite (proj2 (Set_has_spec ACTOR_INVALIDATING_EVENTS ty) Hin).
  set (c1 := log (Emit (js "actorsInvalidated") [VStr ty]) (invalidateActorCache c)).
  destruct (emit_message_object fields c1) as (c' & He & Hs & _).
  destruct Hs as ((_ & Hs' & Hc' & _ & Hid & Hlast & _ & _ & Hnow & _) & Htab & Hact & Hat).
  change (socket c1) with (socket c) in Hs'. rewrite <- Hs' in Hsock.
  change (connected (state c1)) with (connected (state c)) in Hc'. rewrite <- Hc' in Hconn.
  change (messageIdCounter c1) with (messageIdCounter c) in Hid.
  change (lastSuccessfulOperation c1) with (lastSuccessfulOperation c) in Hlast.
  change (now c1) with (now c) in Hnow.
  change (currentTab (state c1)) with (@None TabActor) in Htab.
  change (consoleActor (state c1)) with VUndefined in Hact.
  change (consoleActorCachedAt c1) with 0 in Hat.
  assert (Hfresh : isActorCacheFresh c' = false)
    by (unfold isActorCacheFresh; rewrite Hact; reflexivity).
  assert (Hup : isConnected c' = (true, c')) by (now apply (isConnected_up c' sock)).
  destruct (evaluateJS_cached_stale (evaluateJS code 1) code 0 c' sock Hsock Hconn Hfresh)
    as (k & Hk).
  exists c', k. split; [exact He|].
  rewrite evaluateJS_unfold by (unfold maxRetries; lia).
  rewrite evaluateJS_body_direct.
  - rewrite Hk, Hid. rewrite invalidateActorCache_cleared by assumption. reflexivity.
  - exact Hup.
  - destruct (shouldCheckHealth c') eqn:E; [|reflexivity].
    apply shouldCheckHealth_spec in E. rewrite Hnow, Hlast in E. lia.
Qed.

Lemma invalidation_forces_discovery_witness :
  exists c' k,
    handleMessage (VObj Sample.navigated) Sample.cached = (Return tt, c') /\
    evaluateJS Sample.one_plus_one 0 c' =
      Wait (AwaitRequest 1) (sent (discovery_request c') Sample.sock c') k.
Proof.
  apply (invalidation_forces_discovery Sample.navigated (js "tabNavigated") Sample.one_plus_one
           Sample.cached Sample.sock).
  - repeat split.
  - vm_compute. discriminate.
  - reflexivity.
  - left. reflexivity.
Defined.

(** X8. A response that carries an [error] field rejects the oldest
    pending request, clears its timer and takes it out of the map; the error
    text is the response's [message] when that is a non-empty string, and the
    [error] field itself when there is no [message]. *)
Theorem error_response_rejects (fields : record) (c : client) (id : nat)
        (p : PendingRequest) (rest : list (nat * PendingRequest)) (err msg : jsstring) :
  response_frame (VObj fields) ->
  lookup K_error fields = Some (VStr err) -> err <> [] ->
  pendingRequests c = (id, p) :: rest -> ~ In id (map fst rest) ->
  (lookup K_message fields = Some (VStr msg) -> msg <> [] ->
   handleMessage (VObj fields) c =
     (Return tt, log (RejectRequest id msg) (set_pendingRequests rest (log (ClearTimeout id) c)))) /\
  (lookup K_message fields = None ->
   handleMessage (VObj fields) c =
     (Return tt, log (RejectRequest id err) (set_pendingRequests rest (log (ClearTimeout id) c)))).
Proof.
  intros Hf Herr Hne Hp Hfresh.
  pose proof (handleMessage_response (VObj fields) c id p rest Hf Hp Hfresh) as H.
  unfold respond, settlement, error_text in H.
  change (has_property K_error (VObj fields)) with (Some (has_field K_error fields)) in H.
  unfold has_field in H. rewrite Herr in H. cbn [get] in H. rewrite Herr in H.
  split.
  - intros Hm Hmne. rewrite Hm in H. destruct msg; [congruence|]. exact H.
  - intros Hm. rewrite Hm in H. destruct err; [congruence|]. exact H.
Qed.

Lemma error_response_rejects_witness :
  handleMessage Sample.answer2 Sample.busy =
    (Return tt, log (RejectRequest 1 (js "No such actor"))
                  (set_pendingRequests [(2%nat, {| request := Sample.request2 |})]
                     (log (ClearTimeout 1) Sample.busy))).
Proof.
  refine (proj1 (error_response_rejects _ Sample.busy 1 {| request := Sample.request1 |}
                   [(2%nat, {| request := Sample.request2 |})]
                   (js "unknownError") (js "No such actor") _ _ _ _ _) _ _).
  - split; [eexists; reflexivity | repeat split; reflexivity].
  - reflexivity.
  - discriminate.
  - reflexivity.
  - cbn. intros [H | []]. discriminate.
  - reflexivity.
  - discriminate.
Defined.

(** X9. When the timer of the oldest request fires, that request is
    rejected with [Request timeout for <type> to <to>] and leaves the map.  A
    response that comes in afterwards, be it the late answer to that very
    request, is attributed to the next request in line: that one leaves the
    map, its timer is cleared, and it is resolved or rejected by the
    response; if the error of the response cannot be built, the TypeError
    leaves [handleMessage] and the request is settled by nothing.  Either
    way the request that timed out is not settled a second time. *)
Theorem late_response_after_timeout (m : value) (c : client) (id1 id2 : nat)
        (p1 p2 : PendingRequest) (rest : list (nat * PendingRequest)) (ty to : jsstring) :
  response_frame m ->
  pendingRequests c = (id1, p1) :: (id2, p2) :: rest ->
  NoDup (id1 :: id2 :: map fst rest) ->
  lookup K_type (request p1) = Some (VStr ty) ->
  lookup K_to (request p1) = Some (VStr to) ->
  exists c1 c2,
    onRequestTimeout id1 (request p1) c = (Return tt, c1) /\
    trace c1 = trace c ++ [RejectRequest id1 (request_timeout ty to)] /\
    handleMessage m c1 =
      (match settlement id2 m with Some _ => Return tt | None => Throw TypeError end, c2) /\
    trace c2 = trace c1 ++ ClearTimeout id2 :: settled_by id2 m /\
    pendingRequests c2 = rest /\
    first_settlement (AwaitRequest id1) (ClearTimeout id2 :: settled_by id2 m) = None.
Proof.
  intros Hf Hp Hnd Hty Hto.
  inversion Hnd as [|? ? Hn1 Hnd']; subst. inversion Hnd' as [|? ? Hn2 _]; subst.
  unfold onRequestTimeout. cbn [get].
  change (js "to") with K_to. rewrite Hty, Hto. cbn [ToString].
  rewrite Hp. rewrite Map_delete_head by exact Hn1.
  match goal with |- context [(Return tt, ?x) = (Return tt, _)] => set (c1 := x) end.
  assert (Hp1 : pendingRequests c1 = (id2, p2) :: rest) by reflexivity.
  pose proof (handleMessage_response m c1 id2 p2 rest Hf Hp1 Hn2) as Hh.
  match type of Hh with _ = respond id2 m ?x => set (b := x) in Hh end.
  destruct (respond_spec id2 m b) as (R & T & Q).
  exists c1, (snd (respond id2 m b)).
  split; [reflexivity|]. split; [reflexivity|].
  split; [rewrite Hh, <- R; destruct (respond id2 m b); reflexivity|].
  split; [rewrite T; subst b; cbn [trace log set_trace set_pendingRequests];
          rewrite <- app_assoc; reflexivity|].
  split; [rewrite Q; reflexivity|].
  cbn [first_settlement settles]. apply settled_by_other.
  intros ->. apply Hn1. now left.
Qed.

Lemma late_response_after_timeout_witness :
  exists c1 c2,
    onRequestTimeout 1 Sample.request1 Sample.busy = (Return tt, c1) /\
    trace c1 = trace Sample.busy ++ [RejectRequest 1 (js "Request timeout for getRoot to root")] /\
    handleMessage Sample.answer1 c1 = (Return tt, c2) /\
    trace c2 = trace c1 ++ [ClearTimeout 2; ResolveRequest 2 Sample.answer1] /\
    pendingRequests c2 = [].
Proof.
  destruct (late_response_after_timeout Sample.answer1 Sample.busy 1 2
              {| request := Sample.request1 |} {| request := Sample.request2 |} []
              (js "getRoot") (js "root"))
    as (c1 & c2 & H1 & T1 & H2 & T2 & P & _).
  - split; [eexists; reflexivity | repeat split; reflexivity].
  - reflexivity.
  - repeat constructor; cbn; intuition discriminate.
  - reflexivity.
  - reflexivity.
  - exists c1, c2. repeat split; assumption.
Defined.

Lemma includes_prefix (p s : jsstring) : includes (p ++ s) p = true.
Proof.
  assert (H : startsWith (p ++ s) p = true).
  { induction p as [|ch p IH]; [reflexivity|]. cbn [startsWith app].
    now rewrite N.eqb_refl, IH. }
  unfold includes, indexOf. destruct (p ++ s); cbn [indexOf_at]; rewrite H; reflexivity.
Qed.

(** X10. [sendMessage] on a client without a socket or with the connection
    flag down throws the not-connected error and changes nothing: no id is
    taken, no timer armed, nothing written.  That error is one the retry
    logic classifies as a connection error. *)
Theorem sendMessage_not_connected (message : record) (c : client) :
  has_socket c && connected (state c) = false ->
  sendMessage message c = Done (Throw (not_connected_message c)) c /\
  isConnectionError (not_connected_message c) = true.
Proof.
  intros H. split.
  - unfold sendMessage, has_socket in *. destruct (socket c); [|reflexivity].
    cbn [andb] in H. rewrite H. reflexivity.
  - unfold isConnectionError, not_connected_message.
    change (js "Not connected to Zotero. Ensure:")
      with (js "Not connected" ++ js " to Zotero. Ensure:").
    rewrite <- app_assoc. rewrite includes_prefix. reflexivity.
Qed.

Lemma sendMessage_not_connected_witness :
  sendMessage Sample.request1 Sample.fresh_client =
    Done (Throw (not_connected_message Sample.fresh_client)) Sample.fresh_client /\
  isConnectionError (not_connected_message Sample.fresh_client) = true.
Proof. apply sendMessage_not_connected. reflexivity. Defined.

(** X11. For a message whose JSON text is ASCII the length prefix that
    [sendMessage] writes is the byte length of the payload, and the packet
    has as many bytes on the wire as it has code units. *)
Theorem ascii_prefix_is_byte_length (message : record) (sock : Socket) (c : client) :
  socket c = Some sock -> connected (state c) = true ->
  Forall (fun ch => (ch < 128)%N) (JSON_stringify message) ->
  let json := JSON_stringify message in
  trace (after (sendMessage message c)) =
    trace c ++ [SetTimeout (S (messageIdCounter c)) (timeout (options c));
                SocketWrite (sock_id sock) (Number_toString (byteLength json) ++ COLON ++ json)] /\
  byteLength (packet_of json) = len (packet_of json).
Proof.
  intros Hs Hc Hascii json. split.
  - rewrite (sendMessage_writes message sock c Hs Hc).
    unfold packet_of. fold json. rewrite byteLength_ascii by exact Hascii. reflexivity.
  - apply byteLength_ascii.
    destruct (packet_shape json) as (ds & Hp & _ & Hall & _). rewrite Hp.
    apply Forall_app. split.
    + eapply Forall_impl; [|exact Hall]. intros ch H. cbv beta in H. lia.
    + constructor; [reflexivity | exact Hascii].
Qed.

Lemma ascii_prefix_is_byte_length_witness :
  trace (after (sendMessage Sample.request1 Sample.ready)) =
    [SetTimeout 1 30000;
     SocketWrite 1 (Number_toString (byteLength (JSON_stringify Sample.request1)) ++ COLON ++
                    JSON_stringify Sample.request1)] /\
  byteLength (packet_of (JSON_stringify Sample.request1)) =
    len (packet_of (JSON_stringify Sample.request1)).
Proof.
  apply (ascii_prefix_is_byte_length Sample.request1 Sample.sock Sample.ready).
  - reflexivity.
  - reflexivity.
  - vm_compute. repeat constructor.
Defined.

(** ** The order of pending requests *)

Lemma handleIntro_pending (p : nat) (m : value) (c : client) :
  pendingRequests (snd (handleIntro p m c)) = pendingRequests c /\
  messageIdCounter (snd (handleIntro p m c)) = messageIdCounter c.
Proof.
  unfold handleIntro. destruct (has_property _ m) as [[|]|]; split; reflexivity.
Qed.

Lemma emit_message_pending (m : value) (c : client) :
  pendingRequests (snd (emit_message m c)) = pendingRequests c /\
  messageIdCounter (snd (emit_message m c)) = messageIdCounter c.
Proof.
  unfold emit_message.
  set (start := (Return tt, log (Emit (js "message") [m]) c)).
  assert (H0 : pendingRequests (snd start) = pendingRequests c /\
               messageIdCounter (snd start) = messageIdCounter c) by (split; reflexivity).
  revert H0. generalize start. clear start.
  induction (introListeners c) as [|p l IH]; intros start H0; simpl; [exact H0|].
  apply IH. destruct start as [[u|e] c']; [|exact H0].
  destruct (handleIntro_pending p m c') as [Hb He]. simpl in H0.
  split; [rewrite Hb | rewrite He]; apply H0.
Qed.

Lemma increasing_from_weaken (ids : list nat) : forall lo lo',
  (lo' <= lo)%nat -> increasing_from lo ids = true -> increasing_from lo' ids = true.
Proof.
  destruct ids as [|i r]; intros lo lo' Hle H; [reflexivity|].
  cbn [increasing_from] in *. apply andb_prop in H. destruct H as [H1 H2].
  apply Nat.ltb_lt in H1. rewrite H2, andb_true_r. apply Nat.ltb_lt. lia.
Qed.

Lemma increasing_from_filter (f : nat -> bool) (ids : list nat) : forall lo,
  increasing_from lo ids = true -> increasing_from lo (filter f ids) = true.
Proof.
  induction ids as [|i r IH]; intros lo H; [reflexivity|].
  cbn [increasing_from] in H. apply andb_prop in H. destruct H as [H1 H2].
  cbn [filter]. destruct (f i).
  - cbn [increasing_from]. rewrite H1. cbn [andb]. now apply IH.
  - apply IH. apply Nat.ltb_lt in H1. eapply increasing_from_weaken; [|exact H2]. lia.
Qed.

Lemma increasing_from_snoc (ids : list nat) : forall lo n,
  increasing_from lo ids = true -> Forall (fun i => (i <= n)%nat) ids -> (lo <= n)%nat ->
  increasing_from lo (ids ++ [S n]) = true.
Proof.
  induction ids as [|i r IH]; intros lo n H Hb Hlo.
  - cbn [increasing_from app]. rewrite andb_true_r. apply Nat.ltb_lt. lia.
  - cbn [increasing_from app] in *. apply andb_prop in H. destruct H as [H1 H2].
    inversion Hb as [|? ? Hi Hr]; subst. rewrite H1. cbn [andb]. now apply IH.
Qed.

Lemma increasing_from_above (ids : list nat) : forall lo,
  increasing_from lo ids = true -> Forall (fun i => (lo < i)%nat) ids.
Proof.
  induction ids as [|i r IH]; intros lo H; [constructor|].
  cbn [increasing_from] in H. apply andb_prop in H. destruct H as [H1 H2].
  apply Nat.ltb_lt in H1. constructor; [exact H1|].
  eapply Forall_impl; [|apply IH, H2]. intros x Hx. cbv beta in Hx. lia.
Qed.

Lemma Map_delete_ids {V} (k : nat) (m : list (nat * V)) :
  map fst (Map_delete k m) = filter (fun i => negb (Nat.eqb k i)) (map fst m).
Proof.
  unfold Map_delete. induction m as [|[k' v] r IH]; [reflexivity|].
  cbn [filter map fst]. destruct (Nat.eqb k k'); cbn [negb map fst]; now rewrite IH.
Qed.

Lemma pending_in_order_delete (k : nat) (c c' : client) :
  pending_in_order c ->
  pendingRequests c' = Map_delete k (pendingRequests c) ->
  messageIdCounter c' = messageIdCounter c ->
  pending_in_order c'.
Proof.
  unfold pending_in_order, pending_ids. intros [Hi Hb] Hp Hm.
  rewrite Hp, Hm, Map_delete_ids. split.
  - now apply increasing_from_filter.
  - apply Forall_forall. intros x Hx. apply filter_In in Hx. destruct Hx as [Hx _].
    eapply Forall_forall in Hb; eassumption.
Qed.

Lemma pending_in_order_same (c c' : client) :
  pending_in_order c ->
  pendingRequests c' = pendingRequests c ->
  messageIdCounter c' = messageIdCounter c ->
  pending_in_order c'.
Proof.
  unfold pending_in_order, pending_ids. intros H Hp Hm. now rewrite Hp, Hm.
Qed.

Lemma handleMessage_keeps_order (m : value) (c : client) :
  pending_in_order c -> pending_in_order (snd (handleMessage m c)).
Proof.
  intros H. unfold handleMessage.
  destruct (prop m K_type) as [ty|]; [|exact H].
  destruct (truthy ty && Set_has EVENT_TYPES ty).
  - destruct (Set_has ACTOR_INVALIDATING_EVENTS ty);
      match goal with |- context [emit_message m ?x] =>
        destruct (emit_message_pending m x) as [Hp Hm] end;
      (eapply pending_in_order_same; [exact H | exact Hp | exact Hm]).
  - destruct (is_acknowledgment m) as [[|]|]; try exact H.
    destruct (pendingRequests c) as [|[id pnd] rest] eqn:E.
    + destruct (emit_message_pending m c) as [Hp Hm].
      eapply pending_in_order_same; [exact H | exact Hp | exact Hm].
    + destruct (has_property K_error m) as [[|]|];
        try (eapply (pending_in_order_delete id); [exact H | rewrite E; reflexivity | reflexivity]).
      destruct (Error_new _);
        (eapply (pending_in_order_delete id); [exact H | rewrite E; reflexivity | reflexivity]).
Qed.

Lemma sendMessage_appends (message : record) (sock : Socket) (c : client) :
  pending_in_order c ->
  pendingRequests (sent message sock c) =
    pendingRequests c ++ [(S (messageIdCounter c), {| request := message |})].
Proof.
  intros [_ Hb]. rewrite (proj2 (proj2 (proj2 (sent_fields message sock c)))).
  apply Map_set_fresh. intro Hin.
  unfold pending_ids in Hb. eapply Forall_forall in Hb; [|exact Hin]. cbv beta in Hb. lia.
Qed.

(** A new client has nothing pending. *)
Lemma pending_in_order_new (o : RDPClientOptions) : pending_in_order (new_client o).
Proof. split; [reflexivity | constructor]. Qed.

(** X12. Once the pending requests are in the order of their ids with no id
    beyond the counter (as they are in a new client), they stay so: the
    order is kept by dispatching any message, by sending, by a request
    timeout, by a failed write and by [disconnect].  Hence a request sent on a
    connected client goes to the end of the line with the next id. *)
Theorem pending_order_invariant (c : client) :
  pending_in_order c ->
  (forall m, pending_in_order (snd (handleMessage m c))) /\
  (forall message, pending_in_order (after (sendMessage message c))) /\
  (forall message sock, socket c = Some sock -> connected (state c) = true ->
     pendingRequests (after (sendMessage message c)) =
       pendingRequests c ++ [(S (messageIdCounter c), {| request := message |})]) /\
  (forall id message, pending_in_order (snd (onRequestTimeout id message c))) /\
  (forall id err, pending_in_order (onWriteError id err c)) /\
  pending_in_order (disconnect c).
Proof.
  intros H. split; [|split; [|split; [|split; [|split]]]].
  - intros m. now apply handleMessage_keeps_order.
  - intros message.
    destruct (socket c) as [sock|] eqn:Hs; [destruct (connected (state c)) eqn:Hc|];
      [|unfold sendMessage; rewrite Hs, Hc; exact H | unfold sendMessage; rewrite Hs; exact H].
    rewrite (sendMessage_connected message sock c Hs Hc).
    change (after (await (AwaitRequest (S (messageIdCounter c))) (sent message sock c)))
      with (sent message sock c).
    pose proof (sendMessage_appends message sock c H) as Happ.
    destruct H as [Hi Hb]. unfold pending_in_order, pending_ids in *.
    rewrite Happ, map_app. cbn [map fst]. split.
    + apply increasing_from_snoc; [exact Hi | exact Hb | lia].
    + apply Forall_app. split.
      * eapply Forall_impl; [|exact Hb]. intros x Hx. cbv beta in Hx.
        change (x <= S (messageIdCounter c))%nat. lia.
      * constructor; [apply Nat.le_refl | constructor].
  - intros message sock Hs Hc. rewrite (sendMessage_connected message sock c Hs Hc).
    now apply sendMessage_appends.
  - intros id message. unfold onRequestTimeout.
    destruct (ToString (get (VObj message) K_type)),
             (ToString (get (VObj message) (js "to")));
      (eapply (pending_in_order_delete id); [exact H | reflexivity | reflexivity]).
  - intros id err. eapply (pending_in_order_delete id); [exact H | reflexivity | reflexivity].
  - destruct (disconnect_spec c) as (Hp & _). unfold pending_in_order, pending_ids.
    rewrite Hp. split; [reflexivity | constructor].
Qed.

Lemma pending_order_invariant_witness :
  pending_in_order (snd (handleMessage Sample.answer1 Sample.busy)) /\
  pending_in_order (after (sendMessage Sample.request3 Sample.busy)) /\
  pending_in_order (disconnect Sample.busy).
Proof.
  destruct (pending_order_invariant Sample.busy) as (Hm & Hs & _ & _ & _ & Hd).
  - split; [reflexivity|]. repeat constructor.
  - split; [apply Hm|]. split; [apply Hs | exact Hd].
Defined.

(** ** disconnect, close *)

Lemma disconnect_torn_down (d : client) :
  keepaliveTimer d = false -> socket d = None -> state d = createConnectionState ->
  pendingRequests d = [] -> disconnect d = d.
Proof.
  destruct d as [o s st p m b r l a f k e i el n fr t].
  cbn. intros -> -> -> ->. reflexivity.
Qed.

(** X13. [disconnect] is idempotent: a second call changes nothing and has
    no effect to perform (no interval to clear, no socket to destroy, no
    request to reject). *)
Theorem disconnect_idempotent (c : client) :
  disconnect (disconnect c) = disconnect c /\
  teardown_effects (disconnect c) = [].
Proof.
  destruct (disconnect_spec c) as (Hp & Hs & Hk & Hka & _ & _).
  split.
  - now apply disconnect_torn_down.
  - unfold teardown_effects. rewrite Hp, Hk, Hka. reflexivity.
Qed.

(** X14. When the socket closes, the socket reference and the connection
    flag are dropped, while the pending requests stay pending (none is
    settled; each is left to its own timer) and the cached console actor is
    kept.  A reconnection is scheduled exactly when the client was connected
    and has attempts left; the attempt count never decreases and never goes
    beyond the maximum once it is within it. *)
Theorem handleClose_spec (c : client) :
  let c' := handleClose c in
  socket c' = None /\ connected (state c') = false /\
  pendingRequests c' = pendingRequests c /\
  consoleActor (state c') = consoleActor (state c) /\
  (exists t, trace c' = trace c ++ t /\ existsb settles_request t = false /\
     (In (ScheduleReconnect (reconnectDelay (options c))) t <->
      connected (state c) = true /\ reconnectAttempts c < maxReconnectAttempts (options c))) /\
  (reconnectAttempts c <= maxReconnectAttempts (options c) ->
   reconnectAttempts c' <= maxReconnectAttempts (options c')) /\
  reconnectAttempts c <= reconnectAttempts c'.
Proof.
  unfold handleClose. cbv zeta.
  destruct (connected (state c)) eqn:Hc.
  - change (reconnectAttempts (log _ (set_socket None (set_connected false c))))
      with (reconnectAttempts c).
    change (options (log _ (set_socket None (set_connected false c)))) with (options c).
    destruct (reconnectAttempts c <? maxReconnectAttempts (options c)) eqn:E.
    + apply Z.ltb_lt in E. repeat split; try reflexivity; cbn; try lia.
      exists [Emit (js "disconnected") []; ScheduleReconnect (reconnectDelay (options c))].
      split; [rewrite <- app_assoc; reflexivity|]. split; [reflexivity|].
      split; [intros _; split; [reflexivity | exact E] | intros _; right; left; reflexivity].
    + apply Z.ltb_ge in E. repeat split; try reflexivity; cbn; try lia.
      exists [Emit (js "disconnected") []].
      split; [reflexivity|]. split; [reflexivity|].
      split; [intros [H | []]; discriminate | intros [_ H]; lia].
  - repeat split; try reflexivity; cbn; try lia.
    exists []. split; [now rewrite app_nil_r|]. split; [reflexivity|].
    split; [intros [] | intros [H _]; discriminate].
Qed.

(** ** Keepalive *)

Lemma armed_app (t d : list effect) : armed (t ++ d) = armed t + armed d.
Proof.
  induction t as [|e t IH]; [reflexivity|].
  destruct e; cbn [armed app]; rewrite IH; lia.
Qed.

Lemma armed_teardown_requests (l : list (nat * PendingRequest)) :
  armed (flat_map (fun req => [ClearTimeout (fst req); RejectRequest (fst req) CONNECTION_CLOSED]) l)
  = 0.
Proof. induction l as [|req l IH]; [reflexivity | exact IH]. Qed.

(** X15. At most one keepalive interval is armed.  If the intervals set and
    not cleared so far number one when the client holds a timer and none when
    it does not, the same is true after [startKeepalive], [stopKeepalive],
    [setKeepaliveEnabled], the connection callback and [disconnect]; after
    [disconnect] none is armed, and [startKeepalive] twice is [startKeepalive]
    once. *)
Theorem keepalive_single_interval (c : client) :
  armed (trace c) = keepalive_count c ->
  armed (trace (startKeepalive c)) = keepalive_count (startKeepalive c) /\
  armed (trace (stopKeepalive c)) = keepalive_count (stopKeepalive c) /\
  (forall enabled,
     armed (trace (setKeepaliveEnabled enabled c)) =
       keepalive_count (setKeepaliveEnabled enabled c)) /\
  armed (trace (onConnect c)) = keepalive_count (onConnect c) /\
  armed (trace (disconnect c)) = keepalive_count (disconnect c) /\
  keepalive_count (disconnect c) = 0 /\
  startKeepalive (startKeepalive c) = startKeepalive c.
Proof.
  intros H. unfold keepalive_count in *.
  assert (Hstart : forall d, armed (trace d) = (if keepaliveTimer d then 1 else 0) ->
            armed (trace (startKeepalive d)) = if keepaliveTimer (startKeepalive d) then 1 else 0).
  { intros d Hd. unfold startKeepalive.
    destruct (keepaliveTimer d) eqn:Ek; [cbn [orb]; now rewrite Ek|].
    destruct (isKeepaliveEnabled d); cbn [orb negb]; [|now rewrite Ek].
    change (KEEPALIVE_INTERVAL_MS <=? 0) with false. cbv iota.
    cbn [keepaliveTimer set_keepaliveTimer trace log set_trace].
    rewrite armed_app, Hd. reflexivity. }
  assert (Hstop : forall d, armed (trace d) = (if keepaliveTimer d then 1 else 0) ->
            armed (trace (stopKeepalive d)) = if keepaliveTimer (stopKeepalive d) then 1 else 0).
  { intros d Hd. unfold stopKeepalive.
    destruct (keepaliveTimer d) eqn:Ek; [|now rewrite Ek].
    cbn [keepaliveTimer set_keepaliveTimer trace log set_trace].
    rewrite armed_app, Hd. reflexivity. }
  split; [now apply Hstart|]. split; [now apply Hstop|].
  split; [|split; [|split; [|split]]].
  - intros enabled. unfold setKeepaliveEnabled. cbv zeta.
    destruct enabled; cbn [negb].
    + unfold isConnected.
      change (socket (set_isKeepaliveEnabled true c)) with (socket c).
      change (state (set_isKeepaliveEnabled true c)) with (state c).
      destruct (socket c) as [s|]; [|exact H].
      destruct (connected (state c)); cbn [negb]; [|exact H].
      destruct (destroyed s); [exact H|].
      destruct (writable s); cbn [negb]; [|exact H].
      apply Hstart. exact H.
    + apply Hstop. exact H.
  - unfold onConnect. cbv zeta.
    match goal with |- context [startKeepalive ?d] =>
      pose proof (Hstart d H) as Hd; set (c5 := startKeepalive d) in * end.
    cbn [trace log set_trace keepaliveTimer]. rewrite armed_app, Hd.
    cbn [armed]. lia.
  - destruct (disconnect_spec c) as (_ & _ & _ & Hka & _ & Ht).
    rewrite Ht, Hka, armed_app, H. unfold teardown_effects.
    rewrite !armed_app, armed_teardown_requests.
    destruct (keepaliveTimer c), (socket c); reflexivity.
  - destruct (disconnect_spec c) as (_ & _ & _ & Hka & _). now rewrite Hka.
  - unfold startKeepalive at 1.
    destruct (keepaliveTimer (startKeepalive c)) eqn:E1; [reflexivity|].
    unfold startKeepalive in *.
    destruct (keepaliveTimer c || negb (isKeepaliveEnabled c) || (KEEPALIVE_INTERVAL_MS <=? 0))
      eqn:E2; [rewrite E1 in E2; now rewrite E2 | discriminate].
Qed.

Lemma keepalive_single_interval_witness :
  armed (trace (onConnect Sample.fresh_client)) = 1 /\
  armed (trace (startKeepalive (onConnect Sample.fresh_client))) = 1 /\
  armed (trace (disconnect (onConnect Sample.fresh_client))) = 0.
Proof.
  destruct (keepalive_single_interval Sample.fresh_client) as (_ & _ & _ & Hc & _).
  - reflexivity.
  - destruct (keepalive_single_interval (onConnect Sample.fresh_client)) as (Hs & _ & _ & _ & Hd & Hz & _).
    + exact Hc.
    + split; [exact Hc|]. split; [exact Hs|]. rewrite Hd. exact Hz.
Defined.

Lemma connect_connecting (c : client) :
  connected (state c) && has_socket c = false ->
  connect c = (await (AwaitConnect (fresh c)) ;; ret tt)%async (connecting c).
Proof. intros H. unfold connect. rewrite H. reflexivity. Qed.

(** ** The handshake *)

(** When the intro listeners fire, the connect that registered last is
    resolved. *)
Lemma first_settlement_own_connect (l : list nat) (p : nat) :
  first_settlement (AwaitConnect p) (map ResolveConnect (l ++ [p])) =
    Some (Fulfilled VUndefined).
Proof.
  induction l as [|q l IH]; cbn [map app first_settlement settles].
  - rewrite Nat.eqb_refl. reflexivity.
  - destruct (Nat.eqb q p); [reflexivity | exact IH].
Qed.

(** The connection callback raises the flag, resets the attempt counter and
    settles nothing. *)
Lemma onConnect_spec (c : client) :
  connected (state (onConnect c)) = true /\
  socket (onConnect c) = socket c /\
  introListeners (onConnect c) = introListeners c /\
  pendingRequests (onConnect c) = pendingRequests c /\
  reconnectAttempts (onConnect c) = 0 /\
  root (state (onConnect c)) = root (state c) /\
  exists d, trace (onConnect c) = trace c ++ d /\
            forall p, first_settlement (AwaitConnect p) d = None.
Proof.
  unfold onConnect. cbv zeta. unfold startKeepalive.
  match goal with |- context [if ?b then _ else _] => destruct b end.
  - repeat split. exists [Emit (js "connected") []]. split; reflexivity.
  - repeat split. exists [SetInterval KEEPALIVE_INTERVAL_MS; Emit (js "connected") []].
    split; [|reflexivity]. cbn [trace log set_trace set_keepaliveTimer].
    rewrite <- app_assoc. reflexivity.
Qed.

(** A frame that is neither an event nor an acknowledgment is emitted when
    nothing is pending, and is the response to the oldest request otherwise. *)
Lemma handleMessage_unsolicited (fields : record) (c1 : client) :
  is_event (VObj fields) = false -> is_acknowledgment (VObj fields) = Some false ->
  pendingRequests c1 = [] ->
  handleMessage (VObj fields) c1 = emit_message (VObj fields) c1.
Proof.
  intros Hev Hack Hp. unfold handleMessage.
  change (prop (VObj fields) K_type) with (Some (get (VObj fields) K_type)).
  cbv beta iota. unfold is_event in Hev. rewrite Hev, Hack, Hp. reflexivity.
Qed.

Lemma handleMessage_oldest (fields : record) (c1 : client) (id : nat) (p : PendingRequest)
      (rest : list (nat * PendingRequest)) :
  is_event (VObj fields) = false -> is_acknowledgment (VObj fields) = Some false ->
  pendingRequests c1 = (id, p) :: rest ->
  handleMessage (VObj fields) c1 =
    respond id (VObj fields)
      (set_pendingRequests (Map_delete id (pendingRequests c1)) (log (ClearTimeout id) c1)).
Proof.
  intros Hev Hack Hp. unfold handleMessage.
  change (prop (VObj fields) K_type) with (Some (get (VObj fields) K_type)).
  cbv beta iota. unfold is_event in Hev. rewrite Hev, Hack. rewrite Hp at 1.
  unfold respond, settlement, error_text.
  change (has_property K_error (VObj fields)) with (Some (has_field K_error fields)).
  destruct (has_field K_error fields); [|reflexivity].
  destruct (Error_new _); reflexivity.
Qed.

(** Settling a request settles no connect. *)
Lemma settled_by_no_connect (id p : nat) (m : value) :
  first_settlement (AwaitConnect p) (ClearTimeout id :: settled_by id m) = None.
Proof.
  cbn [first_settlement settles]. unfold settled_by, settlement.
  destruct (has_property K_error m) as [[|]|]; try reflexivity.
  destruct (error_text m); reflexivity.
Qed.

(** What a callback does while a call waits, step by step. *)
Lemma react_waiting {A} (f : client -> client) (w : awaited) (c : client)
      (k : settled -> client -> step A) (d : list effect) :
  trace (f c) = trace c ++ d ->
  react f (Wait w c k) =
    match first_settlement w d with
    | Some r => k r (f c)
    | None => Wait w (f c) k
    end.
Proof. intros H. cbn [react]. rewrite H, skipn_own_length. reflexivity. Qed.

(** [connect()] after the connection callback: the call waits for the
    intro packet. *)
Lemma connect_opened (c : client) :
  connected (state c) && has_socket c = false ->
  exists k,
    react onConnect (connect c) =
      Wait (AwaitConnect (fresh c)) (onConnect (connecting c)) k /\
    forall v c', k (Fulfilled v) c' = Done (Return tt) c'.
Proof.
  intros Hdown. rewrite (connect_connecting c Hdown).
  unfold bind, await. cbn [bind_step].
  destruct (onConnect_spec (connecting c)) as (_ & _ & _ & _ & _ & _ & d & Hd & Hnone).
  rewrite (react_waiting _ _ _ _ d Hd), Hnone.
  eexists. split; [reflexivity|]. intros v c'. reflexivity.
Qed.

(** What the dispatch of a response does to the client. *)
Lemma handleMessage_oldest_spec (fields : record) (c1 : client) (id : nat)
      (p : PendingRequest) (rest : list (nat * PendingRequest)) :
  is_event (VObj fields) = false -> is_acknowledgment (VObj fields) = Some false ->
  pendingRequests c1 = (id, p) :: rest ->
  let c' := snd (handleMessage (VObj fields) c1) in
  trace c' = trace c1 ++ ClearTimeout id :: settled_by id (VObj fields) /\
  pendingRequests c' = Map_delete id (pendingRequests c1) /\
  root (state c') = root (state c1) /\
  introListeners c' = introListeners c1.
Proof.
  intros Hev Hack Hp c'. subst c'.
  rewrite (handleMessage_oldest fields c1 id p rest Hev Hack Hp).
  unfold respond, settled_by.
  destruct (settlement id (VObj fields)); cbn [snd trace log set_trace set_pendingRequests];
    rewrite <- ?app_assoc; repeat split.
Qed.

(** X16. The handshake.  [connect()] on a client that is not connected
    opens a socket and waits.  Once the connection callback has run, a
    message that carries an application type (and is neither an event nor
    an acknowledgment) is dispatched.  With no request pending it is
    emitted, and completes the call and every other connect still in flight:
    the call returns, the root holds the application type and traits of that
    message, no intro listener is left, the flag is up and the attempt
    counter is 0.  With a request pending (one that outlived a closed
    socket), the message is taken for the response to the oldest request
    instead: it is not emitted, the root is not set, the intro listener stays
    and the call goes on waiting. *)
Theorem intro_completes_connect (fields : record) (c : client) :
  connected (state c) && has_socket c = false ->
  is_event (VObj fields) = false -> is_acknowledgment (VObj fields) = Some false ->
  has_field (js "applicationType") fields = true ->
  (pendingRequests c = [] ->
   exists c',
     deliver (VObj fields) (react onConnect (connect c)) = Done (Return tt) c' /\
     root (state c') = Some (root_of (VObj fields)) /\
     connected (state c') = true /\
     socket c' = Some (new_socket c) /\
     introListeners c' = [] /\
     reconnectAttempts c' = 0 /\
     trace c' = trace (onConnect (connecting c)) ++
                Emit (js "message") [VObj fields] ::
                map ResolveConnect (introListeners c ++ [fresh c])) /\
  (forall id p rest, pendingRequests c = (id, p) :: rest ->
   exists c' k,
     deliver (VObj fields) (react onConnect (connect c)) =
       Wait (AwaitConnect (fresh c)) c' k /\
     root (state c') = root (state c) /\
     introListeners c' = introListeners c ++ [fresh c] /\
     pendingRequests c' = Map_delete id (pendingRequests c) /\
     trace c' = trace (onConnect (connecting c)) ++
                ClearTimeout id :: settled_by id (VObj fields)).
Proof.
  intros Hdown Hev Hack Happ.
  destruct (connect_opened c Hdown) as (k & Hk & Hres). rewrite Hk. clear Hk.
  destruct (onConnect_spec (connecting c))
    as (Hconn & Hsock & Hl & Hp & Hra & Hroot & _).
  change (introListeners (connecting c)) with (introListeners c ++ [fresh c]) in Hl.
  change (pendingRequests (connecting c)) with (pendingRequests c) in Hp.
  change (socket (connecting c)) with (Some (new_socket c)) in Hsock.
  change (root (state (connecting c))) with (root (state c)) in Hroot.
  set (opened := onConnect (connecting c)) in *.
  unfold deliver.
  split.
  - intros Hnil. rewrite Hnil in Hp.
    destruct (emit_message_object fields opened) as (c' & He & Hs & Htr & Hr & Hli).
    rewrite Happ, Hl in Htr, Hr. rewrite Happ in Hli.
    assert (Hf : snd (handleMessage (VObj fields) opened) = c')
      by (rewrite (handleMessage_unsolicited fields opened Hev Hack Hp), He; reflexivity).
    rewrite (react_waiting _ _ _ _ _ (eq_trans (f_equal trace Hf) Htr)).
    cbn [first_settlement settles]. rewrite first_settlement_own_connect, Hres, Hf.
    exists c'. split; [reflexivity|].
    destruct Hs as ((_ & Hsock' & Hconn' & _ & _ & _ & _ & _ & _ & Hra') & _).
    split; [rewrite Hr; destruct (introListeners c); reflexivity|].
    split; [rewrite Hconn'; exact Hconn|].
    split; [rewrite Hsock'; exact Hsock|].
    split; [exact Hli|].
    split; [rewrite Hra'; exact Hra|].
    exact Htr.
  - intros id p rest Hpend.
    destruct (handleMessage_oldest_spec fields opened id p rest Hev Hack)
      as (Ht & Hq & Hr & Hli); [rewrite Hp; exact Hpend|].
    rewrite (react_waiting _ _ _ _ _ Ht), settled_by_no_connect.
    exists (snd (handleMessage (VObj fields) opened)), k.
    split; [reflexivity|].
    split; [rewrite Hr; exact Hroot|].
    split; [rewrite Hli; exact Hl|].
    split; [rewrite Hq, Hp; reflexivity|].
    exact Ht.
Qed.

Lemma intro_completes_connect_witness :
  (exists c',
     deliver Sample.intro (react onConnect (connect Sample.fresh_client)) = Done (Return tt) c' /\
     root (state c') = Some (root_of Sample.intro) /\
     connected (state c') = true /\
     introListeners c' = []) /\
  (exists c' k,
     deliver Sample.intro (react onConnect (connect (handleClose Sample.busy))) =
       Wait (AwaitConnect 2) c' k /\
     root (state c') = root (state Sample.busy) /\
     introListeners c' = [2%nat] /\
     trace c' = trace (onConnect (connecting (handleClose Sample.busy))) ++
                [ClearTimeout 1; ResolveRequest 1 Sample.intro]).
Proof.
  split.
  - destruct (intro_completes_connect
                [(js "from", VStr (js "root")); (js "applicationType", VStr (js "app"));
                 (js "traits", VObj [])] Sample.fresh_client)
      as ((c' & H & Hr & Hc & _ & Hl & _) & _); try reflexivity.
    exists c'. repeat split; assumption.
  - destruct (intro_completes_connect
                [(js "from", VStr (js "root")); (js "applicationType", VStr (js "app"));
                 (js "traits", VObj [])] (handleClose Sample.busy))
      as (_ & Hpend); try reflexivity.
    destruct (Hpend 1%nat {| request := Sample.request1 |}
                [(2%nat, {| request := Sample.request2 |})] eq_refl)
      as (c' & k & H & Hr & Hl & _ & Ht).
    exists c', k. repeat split; assumption.
Defined.

(** X17. If the socket reports an error while [connect()] waits, the call
    is rejected with [Cannot connect to Zotero RDP at <host>:<port>. ...
    Original error: <text>], the intro listener is removed, the flag is down
    and no reconnection is scheduled. *)
Theorem connect_fails_on_socket_error (err : jserror) (c : client) :
  connected (state c) && has_socket c = false ->
  introListeners c = [] ->
  exists c',
    react (fun d => snd (onSocketError (fresh c) err d)) (connect c) =
      Done (Throw (cannot_connect c err)) c' /\
    connected (state c') = false /\
    introListeners c' = [] /\
    socket c' = Some (new_socket c) /\
    existsb (fun e => match e with ScheduleReconnect _ => true | _ => false end)
      (skipn (List.length (trace c)) (trace c')) = false.
Proof.
  intros Hdown Hl.
  rewrite (connect_connecting c Hdown).
  unfold bind, await. cbn [bind_step react].
  unfold onSocketError, handleError. cbn [snd].
  cbn [trace log set_trace set_connected set_state set_introListeners connecting set_socket
       set_fresh].
  rewrite skipn_own_length. cbn [first_settlement settles]. rewrite Nat.eqb_refl.
  cbn [bind_step].
  eexists. split; [reflexivity|].
  split; [reflexivity|]. split.
  - cbn. rewrite Hl. cbn. rewrite Nat.eqb_refl. reflexivity.
  - split; [reflexivity|].
    cbn [trace log set_trace set_connected set_state set_introListeners connecting set_socket
         set_fresh].
    rewrite <- app_assoc, skipn_own_length. reflexivity.
Qed.

Lemma connect_fails_on_socket_error_witness :
  exists c',
    react (fun d => snd (onSocketError 0 Sample.refused d)) (connect Sample.fresh_client) =
      Done (Throw (cannot_connect Sample.fresh_client Sample.refused)) c' /\
    connected (state c') = false /\ introListeners c' = [].
Proof.
  destruct (connect_fails_on_socket_error Sample.refused Sample.fresh_client)
    as (c' & H & Hc & Hl & _); try reflexivity.
  exists c'. repeat split; assumption.
Defined.

(** ** evaluateJS: what becomes of a rejected evaluation *)

Lemma evaluateJS_cached_outcomes (self : async value) (code : jsstring) (retryCount : nat)
      (c : client) (sock : Socket) :
  socket c = Some sock -> connected (state c) = true ->
  isActorCacheFresh c = true ->
  exists k,
    evaluateJS_cached self code retryCount c =
      Wait (AwaitRequest (S (messageIdCounter c)))
           (sent (evaluate_request (consoleActor (state c)) code) sock c) k /\
    (forall v c',
       k (Fulfilled v) c' =
         Done (Return v) (set_consecutiveFailures 0 (set_lastSuccessfulOperation (now c') c'))) /\
    (forall e c', isActorError e = true -> (retryCount < maxRetries)%nat ->
       exists k',
         k (Rejected e) c' =
           Wait (AwaitDelay (100 * (Z.of_nat retryCount + 1)))
                (invalidateActorCache (set_consecutiveFailures (S (consecutiveFailures c')) c'))
                k' /\
         forall v c'', k' (Fulfilled v) c'' = self c'') /\
    (forall e c', isActorError e = false -> isConnectionError e = true ->
       (retryCount < maxRetries)%nat ->
       exists k',
         k (Rejected e) c' =
           Wait (AwaitDelay (backoffMs (S (consecutiveFailures c'))))
                (set_consecutiveFailures (S (consecutiveFailures c')) c') k' /\
         forall v c'', k' (Fulfilled v) c'' = (reconnect ;; self)%async c'') /\
    (forall e c',
       (isActorError e = false /\ isConnectionError e = false) \/ retryCount = maxRetries ->
       k (Rejected e) c' =
         Done (Throw e) (set_consecutiveFailures (S (consecutiveFailures c')) c')).
Proof.
  intros Hs Hc Hfresh.
  assert (Ht : truthy (consoleActor (state c)) = true).
  { unfold isActorCacheFresh in Hfresh. destruct (truthy _); [reflexivity | discriminate]. }
  unfold evaluateJS_cached.
  unfold bind at 1. unfold gets at 1. cbn [bind_step]. rewrite Hfresh. cbn [negb].
  unfold bind at 1. unfold ret at 1. cbn [bind_step].
  unfold bind at 1. unfold gets at 1. cbn [bind_step]. rewrite Ht. cbn [negb].
  unfold bind at 1. unfold ret at 1. cbn [bind_step].
  unfold bind at 1. unfold gets at 1. cbn [bind_step]. rewrite Ht. cbn [negb].
  unfold try_catch. unfold bind at 1.
  rewrite (sendMessage_connected _ sock c Hs Hc).
  eexists. split; [reflexivity|].
  split; [|split; [|split]].
  - intros v c'. reflexivity.
  - intros e c' Ha Hretry. apply Nat.ltb_lt in Hretry. cbn [bind_step catch_step].
    unfold evaluateJS_catch. unfold bind at 1. unfold modify at 1. cbn [bind_step].
    rewrite Ha, Hretry. cbn [andb].
    unfold bind at 1. unfold modify at 1. cbn [bind_step].
    unfold bind at 1. unfold delay. unfold bind at 1. unfold await. cbn [bind_step].
    eexists. split; [reflexivity|]. intros v c''. reflexivity.
  - intros e c' Ha He Hretry. apply Nat.ltb_lt in Hretry. cbn [bind_step catch_step].
    unfold evaluateJS_catch. unfold bind at 1. unfold modify at 1. cbn [bind_step].
    rewrite Ha, He, Hretry. cbn [andb].
    unfold bind at 1. unfold gets at 1. cbn [bind_step].
    unfold bind at 1. unfold delay. unfold bind at 1. unfold await. cbn [bind_step].
    eexists. split; [reflexivity|]. intros v c''. reflexivity.
  - intros e c' H. cbn [bind_step catch_step].
    unfold evaluateJS_catch. unfold bind at 1. unfold modify at 1. cbn [bind_step].
    destruct H as [[Ha He] | ->].
    + rewrite Ha, He. reflexivity.
    + change (maxRetries <? maxRetries)%nat with false. rewrite !andb_false_r. reflexivity.
Qed.

(** X18. What [evaluateJS(code)] does with the answer to its evaluation
    request (live connection, no health check due, fresh cache).  A response
    is returned, and resets the failure count and the time of last success.  A
    rejection counts one failure; then, if the text contains [No such actor],
    the cache is cleared and the call is made again after 100 ms; else if it
    is a connection error, the call waits the backoff of the failure count,
    reconnects and is made again; any other error is thrown to the caller at
    once. *)
Theorem evaluateJS_retry_policy (code : jsstring) (c : client) (sock : Socket) :
  live c sock ->
  now c - lastSuccessfulOperation c <= HEALTH_CHECK_THRESHOLD_MS ->
  isActorCacheFresh c = true ->
  exists k,
    evaluateJS code 0 c =
      Wait (AwaitRequest (S (messageIdCounter c)))
           (sent (evaluate_request (consoleActor (state c)) code) sock c) k /\
    (forall v c',
       k (Fulfilled v) c' =
         Done (Return v) (set_consecutiveFailures 0 (set_lastSuccessfulOperation (now c') c'))) /\
    (forall e c', isActorError e = true ->
       exists k',
         k (Rejected e) c' =
           Wait (AwaitDelay 100)
                (invalidateActorCache (set_consecutiveFailures (S (consecutiveFailures c')) c'))
                k' /\
         forall v c'', k' (Fulfilled v) c'' = evaluateJS code 1 c'') /\
    (forall e c', isActorError e = false -> isConnectionError e = true ->
       exists k',
         k (Rejected e) c' =
           Wait (AwaitDelay (backoffMs (S (consecutiveFailures c'))))
                (set_consecutiveFailures (S (consecutiveFailures c')) c') k' /\
         forall v c'', k' (Fulfilled v) c'' = (reconnect ;; evaluateJS code 1)%async c'') /\
    (forall e c', isActorError e = false -> isConnectionError e = false ->
       k (Rejected e) c' =
         Done (Throw e) (set_consecutiveFailures (S (consecutiveFailures c')) c')).
Proof.
  intros Hlive Hidle Hfresh.
  pose proof (live_isConnected c sock Hlive) as Hup.
  destruct Hlive as (Hs & Hc & _ & _).
  rewrite evaluateJS_unfold by (unfold maxRetries; lia).
  rewrite evaluateJS_body_direct.
  2: exact Hup.
  2:{ destruct (shouldCheckHealth c) eqn:E; [|reflexivity].
      apply shouldCheckHealth_spec in E. lia. }
  destruct (evaluateJS_cached_outcomes (evaluateJS code 1) code 0 c sock Hs Hc Hfresh)
    as (k & Hk & Hok & Hactor & Hconn & Hother).
  exists k. split; [exact Hk|]. split; [exact Hok|].
  split; [|split].
  - intros e c' Ha. apply (Hactor e c' Ha). unfold maxRetries. lia.
  - intros e c' Ha He. apply (Hconn e c' Ha He). unfold maxRetries. lia.
  - intros e c' Ha He. apply Hother. left. now split.
Qed.

Lemma evaluateJS_retry_policy_witness :
  exists k,
    evaluateJS Sample.one_plus_one 0 Sample.cached =
      Wait (AwaitRequest 1)
           (sent (evaluate_request Sample.console9 Sample.one_plus_one) Sample.sock
                 Sample.cached) k /\
    (exists k', k (Rejected (js "No such actor")) Sample.cached =
       Wait (AwaitDelay 100)
            (invalidateActorCache (set_consecutiveFailures 1 Sample.cached)) k') /\
    (exists k', k (Rejected (js "read ECONNRESET")) Sample.cached =
       Wait (AwaitDelay 1000) (set_consecutiveFailures 1 Sample.cached) k') /\
    k (Rejected (js "boom")) Sample.cached =
      Done (Throw (js "boom")) (set_consecutiveFailures 1 Sample.cached).
Proof.
  destruct (evaluateJS_retry_policy Sample.one_plus_one Sample.cached Sample.sock)
    as (k & Hk & _ & Ha & Hc & Ho).
  - repeat split.
  - vm_compute. discriminate.
  - reflexivity.
  - exists k. split; [exact Hk|]. split; [|split].
    + destruct (Ha (js "No such actor") Sample.cached) as (k' & H & _); [reflexivity|].
      exists k'. exact H.
    + destruct (Hc (js "read ECONNRESET") Sample.cached) as (k' & H & _);
        [reflexivity | reflexivity |].
      exists k'. exact H.
    + apply Ho; reflexivity.
Defined.

(** X19. The third attempt of [evaluateJS] (retry count 2) is the last: if
    the client is not connected it throws the not-connected error without
    reconnecting, and if its evaluation request is rejected, the error is
    thrown to the caller whatever its text. *)
Theorem evaluateJS_last_attempt_throws (code : jsstring) (c : client) (sock : Socket) :
  (fst (isConnected c) = false ->
   evaluateJS code maxRetries c =
     Done (Throw (not_connected_message c)) (snd (isConnected c))) /\
  (live c sock -> isActorCacheFresh c = true ->
   exists k,
     evaluateJS code maxRetries c =
       Wait (AwaitRequest (S (messageIdCounter c)))
            (sent (evaluate_request (consoleActor (state c)) code) sock c) k /\
     forall e c',
       k (Rejected e) c' =
         Done (Throw e) (set_consecutiveFailures (S (consecutiveFailures c')) c')).
Proof.
  change (evaluateJS code maxRetries)
    with (evaluateJS_body (throw (js "unreachable")) code maxRetries).
  split.
  - intros Hdown. unfold evaluateJS_body. unfold bind at 1. unfold call.
    destruct (isConnected c) as [up c'] eqn:E. cbn [fst snd] in *. subst up.
    cbn [bind_step negb].
    change (maxRetries <? maxRetries)%nat with false. cbv iota.
    assert (Ho : options c' = options c).
    { unfold isConnected in E.
      destruct (socket c) as [s|];
        [destruct (negb (connected (state c)));
           [|destruct (destroyed s); [|destruct (negb (writable s))]]|];
        solve [discriminate | injection E as <-; reflexivity]. }
    unfold not_connected_message. rewrite Ho. reflexivity.
  - intros Hlive Hfresh.
    pose proof (live_isConnected c sock Hlive) as Hup.
    destruct Hlive as (Hs & Hc & _ & _).
    rewrite evaluateJS_body_direct; [|exact Hup | reflexivity].
    destruct (evaluateJS_cached_outcomes (throw (js "unreachable")) code maxRetries c sock
                Hs Hc Hfresh) as (k & Hk & _ & _ & _ & Hother).
    exists k. split; [exact Hk|]. intros e c'. apply Hother. now right.
Qed.

Lemma evaluateJS_last_attempt_throws_witness :
  evaluateJS Sample.one_plus_one maxRetries Sample.fresh_client =
    Done (Throw (not_connected_message Sample.fresh_client)) Sample.fresh_client.
Proof.
  apply (proj1 (evaluateJS_last_attempt_throws Sample.one_plus_one Sample.fresh_client Sample.sock)).
  reflexivity.
Defined.

Lemma reject_all_failures (l : list (nat * PendingRequest)) (c : client) :
  consecutiveFailures
    (fold_left (fun acc req => log (RejectRequest (fst req) CONNECTION_CLOSED)
                                 (log (ClearTimeout (fst req)) acc)) l c)
  = consecutiveFailures c.
Proof.
  revert c. induction l as [|req l IH]; intros c; [reflexivity|].
  cbn [fold_left]. rewrite IH. reflexivity.
Qed.

Lemma disconnect_failures (c : client) :
  consecutiveFailures (disconnect c) = consecutiveFailures c.
Proof.
  unfold disconnect. cbv zeta.
  change (consecutiveFailures (set_pendingRequests [] ?x)) with (consecutiveFailures x).
  cbn [consecutiveFailures set_pendingRequests]. rewrite reject_all_failures.
  unfold stopKeepalive.
  destruct (keepaliveTimer c); cbn [socket set_keepaliveTimer log set_trace];
    destruct (socket c); reflexivity.
Qed.

Lemma Map_set_key {V} (k : nat) (v : V) (m : list (nat * V)) : In k (map fst (Map_set k v m)).
Proof.
  induction m as [|[k' v'] r IH]; cbn [Map_set]; [now left|].
  destruct (Nat.eqb_spec k k'); [now left | right; exact IH].
Qed.

Lemma teardown_rejects (id : nat) (l : list (nat * PendingRequest)) :
  In id (map fst l) ->
  first_settlement (AwaitRequest id)
    (flat_map (fun req => [ClearTimeout (fst req); RejectRequest (fst req) CONNECTION_CLOSED]) l)
  = Some (Rejected CONNECTION_CLOSED).
Proof.
  induction l as [|[i p] l IH]; intros H; [contradiction|].
  cbn [flat_map app first_settlement settles fst].
  destruct (Nat.eqb_spec i id) as [-> | Hne]; [reflexivity|].
  apply IH. destruct H as [H | H]; [cbn in H; congruence | exact H].
Qed.

Lemma first_settlement_teardown (id : nat) (c : client) :
  In id (pending_ids c) ->
  first_settlement (AwaitRequest id) (teardown_effects c) = Some (Rejected CONNECTION_CLOSED).
Proof.
  intros H. unfold teardown_effects.
  rewrite first_settlement_app_none by (destruct (keepaliveTimer c); reflexivity).
  rewrite first_settlement_app_none by (destruct (socket c); reflexivity).
  now apply teardown_rejects.
Qed.

(** X20. If the socket's idle timeout fires while an evaluation request is
    in flight, [disconnect] rejects the request with "Connection closed", and
    the evaluation does not fail: it counts one failure, waits the backoff of
    that count, then reconnects and evaluates again. *)
Theorem evaluation_survives_timeout (code : jsstring) (c : client) (sock : Socket) :
  live c sock ->
  now c - lastSuccessfulOperation c <= HEALTH_CHECK_THRESHOLD_MS ->
  isActorCacheFresh c = true ->
  let request := evaluate_request (consoleActor (state c)) code in
  exists k,
    react handleTimeout (evaluateJS code 0 c) =
      Wait (AwaitDelay (backoffMs (S (consecutiveFailures c))))
           (set_consecutiveFailures (S (consecutiveFailures c))
              (handleTimeout (sent request sock c))) k /\
    In (RejectRequest (S (messageIdCounter c)) CONNECTION_CLOSED)
       (trace (handleTimeout (sent request sock c))) /\
    forall v c', k (Fulfilled v) c' = (reconnect ;; evaluateJS code 1)%async c'.
Proof.
  intros Hlive Hidle Hfresh request.
  pose proof (live_isConnected c sock Hlive) as Hup.
  destruct Hlive as (Hs & Hc & _ & _).
  rewrite evaluateJS_unfold by (unfold maxRetries; lia).
  rewrite evaluateJS_body_direct.
  2: exact Hup.
  2:{ destruct (shouldCheckHealth c) eqn:E; [|reflexivity].
      apply shouldCheckHealth_spec in E. lia. }
  destruct (evaluateJS_cached_outcomes (evaluateJS code 1) code 0 c sock Hs Hc Hfresh)
    as (k & Hk & _ & _ & Hconn & _).
  fold request in Hk. rewrite Hk. cbn [react]. cbv zeta.
  set (c1 := sent request sock c).
  set (c2 := log (Emit (js "timeout") []) c1).
  assert (Hin : In (S (messageIdCounter c)) (pending_ids c2)).
  { unfold pending_ids. change (pendingRequests c2) with (pendingRequests c1).
    subst c1. rewrite (proj2 (proj2 (proj2 (sent_fields request sock c)))).
    apply Map_set_key. }
  assert (Ht : trace (handleTimeout c1) = trace c1 ++ Emit (js "timeout") [] :: teardown_effects c2).
  { unfold handleTimeout. fold c2. destruct (disconnect_spec c2) as (_ & _ & _ & _ & _ & H).
    rewrite H. subst c2. cbn [trace log set_trace]. now rewrite <- app_assoc. }
  destruct (Hconn CONNECTION_CLOSED (handleTimeout c1)) as (k' & Hk' & Hresume);
    [reflexivity | reflexivity | unfold maxRetries; lia |].
  assert (Hf : consecutiveFailures (handleTimeout c1) = consecutiveFailures c).
  { unfold handleTimeout. rewrite disconnect_failures. reflexivity. }
  rewrite Hf in Hk'.
  exists k'. split; [|split; [|exact Hresume]].
  - rewrite Ht, skipn_own_length. cbn [first_settlement settles].
    rewrite (first_settlement_teardown _ c2 Hin). exact Hk'.
  - rewrite Ht. apply in_or_app. right. right.
    unfold teardown_effects. apply in_or_app. right. apply in_or_app. right.
    apply in_flat_map. unfold pending_ids in Hin. apply in_map_iff in Hin.
    destruct Hin as (req & Hreq & Hin). exists req. split; [exact Hin|].
    rewrite Hreq. right. left. reflexivity.
Qed.

Lemma evaluation_survives_timeout_witness :
  exists k,
    react handleTimeout (evaluateJS Sample.one_plus_one 0 Sample.cached) =
      Wait (AwaitDelay 1000)
           (set_consecutiveFailures 1
              (handleTimeout (sent (evaluate_request Sample.console9 Sample.one_plus_one)
                                Sample.sock Sample.cached))) k.
Proof.
  destruct (evaluation_survives_timeout Sample.one_plus_one Sample.cached Sample.sock)
    as (k & H & _).
  - repeat split.
  - vm_compute. discriminate.
  - reflexivity.
  - exists k. exact H.
Defined.

(** ** withRetry *)

Section Retry.

Context {T : Type}.

Lemma withRetry_attempt (operation : async T) (retries : Z) (invalidate : bool)
      (name : jsstring) (n : nat) (attempt : Z) (last : option jserror) (c : client) :
  isConnected c = (true, c) -> attempt <= retries ->
  withRetry_loop operation retries invalidate name (S n) attempt last c =
    bind_step
      (catch_step
         (bind_step (operation c)
            (fun result => (modify (fun c => set_consecutiveFailures 0
                                               (set_lastSuccessfulOperation (now c) c)) ;;
                            ret (inl result))%async))
         (fun error => ret (inr error)))
      (fun tried =>
         match tried with
         | inl result => ret result
         | inr errorMessage =>
             (modify (fun c => set_consecutiveFailures (S (consecutiveFailures c)) c) ;;
              if attempt >=? retries
              then throw_last retries name (Some errorMessage)
              else if isActorError errorMessage || invalidate then
                modify invalidateActorCache ;;
                delay (100 * (attempt + 1)) ;;
                withRetry_loop operation retries invalidate name n (attempt + 1)
                  (Some errorMessage)
              else if isConnectionError errorMessage then
                failures <- gets consecutiveFailures ;;
                delay (backoffMs failures) ;;
                reconnect ;;
                withRetry_loop operation retries invalidate name n (attempt + 1)
                  (Some errorMessage)
              else throw_last retries name (Some errorMessage))%async
         end).
Proof.
  intros Hup Hle. cbn [withRetry_loop].
  replace (attempt <=? retries) with true by (symmetry; apply Z.leb_le; lia).
  unfold bind at 1. unfold try_catch. unfold bind at 1. unfold call. rewrite Hup.
  cbn [bind_step catch_step negb].
  unfold bind at 1. unfold ret at 1. cbn [bind_step catch_step].
  unfold bind at 1. reflexivity.
Qed.

(** X21. [withRetry] on a live connection around an operation that fails
    with error e.  With no retry allowed, or an error that is neither an
    actor error nor a connection error (and no forced invalidation), e is
    thrown after this one attempt, the failure counted.  With retries left, an
    actor error (or forced invalidation) clears the actor cache and waits
    100 ms; a connection error waits the backoff of the failure count. *)
Theorem withRetry_policy (e : jserror) (retries : Z) (invalidate : bool) (name : jsstring)
        (c : client) :
  isConnected c = (true, c) -> 0 <= retries ->
  let failed := set_consecutiveFailures (S (consecutiveFailures c)) c in
  (retries = 0 \/ (isActorError e || invalidate = false /\ isConnectionError e = false) ->
   withRetry (@throw T e) retries invalidate name c = Done (Throw e) failed) /\
  (0 < retries -> isActorError e || invalidate = true ->
   exists k,
     withRetry (@throw T e) retries invalidate name c =
       Wait (AwaitDelay 100) (invalidateActorCache failed) k) /\
  (0 < retries -> isActorError e || invalidate = false -> isConnectionError e = true ->
   exists k,
     withRetry (@throw T e) retries invalidate name c =
       Wait (AwaitDelay (backoffMs (S (consecutiveFailures c)))) failed k).
Proof.
  intros Hup Hr failed. unfold withRetry.
  destruct (Z.to_nat (retries + 1)) as [|n] eqn:En; [lia|].
  assert (Hstep :
    withRetry_loop (@throw T e) retries invalidate name (S n) 0 None c =
      (if 0 >=? retries then throw_last retries name (Some e)
       else if isActorError e || invalidate then
         modify invalidateActorCache ;;
         delay (100 * (0 + 1)) ;;
         withRetry_loop (@throw T e) retries invalidate name n (0 + 1) (Some e)
       else if isConnectionError e then
         failures <- gets consecutiveFailures ;;
         delay (backoffMs failures) ;;
         reconnect ;;
         withRetry_loop (@throw T e) retries invalidate name n (0 + 1) (Some e)
       else throw_last retries name (Some e))%async failed).
  { rewrite withRetry_attempt by (assumption || lia). reflexivity. }
  rewrite Hstep. clear Hstep.
  split; [|split].
  - intros [-> | [Ha He]].
    + reflexivity.
    + destruct (0 >=? retries); [reflexivity|]. rewrite Ha, He. reflexivity.
  - intros Hpos Ha.
    replace (0 >=? retries) with false by (symmetry; rewrite Z.geb_leb; apply Z.leb_gt; lia).
    rewrite Ha.
    unfold bind at 1. unfold modify at 1. cbn [bind_step].
    unfold bind at 1. unfold delay. unfold bind at 1. unfold await. cbn [bind_step].
    eexists. reflexivity.
  - intros Hpos Ha He.
    replace (0 >=? retries) with false by (symmetry; rewrite Z.geb_leb; apply Z.leb_gt; lia).
    rewrite Ha, He.
    unfold bind at 1. unfold gets at 1. cbn [bind_step].
    unfold bind at 1. unfold delay. unfold bind at 1. unfold await. cbn [bind_step].
    eexists. reflexivity.
Qed.

End Retry.

Lemma withRetry_policy_witness :
  withRetry (@throw value (js "boom")) 2 false (js "operation") Sample.ready =
    Done (Throw (js "boom")) (set_consecutiveFailures 1 Sample.ready) /\
  (exists k, withRetry (@throw value (js "No such actor")) 2 false (js "operation") Sample.ready =
     Wait (AwaitDelay 100) (invalidateActorCache (set_consecutiveFailures 1 Sample.ready)) k) /\
  (exists k, withRetry (@throw value (js "write EPIPE")) 2 false (js "operation") Sample.ready =
     Wait (AwaitDelay 1000) (set_consecutiveFailures 1 Sample.ready) k).
Proof.
  split; [|split].
  - apply (proj1 (withRetry_policy (T:=value) (js "boom") 2 false (js "operation") Sample.ready
                    eq_refl ltac:(lia))).
    right. split; reflexivity.
  - apply (proj1 (proj2 (withRetry_policy (T:=value) (js "No such actor") 2 false
                           (js "operation") Sample.ready eq_refl ltac:(lia))));
      [lia | reflexivity].
  - apply (proj2 (proj2 (withRetry_policy (T:=value) (js "write EPIPE") 2 false
                           (js "operation") Sample.ready eq_refl ltac:(lia))));
      [lia | reflexivity | reflexivity].
Defined.


(** ** The backoff schedule in the two retry loops *)

(** The formula of the code gives the delays of the table. *)
Lemma backoffMs_table (n : nat) : backoffMs (S n) = backoff_table (S n).
Proof.
  destruct n as [|[|[|n]]]; try reflexivity.
  apply backoff_capped. lia.
Qed.

(** C9. The backoff of a connection-error retry.  The delay is the
    schedule of the specification, base 1000 ms doubled per consecutive
    failure and capped at 5000 ms: 1000, 2000, 4000, 5000 for 1, 2, 3, 4
    failures.  Both retry loops wait exactly that delay, at the failure count
    just incremented, before they reconnect and try again: [evaluateJS], when
    its evaluation request is rejected with a connection error and a retry
    is left, and [withRetry] (without forced invalidation), in every
    iteration where its operation throws one with an attempt left.  A
    connection error is one whose text names a connection failure and not a
    missing actor, the case both loops test first. *)
Theorem backoff_schedule {T} (e : jserror) (code : jsstring) (retryCount : nat)
        (operation : async T) (retries attempt : Z) (name : jsstring) (n : nat)
        (last : option jserror) (c a : client) (sock : Socket) :
  isActorError e = false -> isConnectionError e = true ->
  live c sock ->
  (backoff_table 1 = 1000 /\ backoff_table 2 = 2000 /\ backoff_table 3 = 4000 /\
   backoff_table 4 = 5000 /\
   forall count, (1 <= count)%nat ->
     backoff_table count = Z.min (1000 * 2 ^ (Z.of_nat count - 1)) 5000) /\
  (now c - lastSuccessfulOperation c <= HEALTH_CHECK_THRESHOLD_MS ->
   isActorCacheFresh c = true -> (retryCount < maxRetries)%nat ->
   exists k,
     evaluateJS code retryCount c =
       Wait (AwaitRequest (S (messageIdCounter c)))
            (sent (evaluate_request (consoleActor (state c)) code) sock c) k /\
     forall c', exists k',
       k (Rejected e) c' =
         Wait (AwaitDelay (backoff_table (S (consecutiveFailures c'))))
              (set_consecutiveFailures (S (consecutiveFailures c')) c') k' /\
       forall v c'',
         k' (Fulfilled v) c'' = (reconnect ;; evaluateJS code (S retryCount))%async c'') /\
  (operation c = Done (Throw e) a -> attempt < retries ->
   exists k,
     withRetry_loop operation retries false name (S n) attempt last c =
       Wait (AwaitDelay (backoff_table (S (consecutiveFailures a))))
            (set_consecutiveFailures (S (consecutiveFailures a)) a) k /\
     forall v c'',
       k (Fulfilled v) c'' =
         (reconnect ;;
          withRetry_loop operation retries false name n (attempt + 1) (Some e))%async c'') /\
  (operation c = Done (Throw e) a -> 0 < retries ->
   exists k,
     withRetry operation retries false name c =
       Wait (AwaitDelay (backoff_table (S (consecutiveFailures a))))
            (set_consecutiveFailures (S (consecutiveFailures a)) a) k).
Proof.
  intros Ha He Hlive.
  pose proof (live_isConnected c sock Hlive) as Hup.
  assert (Hloop : forall m at_ last_,
    operation c = Done (Throw e) a -> at_ < retries ->
    exists k,
      withRetry_loop operation retries false name (S m) at_ last_ c =
        Wait (AwaitDelay (backoff_table (S (consecutiveFailures a))))
             (set_consecutiveFailures (S (consecutiveFailures a)) a) k /\
      forall v c'',
        k (Fulfilled v) c'' =
          (reconnect ;;
           withRetry_loop operation retries false name m (at_ + 1) (Some e))%async c'').
  { intros m at_ last_ Hop Hlt.
    rewrite withRetry_attempt by (assumption || lia).
    rewrite Hop. cbn [bind_step catch_step]. unfold ret at 1. cbn [bind_step].
    unfold bind at 1. unfold modify at 1. cbn [bind_step].
    replace (at_ >=? retries) with false
      by (symmetry; rewrite Z.geb_leb; apply Z.leb_gt; lia).
    rewrite Ha, He. cbn [orb].
    unfold bind at 1. unfold gets at 1. cbn [bind_step].
    unfold bind at 1. unfold delay. unfold bind at 1. unfold await. cbn [bind_step].
    cbn [consecutiveFailures set_consecutiveFailures].
    rewrite backoffMs_table.
    eexists. split; [reflexivity|]. intros v c''. reflexivity. }
  split; [|split; [|split]].
  - repeat split. intros count Hc.
    destruct count as [|m]; [lia|]. symmetry. apply backoffMs_table.
  - intros Hidle Hfresh Hretry.
    destruct Hlive as (Hs & Hc & _ & _).
    rewrite evaluateJS_unfold by exact Hretry.
    rewrite evaluateJS_body_direct.
    2: exact Hup.
    2:{ destruct (shouldCheckHealth c) eqn:E; [|apply andb_false_r].
        apply shouldCheckHealth_spec in E. lia. }
    destruct (evaluateJS_cached_outcomes (evaluateJS code (S retryCount)) code retryCount
                c sock Hs Hc Hfresh) as (k & Hk & _ & _ & Hconn & _).
    exists k. split; [exact Hk|].
    intros c'. destruct (Hconn e c' Ha He Hretry) as (k' & Hk' & Hres).
    exists k'. rewrite <- backoffMs_table. split; assumption.
  - apply Hloop.
  - intros Hop Hpos. unfold withRetry.
    destruct (Z.to_nat (retries + 1)) as [|m] eqn:En; [lia|].
    destruct (Hloop m 0 None Hop Hpos) as (k & Hk & _).
    exists k. exact Hk.
Qed.

Lemma backoff_schedule_witness :
  (exists k k',
     evaluateJS Sample.one_plus_one 0 Sample.cached =
       Wait (AwaitRequest 1)
            (sent (evaluate_request Sample.console9 Sample.one_plus_one) Sample.sock
                  Sample.cached) k /\
     k (Rejected (js "read ECONNRESET")) (set_consecutiveFailures 2 Sample.cached) =
       Wait (AwaitDelay 4000) (set_consecutiveFailures 3 Sample.cached) k') /\
  (exists k,
     withRetry (@throw value (js "read ECONNRESET")) 2 false (js "operation") Sample.cached =
       Wait (AwaitDelay 1000) (set_consecutiveFailures 1 Sample.cached) k).
Proof.
  destruct (@backoff_schedule value (js "read ECONNRESET") Sample.one_plus_one 0
              (throw (js "read ECONNRESET")) 2 0 (js "operation") 0 None
              Sample.cached Sample.cached Sample.sock)
    as (_ & Hev & _ & Hwr).
  - reflexivity.
  - reflexivity.
  - repeat split.
  - split.
    + destruct Hev as (k & Hk & Hrej).
      * vm_compute. discriminate.
      * reflexivity.
      * unfold maxRetries. lia.
      * destruct (Hrej (set_consecutiveFailures 2 Sample.cached)) as (k' & Hk' & _).
        exists k, k'. split; [exact Hk | exact Hk'].
    + destruct Hwr as (k & Hk); [reflexivity | lia |].
      exists k. exact Hk.
Defined.

(** ** createClient, getRdpClient *)

(** X22. How [createClient(options)] settles host and port: a property
    given in [options] wins over the environment variable, the environment
    variable (a non-empty host; a port that parses to a number other than 0)
    wins over the default.  The other options come from [options] or the
    defaults, and the client starts disconnected with nothing pending. *)
Theorem createClient_precedence (env_host env_port : option jsstring)
        (options : option PartialOptions) :
  let given := match options with Some o => o | None => no_options end in
  let c := createClient env_host env_port options in
  host (Rdp.options c) =
    match host_opt given with
    | Some h => h
    | None => string_or env_host (host DEFAULT_OPTIONS)
    end /\
  port (Rdp.options c) =
    match port_opt given with
    | Some p => p
    | None => number_or (parseInt (string_or env_port [])) (port DEFAULT_OPTIONS)
    end /\
  reconnectDelay (Rdp.options c) =
    over_default (reconnectDelay DEFAULT_OPTIONS) (reconnectDelay_opt given) /\
  maxReconnectAttempts (Rdp.options c) =
    over_default (maxReconnectAttempts DEFAULT_OPTIONS) (maxReconnectAttempts_opt given) /\
  timeout (Rdp.options c) = over_default (timeout DEFAULT_OPTIONS) (timeout_opt given) /\
  socket c = None /\ connected (state c) = false /\ pendingRequests c = [].
Proof.
  intros given c. subst c. unfold createClient. fold given.
  destruct given as [h p r m t]. cbn.
  destruct h, p, r, m, t; repeat split; reflexivity.
Qed.

(** X23. [getRdpClient()] leaves a live shared client alone (no effect at
    all); on first use it makes the client and opens one socket to the
    configured host and port, whatever the environment says; and when the
    shared client's socket is destroyed or no longer writable it opens a new
    socket. *)
Theorem getRdpClient_connects_once (env_host env_port : option jsstring)
        (config_host : jsstring) (config_port : Z) :
  (forall c sock, live c sock ->
     getRdpClient env_host env_port config_host config_port (Some c) = Done (Return tt) c) /\
  (exists c k,
     getRdpClient env_host env_port config_host config_port None =
       Wait (AwaitConnect 0) c k /\
     trace c = [CreateConnection 1 config_host config_port] /\
     introListeners c = [0%nat] /\
     forall v c', k (Fulfilled v) c' = Done (Return tt) c') /\
  (forall c sock, socket c = Some sock -> connected (state c) = true ->
     destroyed sock = true \/ writable sock = false ->
     exists c' k,
       getRdpClient env_host env_port config_host config_port (Some c) =
         Wait (AwaitConnect (fresh c)) c' k /\
       trace c' = trace c ++ [CreateConnection (S (fresh c)) (host (options c)) (port (options c))] /\
       socket c' = Some (new_socket c)).
Proof.
  split; [|split].
  - intros c sock Hlive. unfold getRdpClient.
    unfold bind at 1. unfold call. rewrite (live_isConnected c sock Hlive). reflexivity.
  - do 2 eexists. split; [reflexivity|]. repeat split.
  - intros c sock Hs Hc Hz. unfold getRdpClient.
    unfold bind at 1. unfold call. unfold isConnected. rewrite Hs, Hc. cbn [negb].
    assert (Hdown : forall d, d = set_connected false c ->
              exists c' k, connect d = Wait (AwaitConnect (fresh c)) c' k /\
                trace c' = trace c ++ [CreateConnection (S (fresh c)) (host (options c))
                                         (port (options c))] /\
                socket c' = Some (new_socket c)).
    { intros d ->. rewrite connect_connecting by reflexivity.
      do 2 eexists. split; [reflexivity|]. split; reflexivity. }
    destruct Hz as [Hd | Hw].
    + rewrite Hd. cbn [bind_step negb]. apply Hdown. reflexivity.
    + destruct (destroyed sock); [cbn [bind_step negb]; apply Hdown; reflexivity|].
      rewrite Hw. cbn [bind_step negb]. apply Hdown. reflexivity.
Qed.

(** ** findMainWindow *)

Lemma find_first_total (pred : value -> option bool) (f : value -> bool) (l : list value) :
  (forall x, In x l -> pred x = Some (f x)) ->
  find_first pred l = Some (match find f l with Some t => t | None => VUndefined end).
Proof.
  induction l as [|x r IH]; intros H; [reflexivity|].
  cbn [find_first find]. rewrite (H x) by now left.
  destruct (f x); [reflexivity|]. apply IH. intros y Hy. apply H. now right.
Qed.

Lemma is_tab_url (t : value) :
  is_tab t = true -> prop t (js "url") = Some (VStr (tab_url t)).
Proof.
  destruct t as [| | | | | |fields|]; try discriminate. unfold is_tab, tab_url, prop, get.
  destruct (lookup (js "url") fields) as [[]|]; try discriminate. reflexivity.
Qed.

Lemma is_tab_title (t : value) :
  is_tab t = true -> prop t (js "title") = Some (VStr (tab_title t)).
Proof.
  destruct t as [| | | | | |fields|]; try discriminate. unfold is_tab, tab_title, prop, get.
  destruct (lookup (js "url") fields) as [[]|]; try discriminate.
  destruct (lookup (js "title") fields) as [[]|]; try discriminate. reflexivity.
Qed.

Lemma is_tab_truthy (t : value) : is_tab t = true -> truthy t = true.
Proof. destruct t; try discriminate. reflexivity. Qed.

(** X24. On a list of tab descriptors (objects with string [url] and
    [title]) [findMainWindow] returns the first tab whose URL starts with the
    Zotero pane URL; if there is none, the first whose title contains
    [Zotero]; if there is none either, the first tab; it returns [undefined]
    only for the empty list. *)
Theorem findMainWindow_choice (tabs : list value) :
  forallb is_tab tabs = true ->
  findMainWindow (VArr tabs) = Some (preferred_tab tabs) /\
  (tabs <> [] -> In (preferred_tab tabs) tabs) /\
  (tabs = [] -> preferred_tab tabs = VUndefined) /\
  (existsb is_pane tabs = true -> is_pane (preferred_tab tabs) = true) /\
  (existsb is_pane tabs = false -> existsb is_titled tabs = true ->
   is_titled (preferred_tab tabs) = true).
Proof.
  intros Hall. rewrite forallb_forall in Hall.
  split; [|split; [|split; [|split]]].
  - unfold findMainWindow, Array_find, preferred_tab.
    rewrite (find_first_total _ is_pane).
    2:{ intros x Hx. rewrite (is_tab_url x (Hall x Hx)). reflexivity. }
    destruct (find is_pane tabs) as [t|] eqn:Ep.
    + apply find_some in Ep. rewrite (is_tab_truthy t) by (apply Hall; tauto). reflexivity.
    + cbn [truthy].
      rewrite (find_first_total _ is_titled).
      2:{ intros x Hx. rewrite (is_tab_title x (Hall x Hx)). reflexivity. }
      destruct (find is_titled tabs) as [t|] eqn:Et.
      * apply find_some in Et. rewrite (is_tab_truthy t) by (apply Hall; tauto). reflexivity.
      * cbn [truthy]. destruct tabs; reflexivity.
  - intros Hne. unfold preferred_tab.
    destruct (find is_pane tabs) as [t|] eqn:Ep; [apply find_some in Ep; tauto|].
    destruct (find is_titled tabs) as [t|] eqn:Et; [apply find_some in Et; tauto|].
    destruct tabs; [congruence | now left].
  - intros ->. reflexivity.
  - intros Hex. unfold preferred_tab.
    destruct (find is_pane tabs) as [t|] eqn:Ep; [apply find_some in Ep; tauto|].
    apply existsb_exists in Hex. destruct Hex as (x & Hx & Hp).
    pose proof (find_none _ _ Ep x Hx). congruence.
  - intros Hno Hex. unfold preferred_tab.
    destruct (find is_pane tabs) as [t|] eqn:Ep.
    + apply find_some in Ep. destruct Ep as [Hin Hp].
      assert (existsb is_pane tabs = true) by (apply existsb_exists; eauto). congruence.
    + destruct (find is_titled tabs) as [t|] eqn:Et; [apply find_some in Et; tauto|].
      apply existsb_exists in Hex. destruct Hex as (x & Hx & Hp).
      pose proof (find_none _ _ Et x Hx). congruence.
Qed.

Lemma findMainWindow_choice_witness :
  findMainWindow (VArr Sample.tabs) = Some (nth 1 Sample.tabs VUndefined).
Proof.
  refine (proj1 (findMainWindow_choice Sample.tabs _)). reflexivity.
Defined.

(** ** Grips *)

Lemma depth_In (x : value) (l : list value) :
  In x l -> (depth x <= fold_right (fun x d => Nat.max (depth x) d) O l)%nat.
Proof.
  induction l as [|y r IH]; intros H; [contradiction|].
  cbn [fold_right]. destruct H as [-> | H]; [lia | specialize (IH H); lia].
Qed.

Lemma depth_field (k : jsstring) (x : value) (fields : record) :
  In (k, x) fields -> (depth x <= fold_right (fun kv d => Nat.max (depth (snd kv)) d) O fields)%nat.
Proof.
  induction fields as [|kv r IH]; intros H; [contradiction|].
  cbn [fold_right]. destruct H as [-> | H]; [cbn [snd]; lia | specialize (IH H); lia].
Qed.

Lemma lookup_In (k : jsstring) (x : value) (fields : record) :
  lookup k fields = Some x -> exists k', In (k', x) fields.
Proof.
  induction fields as [|[k' v] r IH]; cbn [lookup]; intros H; [discriminate|].
  destruct (jsstring_eqb k k').
  - injection H as ->. exists k'. now left.
  - destruct (IH H) as (k'' & Hin). exists k''. now right.
Qed.

Lemma depth_get (v : value) (k : jsstring) : (depth (get v k) <= pred (depth v))%nat.
Proof.
  destruct v as [| | | |s|items|fields|]; cbn [get depth]; try lia.
  - destruct (jsstring_eqb k (js "length")); cbn [depth]; lia.
  - destruct (jsstring_eqb k (js "length")); cbn [depth]; lia.
  - destruct (lookup k fields) as [x|] eqn:E; cbn [depth]; [|lia].
    destruct (lookup_In k x fields E) as (k' & Hin).
    pose proof (depth_field k' x fields Hin). cbn [pred]. exact H.
Qed.

Lemma depth_opt_prop (v : value) (k : jsstring) : (depth (opt_prop v k) <= pred (depth v))%nat.
Proof. destruct v; cbn [opt_prop]; try apply depth_get; cbn; lia. Qed.

Lemma depth_entries (v : value) (key : jsstring) (x : value) :
  In (key, x) (Object_entries v) -> (depth x <= pred (depth v))%nat.
Proof.
  destruct v as [| | | |s|items|fields|]; cbn [Object_entries]; try contradiction.
  - unfold index_entries. intros H. apply in_combine_r in H.
    apply in_map_iff in H. destruct H as (ch & <- & _). cbn. lia.
  - unfold index_entries. intros H. apply in_combine_r in H.
    cbn [depth pred]. now apply depth_In.
  - intros H. cbn [depth pred]. eapply depth_field, H.
Qed.

(** The fuel of [gripToValue_at] only has to exceed the depth. *)
Lemma gripToValue_at_fuel : forall (n m : nat) (v : value),
  (depth v < n)%nat -> (depth v < m)%nat -> gripToValue_at n v = gripToValue_at m v.
Proof.
  induction n as [|n IH]; intros m v Hn Hm; [lia|].
  destruct m as [|m]; [lia|].
  destruct v as [| | | |s|items|fields|]; try reflexivity.
  cbn [gripToValue_at].
  set (grip := VObj fields) in *.
  assert (Hpos : (1 <= depth grip)%nat) by (cbn [depth grip]; lia).
  pose proof (depth_get grip (js "preview")) as Hprev.
  pose proof (depth_opt_prop (get grip (js "preview")) (js "items")) as Hitems.
  pose proof (depth_get (get grip (js "preview")) (js "ownProperties")) as Hown.
  destruct (has_field K_type fields && is_string (get grip K_type) (js "longString"));
    [reflexivity|].
  destruct (has_field K_type fields && is_string (get grip K_type) (js "object"));
    [|reflexivity].
  destruct (is_string (get grip (js "class")) (js "Array") &&
            truthy (opt_prop (get grip (js "preview")) (js "items"))).
  - destruct (opt_prop (get grip (js "preview")) (js "items")) as [| | | | |l| |] eqn:El;
      try reflexivity.
    f_equal.
    assert (Hl : forall x, In x l -> (depth x < n)%nat /\ (depth x < m)%nat).
    { intros x Hx. pose proof (depth_In x l Hx). cbn [depth] in Hitems. lia. }
    clear El Hitems. induction l as [|item r IHr]; [reflexivity|].
    rewrite (IH m item) by (apply Hl; now left).
    destruct (gripToValue_at m item) as [[x|e]|]; cbn [and_then]; try reflexivity.
    rewrite IHr by (intros y Hy; apply Hl; now right). reflexivity.
  - destruct (truthy (get grip (js "preview"))); [|reflexivity].
    destruct (has_property (js "ownProperties") (get grip (js "preview"))) as [[|]|];
      try reflexivity.
    destruct (truthy (get (get grip (js "preview")) (js "ownProperties"))); [|reflexivity].
    f_equal.
    assert (Hl : forall key p, In (key, p)
                  (Object_entries (get (get grip (js "preview")) (js "ownProperties"))) ->
                forall x, prop p (js "value") = Some x ->
                          (depth x < n)%nat /\ (depth x < m)%nat).
    { intros key p Hin x Hx. pose proof (depth_entries _ key p Hin) as Hp.
      assert (Hxp : (depth x <= pred (depth p))%nat).
      { assert (Hg : x = get p (js "value"))
          by (destruct p; try discriminate; injection Hx as <-; reflexivity).
        rewrite Hg. apply depth_get. }
      lia. }
    induction (Object_entries (get (get grip (js "preview")) (js "ownProperties")))
      as [|[key p] r IHr]; [reflexivity|].
    destruct (prop p (js "value")) as [x|] eqn:Ex; [|reflexivity].
    rewrite (IH m x) by (eapply Hl; [now left | exact Ex]).
    destruct (gripToValue_at m x) as [[y|e]|]; cbn [and_then]; try reflexivity.
    rewrite IHr by (intros k' p' Hin; apply (Hl k' p'); now right). reflexivity.
Qed.

Lemma gripToValue_at_enough (n : nat) (v : value) :
  (depth v < n)%nat -> gripToValue_at n v = gripToValue v.
Proof. intros H. apply gripToValue_at_fuel; [exact H | lia]. Qed.

Lemma object_grip_tests (fields : record) (cls : jsstring) :
  is_object_grip fields cls ->
  has_field K_type fields && is_string (get (VObj fields) K_type) (js "longString") = false /\
  has_field K_type fields && is_string (get (VObj fields) K_type) (js "object") = true /\
  get (VObj fields) (js "class") = VStr cls.
Proof.
  intros [Ht Hc]. unfold has_field. cbn [get]. rewrite Ht, Hc. repeat split.
Qed.

(** X25. The synchronous decoder works part by part, to any depth.  An
    object grip of class [Array] with preview items decodes to the array of
    its decoded items; any other object grip whose preview has own properties
    decodes to the object of their decoded values, [__proto__] left out.  The
    first part that throws makes the whole throw. *)
Theorem preview_decodes_by_parts (fields : record) (cls : jsstring) (preview : value) :
  is_object_grip fields cls ->
  lookup (js "preview") fields = Some preview ->
  (forall l, cls = js "Array" -> opt_prop preview (js "items") = VArr l ->
     gripToValue (VObj fields) =
       and_then (decode_all gripToValue l) (fun xs => returns (VArr xs))) /\
  (forall own,
     cls <> js "Array" \/ truthy (opt_prop preview (js "items")) = false ->
     truthy preview = true ->
     has_property (js "ownProperties") preview = Some true ->
     get preview (js "ownProperties") = own -> truthy own = true ->
     gripToValue (VObj fields) =
       and_then (decode_properties gripToValue (Object_entries own))
         (fun xs => returns (VObj xs))).
Proof.
  intros Hg Hp.
  destruct (object_grip_tests fields cls Hg) as (Hlong & Hobj & Hcls).
  assert (Hprev : get (VObj fields) (js "preview") = preview) by (cbn [get]; now rewrite Hp).
  pose proof (depth_get (VObj fields) (js "preview")) as Hd. rewrite Hprev in Hd.
  split.
  - intros l -> Hitems.
    unfold gripToValue at 1. cbn [gripToValue_at]. rewrite Hlong, Hobj, Hcls, Hprev, Hitems.
    change (is_string (VStr (js "Array")) (js "Array") && truthy (VArr l)) with true.
    cbv iota. f_equal.
    assert (Hl : forall x, In x l -> (depth x < depth (VObj fields))%nat).
    { intros x Hx. pose proof (depth_In x l Hx).
      pose proof (depth_opt_prop preview (js "items")) as Hi. rewrite Hitems in Hi.
      cbn [depth] in Hi. cbn [depth] in *. lia. }
    clear Hitems. induction l as [|item r IHr]; [reflexivity|].
    cbn [decode_all]. rewrite gripToValue_at_enough by (apply Hl; now left).
    destruct (gripToValue item) as [[x|e]|]; cbn [and_then]; try reflexivity.
    rewrite IHr by (intros y Hy; apply Hl; now right). reflexivity.
  - intros own Hno Ht Hhas Hown Htown.
    unfold gripToValue at 1. cbn [gripToValue_at]. rewrite Hlong, Hobj, Hcls, Hprev.
    replace (is_string (VStr cls) (js "Array") && truthy (opt_prop preview (js "items")))
      with false.
    2:{ symmetry. destruct Hno as [Hne | Hf]; [|rewrite Hf; apply andb_false_r].
        cbn [is_string]. rewrite jsstring_eqb_neq by exact Hne. reflexivity. }
    rewrite Ht, Hhas, Hown, Htown. f_equal.
    assert (Hl : forall key p, In (key, p) (Object_entries own) ->
                forall x, prop p (js "value") = Some x ->
                          (depth x < depth (VObj fields))%nat).
    { intros key p Hin x Hx. pose proof (depth_entries _ key p Hin) as Hpd.
      assert (Hxp : (depth x <= pred (depth p))%nat).
      { assert (Hgx : x = get p (js "value"))
          by (destruct p; try discriminate; injection Hx as <-; reflexivity).
        rewrite Hgx. apply depth_get. }
      pose proof (depth_get preview (js "ownProperties")) as Ho. rewrite Hown in Ho.
      cbn [depth] in *. lia. }
    induction (Object_entries own) as [|[key p] r IHr]; [reflexivity|].
    cbn [decode_properties].
    destruct (prop p (js "value")) as [x|] eqn:Ex; [|reflexivity].
    rewrite gripToValue_at_enough by (eapply Hl; [now left | exact Ex]).
    destruct (gripToValue x) as [[y|e]|]; cbn [and_then]; try reflexivity.
    rewrite IHr by (intros k' p' Hin; apply (Hl k' p'); now right). reflexivity.
Qed.

Lemma preview_decodes_by_parts_witness :
  gripToValue (VObj Sample.array_grip) = Some (Return (VArr [VNum 1; VStr (js "abcde")])).
Proof.
  refine (proj1 (preview_decodes_by_parts Sample.array_grip (js "Array") Sample.array_preview _ _)
            [VNum 1; Sample.whole_long] _ _).
  - split; reflexivity.
  - reflexivity.
  - reflexivity.
  - reflexivity.
Defined.

(** X26. An object grip without a preview decodes to the placeholder
    string made of its class in square brackets; for the classes [Array] and
    [Object] this is a value [hasTruncatedValues] flags. *)
Theorem unpreviewed_object_is_a_placeholder (fields : record) (cls : jsstring) :
  is_object_grip fields cls ->
  truthy (get (VObj fields) (js "preview")) = false ->
  gripToValue (VObj fields) = Some (Return (VStr (js "[" ++ cls ++ js "]"))) /\
  (cls = js "Array" \/ cls = js "Object" ->
   hasTruncatedValues (VStr (js "[" ++ cls ++ js "]")) = true).
Proof.
  intros Hg Hp.
  destruct (object_grip_tests fields cls Hg) as (Hlong & Hobj & Hcls).
  split.
  - unfold gripToValue. cbn [gripToValue_at]. rewrite Hlong, Hobj, Hcls, Hp.
    replace (truthy (opt_prop (get (VObj fields) (js "preview")) (js "items"))) with false.
    2:{ destruct (get (VObj fields) (js "preview")) as [| |b|n|s|l|f|y];
          try discriminate; reflexivity. }
    rewrite andb_false_r. reflexivity.
  - intros [-> | ->]; reflexivity.
Qed.

Lemma unpreviewed_object_is_a_placeholder_witness :
  gripToValue (VObj Sample.bare_grip) = Some (Return (VStr (js "[Object]"))) /\
  hasTruncatedValues (VStr (js "[Object]")) = true.
Proof.
  destruct (unpreviewed_object_is_a_placeholder Sample.bare_grip (js "Object")) as [H1 H2].
  - split; reflexivity.
  - reflexivity.
  - split; [exact H1 | apply H2; now right].
Defined.

(** An [async] call whose first step is a request. *)
Lemma bind_sendMessage {B} (message : record) (f : value -> async B) (c : client)
      (sock : Socket) :
  socket c = Some sock -> connected (state c) = true ->
  (response <- sendMessage message ;; f response)%async c =
    Wait (AwaitRequest (S (messageIdCounter c))) (sent message sock c)
         (fun r c' => match r with
                      | Fulfilled v => f v c'
                      | Rejected e => Done (Throw e) c'
                      end).
Proof.
  intros Hs Hc. unfold bind. rewrite (sendMessage_connected message sock c Hs Hc).
  unfold await. cbn [bind_step]. f_equal.
  apply functional_extensionality. intros r. apply functional_extensionality. intros c'.
  destruct r; reflexivity.
Qed.

(** X27. Discovery, main path.  With the root known, [ensureConsoleActor]
    asks for the process list; if the list has a parent process it asks that
    process's actor for its target; and if the target's [process] carries a
    console actor, the call returns with that actor stored, having sent
    nothing else. *)
Theorem discovery_via_parent_process (c : client) (sock : Socket) (r : RootActor) :
  socket c = Some sock -> connected (state c) = true -> root (state c) = Some r ->
  exists k1,
    ensureConsoleActor c =
      Wait (AwaitRequest (S (messageIdCounter c))) (sent listProcesses_request sock c) k1 /\
    forall (m : value) (ps : list value) (parent : value) (c1 : client) (sock1 : Socket),
      prop m (js "processes") = Some (VArr ps) ->
      find_first is_parent ps = Some parent -> truthy parent = true ->
      socket c1 = Some sock1 -> connected (state c1) = true ->
      exists k2,
        k1 (Fulfilled m) c1 =
          Wait (AwaitRequest (S (messageIdCounter c1)))
               (sent (getTarget_request (get parent K_actor)) sock1 c1) k2 /\
        forall (tf : record) (c2 : client),
          truthy (opt_prop (get (VObj tf) (js "process")) K_consoleActor) = true ->
          exists c3,
            k2 (Fulfilled (VObj tf)) c2 = Done (Return tt) c3 /\
            consoleActor (state c3) = get (get (VObj tf) (js "process")) K_consoleActor /\
            same_connection c2 c3 /\ trace c3 = trace c2.
Proof.
  intros Hs Hc Hr.
  unfold ensureConsoleActor, viaProcesses, listProcesses, getTarget, viaGetTarget, viaAttach,
    listTabs, attachToTab.
  unfold bind, try_catch, gets, ret, modify, throw. cbn [bind_step catch_step].
  rewrite Hr. cbn [bind_step catch_step].
  rewrite (sendMessage_connected _ sock c Hs Hc). unfold await at 1.
  cbn [bind_step catch_step]. fold listProcesses_request.
  eexists. split; [reflexivity|].
  intros m ps parent c1 sock1 Hm Hfind Htruthy Hs1 Hc1.
  cbn [bind_step catch_step]. rewrite Hm. unfold of_option at 1, ret at 1.
  cbn [bind_step catch_step].
  change (or_else (VArr ps) (VArr [])) with (VArr ps).
  cbn [Array_find]. fold is_parent. rewrite Hfind.
  unfold of_option at 1, ret at 1. cbn [bind_step catch_step].
  rewrite Htruthy.
  rewrite (sendMessage_connected _ sock1 c1 Hs1 Hc1). unfold await at 1.
  cbn [bind_step catch_step].
  fold (getTarget_request (get parent K_actor)).
  eexists. split; [reflexivity|].
  intros tf c2 Hp.
  cbn [bind_step catch_step]. unfold of_option, ret. cbn [prop bind_step catch_step].
  destruct (truthy (opt_prop (get (VObj tf) (js "frame")) K_consoleActor));
    repeat (progress (cbn [prop bind_step catch_step]; rewrite ?Hp));
    (eexists; split; [reflexivity|]; split; [reflexivity|]; split; [|reflexivity];
     repeat split).
Qed.

Lemma discovery_via_parent_process_witness :
  exists k1,
    ensureConsoleActor Sample.ready =
      Wait (AwaitRequest 1) (sent listProcesses_request Sample.sock Sample.ready) k1.
Proof.
  destruct (discovery_via_parent_process Sample.ready Sample.sock Sample.ready_root)
    as (k1 & H & _); try reflexivity.
  exists k1. exact H.
Defined.



Lemma tabs_fallback (c : client) (sock : Socket) :
  socket c = Some sock -> connected (state c) = true ->
  falls_back_to_tabs
    ((tabs <- listTabs ;;
      mainWindow <- of_option (findMainWindow tabs) ;;
      found <- (if truthy mainWindow then
                  modify (set_currentTab
                            (Some {| actorID := get mainWindow K_actor;
                                     title := get mainWindow (js "title");
                                     url := get mainWindow (js "url");
                                     outerWindowID := get mainWindow (js "outerWindowID") |})) ;;
                  found <- viaGetTarget mainWindow ;;
                  if found : bool then ret true else viaAttach mainWindow
                else ret false) ;;
      if found : bool then ret tt
      else
        actor <- gets (fun c => consoleActor (state c)) ;;
        if negb (truthy actor) then throw COULD_NOT_FIND else ret tt)%async c) c sock.
Proof.
  intros Hs Hc. unfold falls_back_to_tabs, listTabs.
  unfold bind, try_catch, gets, ret, modify, throw. cbn [bind_step catch_step].
  rewrite (sendMessage_connected _ sock c Hs Hc). unfold await at 1.
  cbn [bind_step catch_step]. fold listTabs_request.
  eexists. split; [reflexivity|].
  intros fields c' Htabs.
  cbn [bind_step catch_step prop]. unfold of_option at 1, ret. cbn [bind_step catch_step].
  assert (Hor : or_else (get (VObj fields) (js "tabs")) (VArr []) = VArr []).
  { destruct Htabs as [-> | Hf]; [reflexivity|]. unfold or_else. now rewrite Hf. }
  rewrite Hor. change (findMainWindow (VArr [])) with (Some VUndefined).
  unfold of_option, ret. cbn [bind_step catch_step truthy].
  destruct (truthy (consoleActor (state c'))); reflexivity.
Qed.

(** X28. Discovery, fallback.  If the process listing is rejected, whatever
    the error, or lists no parent process, [ensureConsoleActor] asks for the
    tab list instead; and when that comes back empty it fails with the
    could-not-find error, unless a console actor is known by then. *)
Theorem discovery_falls_back_to_tabs (c : client) (sock : Socket) (r : RootActor) :
  socket c = Some sock -> connected (state c) = true -> root (state c) = Some r ->
  exists k1,
    ensureConsoleActor c =
      Wait (AwaitRequest (S (messageIdCounter c))) (sent listProcesses_request sock c) k1 /\
    (forall (e : jserror) (c1 : client) (sock1 : Socket),
       socket c1 = Some sock1 -> connected (state c1) = true ->
       falls_back_to_tabs (k1 (Rejected e) c1) c1 sock1) /\
    (forall (m : value) (ps : list value) (c1 : client) (sock1 : Socket),
       prop m (js "processes") = Some (VArr ps) ->
       find_first is_parent ps = Some VUndefined ->
       socket c1 = Some sock1 -> connected (state c1) = true ->
       falls_back_to_tabs (k1 (Fulfilled m) c1) c1 sock1).
Proof.
  intros Hs Hc Hr.
  unfold ensureConsoleActor, viaProcesses, listProcesses.
  unfold bind at 1. unfold gets at 1. cbn [bind_step]. rewrite Hr.
  unfold bind at 1. unfold ret at 1. cbn [bind_step].
  unfold bind at 1. unfold try_catch at 1. unfold bind at 1. unfold bind at 1.
  rewrite (sendMessage_connected _ sock c Hs Hc). unfold await at 1.
  cbn [bind_step catch_step]. fold listProcesses_request.
  eexists. split; [reflexivity|]. split.
  - intros e c1 sock1 Hs1 Hc1. cbn [bind_step catch_step]. unfold ret at 1.
    cbn [bind_step]. apply tabs_fallback; assumption.
  - intros m ps c1 sock1 Hm Hfind Hs1 Hc1. cbn [bind_step catch_step].
    unfold bind at 1. rewrite Hm. unfold of_option at 1, ret at 1. cbn [bind_step catch_step].
    unfold ret at 1. cbn [bind_step catch_step].
    change (or_else (VArr ps) (VArr [])) with (VArr ps).
    unfold bind at 1. cbn [Array_find]. fold is_parent. rewrite Hfind.
    unfold of_option at 1, ret at 1. cbn [bind_step catch_step truthy].
    unfold ret at 1. cbn [bind_step catch_step].
    apply tabs_fallback; assumption.
Qed.

Lemma discovery_falls_back_to_tabs_witness :
  exists k1,
    ensureConsoleActor Sample.ready =
      Wait (AwaitRequest 1) (sent listProcesses_request Sample.sock Sample.ready) k1 /\
    falls_back_to_tabs (k1 (Rejected (js "unknownMethod")) Sample.ready)
      Sample.ready Sample.sock.
Proof.
  destruct (discovery_falls_back_to_tabs Sample.ready Sample.sock Sample.ready_root)
    as (k1 & H & Hf & _); try reflexivity.
  exists k1. split; [exact H|]. apply Hf; reflexivity.
Defined.

(** ** The backoff in general *)

(** X30. The backoff delay as a function of the failure count n >= 1: it is
    1000 * 2^(n-1) ms up to the third failure and 5000 ms from the fourth on,
    so it never decreases as failures accumulate and always lies between
    1000 and 5000 ms. *)
Theorem backoff_monotone_capped (n m : nat) :
  (1 <= n <= m)%nat ->
  (1000 <= backoffMs n <= backoffMs m) /\ (backoffMs m <= 5000) /\
  ((n <= 3)%nat -> backoffMs n = 1000 * 2 ^ (Z.of_nat n - 1)) /\
  ((4 <= n)%nat -> backoffMs n = 5000).
Proof.
  intros [Hn Hm].
  assert (Hmono : 2 ^ (Z.of_nat n - 1) <= 2 ^ (Z.of_nat m - 1))
    by (apply Z.pow_le_mono_r; lia).
  assert (Hone : 2 ^ 0 <= 2 ^ (Z.of_nat n - 1)) by (apply Z.pow_le_mono_r; lia).
  change (2 ^ 0) with 1 in Hone.
  unfold backoffMs. split; [|split; [|split]].
  - lia.
  - lia.
  - intros H3.
    assert (Hthree : 2 ^ (Z.of_nat n - 1) <= 2 ^ 2) by (apply Z.pow_le_mono_r; lia).
    change (2 ^ 2) with 4 in Hthree. lia.
  - intros H4.
    assert (Hfour : 2 ^ 3 <= 2 ^ (Z.of_nat n - 1)) by (apply Z.pow_le_mono_r; lia).
    change (2 ^ 3) with 8 in Hfour. lia.
Qed.

Lemma backoff_monotone_capped_witness :
  (1000 <= backoffMs 2 <= backoffMs 5) /\ (backoffMs 5 <= 5000).
Proof.
  destruct (backoff_monotone_capped 2 5) as (H1 & H2 & _); [lia|].
  split; assumption.
Defined.
